(** * zap2xml: guide-data fetch, merge and rendering pipeline

    A shallow embedding of the parts of [zap2xml.py] that decide the
    cache policy, the per-field merge of program records, the schedule
    assembly of both renderers and the timestamp parsers, together with
    the properties established about them.

    Conventions of the embedding.
    - Python [str] values are [string]s whose characters are code points
      below 256; integers are [Z].
    - A [dict] whose iteration order can be observed is a [pydict]
      (insertion-ordered association list); the program store, whose
      order is never observed by the modelled code, is a [gmap].
    - A missing dictionary key is [None] in an [option] field.
    - Code that may raise returns a [result]; a [while] loop whose
      counter is not advanced on every path runs on fuel and returns an
      [outcome].
    - Text decoding of payloads ([json.loads]) is a parameter of the
      development, and a decoded payload is a typed record; gzip
      compression is the identity on contents.

    Scope.  The grid loop and the parsers of the default provider are
    modelled from [process_data], [parse_json] and [post_json_overview];
    of the alternate provider only the detail parser
    [parse_tvg_details].  The methods of Section [Pipeline] are those
    of an object on which [get_z_token] has nothing to do (a token is
    held, or no password is given), entered with the favorites in
    place; Module [Session] has them with [login] and the requests it
    sends.  The icon download is left out, and the renderers are
    modelled up to the text they format: a written element is a record
    of the values it is formatted from. *)

From Stdlib Require Import ZArith Ascii String DecimalString DecimalZ.
From stdpp Require Import gmap strings list.

Local Open Scope Z_scope.

(** ** Exceptions *)

(** [Exception] stands for an exception raised with [raise Exception(...)]. *)
Inductive exn : Type :=
  | KeyError
  | ValueError
  | TypeError
  | IndexError
  | AttributeError
  | Exception.

Inductive result (A : Type) : Type :=
  | Ok (a : A)
  | Exn (e : exn).
Arguments Ok {A} a.
Arguments Exn {A} e.

Definition rbind {A B} (r : result A) (k : A -> result B) : result B :=
  match r with
  | Ok a => k a
  | Exn e => Exn e
  end.

Notation "x <~ c1 ;; c2" := (rbind c1 (fun x => c2))
  (at level 100, c1 at next level, right associativity).

(** [obj[key]] on a dictionary lookup that came back empty. *)
Definition subscript {A} (o : option A) : result A :=
  match o with
  | Some a => Ok a
  | None => Exn KeyError
  end.

Inductive outcome (A : Type) : Type :=
  | Done (a : A)
  | Raised (e : exn)
  | OutOfFuel.
Arguments Done {A} a.
Arguments Raised {A} e.
Arguments OutOfFuel {A}.

(** ** Strings *)

Module Str.

Definition code (c : ascii) : Z := Z.of_nat (nat_of_ascii c).

Definition chr (z : Z) : ascii := ascii_of_nat (Z.to_nat z).

Definition is_digit (c : ascii) : bool :=
  (48 <=? code c) && (code c <=? 57).

(** [str.lower] on one code point below 256: A-Z and the accented
    capitals U+00C0..U+00DE (without the multiplication sign U+00D7)
    move 32 places up. *)
Definition lower_char (c : ascii) : ascii :=
  let n := code c in
  if ((65 <=? n) && (n <=? 90))
     || ((192 <=? n) && (n <=? 222) && negb (n =? 215))
  then chr (n + 32) else c.

Fixpoint lower (s : string) : string :=
  match s with
  | EmptyString => EmptyString
  | String c s' => String (lower_char c) (lower s')
  end.

(** [s.startswith(p)] *)
Definition startswith (p s : string) : bool := String.prefix p s.

(** [p in s] *)
Fixpoint contains (p s : string) : bool :=
  String.prefix p s ||
  match s with
  | EmptyString => false
  | String _ s' => contains p s'
  end.

(** [s.lstrip('0')] *)
Fixpoint lstrip0 (s : string) : string :=
  match s with
  | String "0" s' => lstrip0 s'
  | _ => s
  end.

(** truthiness of a string: [if s:] *)
Definition nonempty (s : string) : bool :=
  match s with
  | EmptyString => false
  | String _ _ => true
  end.

(** [s[i:j]] for [0 <= i <= j] *)
Definition slice (i j : nat) (s : string) : string :=
  String.substring i (j - i) s.

Definition len (s : string) : Z := Z.of_nat (String.length s).

(** [a < b] and [a <= b] on strings: lexicographic on code points. *)
Definition ltb (a b : string) : bool := String.ltb a b.
Definition leb (a b : string) : bool := String.leb a b.

(** [re.sub(r'filter-', '', s, flags=re.I)]: every non-overlapping
    occurrence, scanning from the left, is removed. *)
Fixpoint remove_filter_go (skip : nat) (s : string) : string :=
  match s with
  | EmptyString => EmptyString
  | String c s' =>
      match skip with
      | S k => remove_filter_go k s'
      | O =>
          if String.prefix "filter-" (lower (slice 0 7 s))
          then remove_filter_go 6 s'
          else String c (remove_filter_go 0 s')
      end
  end.
Definition remove_filter (s : string) : string := remove_filter_go 0 s.

(** [re.sub(r'\?.*', '', s)]: from each question mark up to the end of
    its line ([.] does not match a line feed). *)
Fixpoint strip_query_go (dropping : bool) (s : string) : string :=
  match s with
  | EmptyString => EmptyString
  | String c s' =>
      if dropping
      then if (code c =? 10) then String c (strip_query_go false s')
           else strip_query_go true s'
      else if (code c =? 63) then strip_query_go true s'
           else String c (strip_query_go false s')
  end.
Definition strip_query (s : string) : string := strip_query_go false s.

(** [\w] on one code point below 256. *)
Definition is_word (c : ascii) : bool :=
  let n := code c in
  ((48 <=? n) && (n <=? 57)) || ((65 <=? n) && (n <=? 90)) || (n =? 95)
  || ((97 <=? n) && (n <=? 122)) || (n =? 170) || ((178 <=? n) && (n <=? 179))
  || (n =? 181) || ((185 <=? n) && (n <=? 186)) || ((188 <=? n) && (n <=? 190))
  || ((192 <=? n) && (n <=? 214)) || ((216 <=? n) && (n <=? 246))
  || (248 <=? n).

(** The search for [\bTBA\b|To Be Announced] in a lowered string;
    [prev_word] tells whether the character before is a word
    character. *)
Fixpoint search_tba_go (prev_word : bool) (s : string) : bool :=
  match s with
  | EmptyString => false
  | String c s' =>
      (negb prev_word && String.prefix "tba" s
       && match String.get 3 s with
          | Some d => negb (is_word d)
          | None => true
          end)
      || String.prefix "to be announced" s
      || search_tba_go (is_word c) s'
  end.

End Str.

(** ** Insertion-ordered dictionaries *)

Section pydict.
Context {K V : Type} `{EqDecision K}.

Definition pydict : Type := list (K * V).

(** [d.get(k)] *)
Fixpoint dget (k : K) (d : list (K * V)) : option V :=
  match d with
  | [] => None
  | (k', v) :: d' => if decide (k = k') then Some v else dget k d'
  end.

(** [d[k] = v]: an existing key keeps its position. *)
Fixpoint dset (k : K) (v : V) (d : list (K * V)) : list (K * V) :=
  match d with
  | [] => [(k, v)]
  | (k', v') :: d' =>
      if decide (k = k') then (k, v) :: d' else (k', v') :: dset k v d'
  end.

(** [del d[k]] once the key is known to be present. *)
Fixpoint ddel (k : K) (d : list (K * V)) : list (K * V) :=
  match d with
  | [] => []
  | (k', v') :: d' =>
      if decide (k = k') then d' else (k', v') :: ddel k d'
  end.

Definition dkeys (d : list (K * V)) : list K := d.*1.
Definition dvalues (d : list (K * V)) : list V := d.*2.

Definition dmem (k : K) (d : list (K * V)) : bool :=
  match dget k d with Some _ => true | None => false end.

End pydict.
Arguments pydict : clear implicits.

(** ** [sorted]: a stable sort *)

Section sorted.
Context {A : Type} (le : A -> A -> bool).

Fixpoint insert_sorted (x : A) (l : list A) : list A :=
  match l with
  | [] => [x]
  | y :: l' => if le x y then x :: y :: l' else y :: insert_sorted x l'
  end.

(** An element is placed before the elements it compares equal to that
    follow it in the input, so equal keys keep their input order. *)
Definition sorted (l : list A) : list A := foldr insert_sorted [] l.

End sorted.

(** ** Timestamps: [datetime.strptime] and [timestamp] *)

Module Time.

Record datetime : Type := mkDatetime
  { year : Z; month : Z; day : Z; hour : Z; minute : Z; second : Z }.

(** A parser returns every way of matching a prefix of its input, in
    the order in which the regular expression built by [strptime]
    tries its alternatives; the first complete way is the match. *)
Definition parser (A : Type) : Type := string -> list (A * string).

Definition dval (c : ascii) : Z := Str.code c - 48.

Definition pret {A} (a : A) : parser A := fun s => [(a, s)].

Definition pbind {A B} (p : parser A) (k : A -> parser B) : parser B :=
  fun s => '(a, r) ← p s; k a r.

Definition palt {A} (p q : parser A) : parser A := fun s => p s ++ q s.

Notation "x <- p ;;; k" := (pbind p (fun x => k))
  (at level 100, p at next level, right associativity).

(** An alternative made of two digit characters, such as [1[0-2]]. *)
Definition two_digits (ok : Z -> Z -> bool) : parser Z := fun s =>
  match s with
  | String a (String b r) =>
      if Str.is_digit a && Str.is_digit b && ok (dval a) (dval b)
      then [(10 * dval a + dval b, r)] else []
  | _ => []
  end.

(** An alternative made of one digit character, such as [[1-9]]. *)
Definition one_digit (ok : Z -> bool) : parser Z := fun s =>
  match s with
  | String a r => if Str.is_digit a && ok (dval a) then [(dval a, r)] else []
  | _ => []
  end.

(** The alternative [ [1-9]] of the day of the month. *)
Definition space_digit : parser Z := fun s =>
  match s with
  | String a (String b r) =>
      if (Str.code a =? 32) && Str.is_digit b && (1 <=? dval b)
      then [(dval b, r)] else []
  | _ => []
  end.

(** A literal character of the format; the expression is compiled with
    [re.IGNORECASE]. *)
Definition lit (c : ascii) : parser unit := fun s =>
  match s with
  | String a r =>
      if decide (Str.lower_char a = Str.lower_char c) then [(tt, r)] else []
  | _ => []
  end.

(** [%Y]: [\d\d\d\d] *)
Definition p_Y : parser Z :=
  hi <- two_digits (fun _ _ => true) ;;;
  lo <- two_digits (fun _ _ => true) ;;;
  pret (100 * hi + lo).

(** [%m]: [1[0-2]|0[1-9]|[1-9]] *)
Definition p_m : parser Z :=
  palt (two_digits (fun a b => ((a =? 1) && (b <=? 2)) || ((a =? 0) && (1 <=? b))))
       (one_digit (fun a => 1 <=? a)).

(** [%d]: [3[0-1]|[1-2]\d|0[1-9]|[1-9]| [1-9]] *)
Definition p_d : parser Z :=
  palt (two_digits (fun a b =>
          ((a =? 3) && (b <=? 1)) || ((1 <=? a) && (a <=? 2))
          || ((a =? 0) && (1 <=? b))))
    (palt (one_digit (fun a => 1 <=? a)) space_digit).

(** [%H]: [2[0-3]|[0-1]\d|\d] *)
Definition p_H : parser Z :=
  palt (two_digits (fun a b => ((a =? 2) && (b <=? 3)) || (a <=? 1)))
       (one_digit (fun _ => true)).

(** [%M]: [[0-5]\d|\d] *)
Definition p_M : parser Z :=
  palt (two_digits (fun a _ => a <=? 5)) (one_digit (fun _ => true)).

(** [%S]: [6[0-1]|[0-5]\d|\d] *)
Definition p_S : parser Z :=
  palt (two_digits (fun a b => ((a =? 6) && (b <=? 1)) || (a <=? 5)))
       (one_digit (fun _ => true)).

(** ['%Y-%m-%dT%H:%M:%SZ'] *)
Definition fmt_seconds : parser datetime :=
  y <- p_Y ;;; _ <- lit "-" ;;; m <- p_m ;;; _ <- lit "-" ;;; d <- p_d ;;;
  _ <- lit "T" ;;; h <- p_H ;;; _ <- lit ":" ;;; mi <- p_M ;;;
  _ <- lit ":" ;;; s <- p_S ;;; _ <- lit "Z" ;;;
  pret (mkDatetime y m d h mi s).

(** ['%Y-%m-%dT%H:%MZ'] *)
Definition fmt_minutes : parser datetime :=
  y <- p_Y ;;; _ <- lit "-" ;;; m <- p_m ;;; _ <- lit "-" ;;; d <- p_d ;;;
  _ <- lit "T" ;;; h <- p_H ;;; _ <- lit ":" ;;; mi <- p_M ;;;
  _ <- lit "Z" ;;;
  pret (mkDatetime y m d h mi 0).

Definition is_leap (y : Z) : bool :=
  (y mod 4 =? 0) && (negb (y mod 100 =? 0) || (y mod 400 =? 0)).

Definition days_in_month (y m : Z) : Z :=
  if (m =? 2) && is_leap y then 29
  else nth (Z.to_nat m) [0; 31; 28; 31; 30; 31; 30; 31; 31; 30; 31; 30; 31] 0.

Definition days_before_month (y m : Z) : Z :=
  nth (Z.to_nat m) [0; 0; 31; 59; 90; 120; 151; 181; 212; 243; 273; 304; 334] 0
  + (if (2 <? m) && is_leap y then 1 else 0).

Definition days_before_year (y : Z) : Z :=
  let y1 := y - 1 in y1 * 365 + y1 / 4 - y1 / 100 + y1 / 400.

Definition ymd2ord (y m d : Z) : Z :=
  days_before_year y + days_before_month y m + d.

(** The checks of the [datetime] constructor that the matched fields
    can still fail: year 0, a day the month does not have, and the
    leap seconds 60 and 61 that [%S] lets through. *)
Definition valid (dt : datetime) : bool :=
  (1 <=? year dt) && (day dt <=? days_in_month (year dt) (month dt))
  && (second dt <=? 59).

(** [datetime.strptime(s, fmt)]: the expression must match a prefix,
    nothing may remain after it, and the date must exist. *)
Definition strptime (fmt : parser datetime) (s : string) : result datetime :=
  match fmt s with
  | [] => Exn ValueError
  | (dt, rest) :: _ =>
      if Str.nonempty rest then Exn ValueError
      else if valid dt then Ok dt else Exn ValueError
  end.

(** [int(dt.replace(tzinfo=timezone.utc).timestamp())] *)
Definition timestamp (dt : datetime) : Z :=
  (ymd2ord (year dt) (month dt) (day dt) - 719163) * 86400
  + hour dt * 3600 + minute dt * 60 + second dt.

End Time.

(** [str2time1]: the bare [except] turns every failure into 0. *)
Definition str2time1 (s : string) : Z :=
  match Time.strptime Time.fmt_seconds s with
  | Ok dt => Time.timestamp dt
  | Exn _ => 0
  end.

Definition str2time2 (s : string) : Z :=
  match Time.strptime Time.fmt_minutes s with
  | Ok dt => Time.timestamp dt
  | Exn _ => 0
  end.

(** ** Data model *)

(** A station's display order is the running counter under
    [retainOrder] and the stripped channel number otherwise. *)
Inductive order_val : Type :=
  | OrdNum (n : Z)
  | OrdStr (s : string).

Record station : Type := mkStation
  { stnNum : string;
    name : string;
    number : string;
    order : order_val;
    logoURL : option string }.

(** One entry of [self.programs]; a field is [None] while its key is
    absent.  The five cast and crew dictionaries live in [credits] under
    their key ('presenter', 'actor', 'producer', 'director', 'writer'). *)
Record program : Type := mkProgram
  { title : option string;
    episode : option string;
    description : option string;
    duration : option Z;
    movie_year : option string;
    seasonNum : option string;
    episodeNum : option string;
    imageUrl : option string;
    url : option string;
    genres : option (pydict string Z);
    rating : option string;
    originalAirDate : option Z;
    credits : pydict string (pydict string Z);
    role : option (pydict string string) }.

Definition empty_program : program :=
  mkProgram None None None None None None None None None None None None [] None.

Definition set_title v p := mkProgram (Some v) (episode p) (description p)
  (duration p) (movie_year p) (seasonNum p) (episodeNum p) (imageUrl p) (url p)
  (genres p) (rating p) (originalAirDate p) (credits p) (role p).
Definition set_episode v p := mkProgram (title p) (Some v) (description p)
  (duration p) (movie_year p) (seasonNum p) (episodeNum p) (imageUrl p) (url p)
  (genres p) (rating p) (originalAirDate p) (credits p) (role p).
Definition set_description v p := mkProgram (title p) (episode p) (Some v)
  (duration p) (movie_year p) (seasonNum p) (episodeNum p) (imageUrl p) (url p)
  (genres p) (rating p) (originalAirDate p) (credits p) (role p).
Definition set_duration v p := mkProgram (title p) (episode p) (description p)
  (Some v) (movie_year p) (seasonNum p) (episodeNum p) (imageUrl p) (url p)
  (genres p) (rating p) (originalAirDate p) (credits p) (role p).
Definition set_movie_year v p := mkProgram (title p) (episode p) (description p)
  (duration p) (Some v) (seasonNum p) (episodeNum p) (imageUrl p) (url p)
  (genres p) (rating p) (originalAirDate p) (credits p) (role p).
Definition set_seasonNum v p := mkProgram (title p) (episode p) (description p)
  (duration p) (movie_year p) (Some v) (episodeNum p) (imageUrl p) (url p)
  (genres p) (rating p) (originalAirDate p) (credits p) (role p).
Definition set_episodeNum v p := mkProgram (title p) (episode p) (description p)
  (duration p) (movie_year p) (seasonNum p) (Some v) (imageUrl p) (url p)
  (genres p) (rating p) (originalAirDate p) (credits p) (role p).
Definition set_imageUrl v p := mkProgram (title p) (episode p) (description p)
  (duration p) (movie_year p) (seasonNum p) (episodeNum p) (Some v) (url p)
  (genres p) (rating p) (originalAirDate p) (credits p) (role p).
Definition set_url v p := mkProgram (title p) (episode p) (description p)
  (duration p) (movie_year p) (seasonNum p) (episodeNum p) (imageUrl p) (Some v)
  (genres p) (rating p) (originalAirDate p) (credits p) (role p).
Definition set_genres v p := mkProgram (title p) (episode p) (description p)
  (duration p) (movie_year p) (seasonNum p) (episodeNum p) (imageUrl p) (url p)
  (Some v) (rating p) (originalAirDate p) (credits p) (role p).
Definition set_rating v p := mkProgram (title p) (episode p) (description p)
  (duration p) (movie_year p) (seasonNum p) (episodeNum p) (imageUrl p) (url p)
  (genres p) (Some v) (originalAirDate p) (credits p) (role p).
Definition set_originalAirDate v p := mkProgram (title p) (episode p)
  (description p) (duration p) (movie_year p) (seasonNum p) (episodeNum p)
  (imageUrl p) (url p) (genres p) (rating p) (Some v) (credits p) (role p).
Definition set_credits v p := mkProgram (title p) (episode p) (description p)
  (duration p) (movie_year p) (seasonNum p) (episodeNum p) (imageUrl p) (url p)
  (genres p) (rating p) (originalAirDate p) v (role p).
Definition set_role v p := mkProgram (title p) (episode p) (description p)
  (duration p) (movie_year p) (seasonNum p) (episodeNum p) (imageUrl p) (url p)
  (genres p) (rating p) (originalAirDate p) (credits p) (Some v).

(** One entry of [self.schedule[station]].  The grid parser of the
    default provider stores the end of an airing under the key 'endTime',
    the parser of the alternate provider under 'endtime'; both keys are
    kept apart here as they are in the dictionary.  A flag is [true]
    when its key is present. *)
Record airing : Type := mkAiring
  { time : Z;
    endtime : option Z;
    endTime : option Z;
    a_program : string;
    a_station : string;
    cc : bool;
    new : bool;
    live : bool;
    premiere : bool;
    finale : bool }.

Definition set_cc a := mkAiring (time a) (endtime a) (endTime a) (a_program a)
  (a_station a) true (new a) (live a) (premiere a) (finale a).
Definition set_new a := mkAiring (time a) (endtime a) (endTime a) (a_program a)
  (a_station a) (cc a) true (live a) (premiere a) (finale a).
Definition set_live a := mkAiring (time a) (endtime a) (endTime a) (a_program a)
  (a_station a) (cc a) (new a) true (premiere a) (finale a).
Definition set_premiere a := mkAiring (time a) (endtime a) (endTime a)
  (a_program a) (a_station a) (cc a) (new a) (live a) true (finale a).
Definition set_finale a := mkAiring (time a) (endtime a) (endTime a)
  (a_program a) (a_station a) (cc a) (new a) (live a) (premiere a) true.

(** The options read by the modelled code; an attribute that is tested
    with [hasattr(...) and ...] is [false] when it is missing. *)
Record options : Type := mkOptions
  { days : Z;
    ncdays : Z;
    ncsdays : Z;
    ncmday : Z;
    retries : Z;
    allChan : bool;
    retainOrder : bool;
    opt8 : bool;
    opt9 : bool;
    oldStyleIds : bool;
    useTVGuide : bool;
    noTbaCache : bool;
    seriesCategory : bool;
    includeDetails : bool;
    outputXTVD : bool }.

Definition gridHours : Z := 3.
Definition urlRoot : string := "https://tvlistings.gracenote.com/".
Definition urlAssets : string := "https://zap2it.tmsimg.com/assets/".

(** The attributes of the [Zap2XML] object, the cache directory and the
    count of requests sent so far.  [grid_files] maps a bucket start to
    the text of its [<ms>.js.gz] file, [detail_files] a program id to the
    text of its [O<id>.js.gz] file. *)
Record zap : Type := mkZap
  { opts : options;
    zapFavorites : gset string;
    stations : pydict string station;
    programs : gmap string program;
    schedule : pydict string (pydict Z airing);
    coNum : Z;
    tba : bool;
    exp : bool;
    sidCache : gmap string string;
    grid_files : gmap Z string;
    detail_files : gmap string string;
    requests : nat;
    XTVD_startTime : option Z;
    XTVD_endTime : option Z }.

Definition set_opts v z := mkZap v (zapFavorites z) (stations z) (programs z)
  (schedule z) (coNum z) (tba z) (exp z) (sidCache z) (grid_files z)
  (detail_files z) (requests z) (XTVD_startTime z) (XTVD_endTime z).
Definition set_stations v z := mkZap (opts z) (zapFavorites z) v (programs z)
  (schedule z) (coNum z) (tba z) (exp z) (sidCache z) (grid_files z)
  (detail_files z) (requests z) (XTVD_startTime z) (XTVD_endTime z).
Definition set_programs v z := mkZap (opts z) (zapFavorites z) (stations z) v
  (schedule z) (coNum z) (tba z) (exp z) (sidCache z) (grid_files z)
  (detail_files z) (requests z) (XTVD_startTime z) (XTVD_endTime z).
Definition set_schedule v z := mkZap (opts z) (zapFavorites z) (stations z)
  (programs z) v (coNum z) (tba z) (exp z) (sidCache z) (grid_files z)
  (detail_files z) (requests z) (XTVD_startTime z) (XTVD_endTime z).
Definition set_coNum v z := mkZap (opts z) (zapFavorites z) (stations z)
  (programs z) (schedule z) v (tba z) (exp z) (sidCache z) (grid_files z)
  (detail_files z) (requests z) (XTVD_startTime z) (XTVD_endTime z).
Definition set_tba v z := mkZap (opts z) (zapFavorites z) (stations z)
  (programs z) (schedule z) (coNum z) v (exp z) (sidCache z) (grid_files z)
  (detail_files z) (requests z) (XTVD_startTime z) (XTVD_endTime z).
Definition set_exp v z := mkZap (opts z) (zapFavorites z) (stations z)
  (programs z) (schedule z) (coNum z) (tba z) v (sidCache z) (grid_files z)
  (detail_files z) (requests z) (XTVD_startTime z) (XTVD_endTime z).
Definition set_sidCache v z := mkZap (opts z) (zapFavorites z) (stations z)
  (programs z) (schedule z) (coNum z) (tba z) (exp z) v (grid_files z)
  (detail_files z) (requests z) (XTVD_startTime z) (XTVD_endTime z).
Definition set_grid_files v z := mkZap (opts z) (zapFavorites z) (stations z)
  (programs z) (schedule z) (coNum z) (tba z) (exp z) (sidCache z) v
  (detail_files z) (requests z) (XTVD_startTime z) (XTVD_endTime z).
Definition set_detail_files v z := mkZap (opts z) (zapFavorites z) (stations z)
  (programs z) (schedule z) (coNum z) (tba z) (exp z) (sidCache z)
  (grid_files z) v (requests z) (XTVD_startTime z) (XTVD_endTime z).
Definition set_requests v z := mkZap (opts z) (zapFavorites z) (stations z)
  (programs z) (schedule z) (coNum z) (tba z) (exp z) (sidCache z)
  (grid_files z) (detail_files z) v (XTVD_startTime z) (XTVD_endTime z).
Definition set_XTVD_startTime v z := mkZap (opts z) (zapFavorites z)
  (stations z) (programs z) (schedule z) (coNum z) (tba z) (exp z) (sidCache z)
  (grid_files z) (detail_files z) (requests z) (Some v) (XTVD_endTime z).
Definition set_XTVD_endTime v z := mkZap (opts z) (zapFavorites z)
  (stations z) (programs z) (schedule z) (coNum z) (tba z) (exp z) (sidCache z)
  (grid_files z) (detail_files z) (requests z) (XTVD_startTime z) (Some v).

(** ** Decoded payloads *)

(** The 'program' object of a grid event; a string field is empty when
    the key is missing. *)
Record json_program : Type := mkJsonProgram
  { j_id : string;
    j_title : string;
    j_episodeTitle : string;
    j_shortDesc : string;
    j_releaseYear : string;
    j_season : string;
    j_episode : string;
    j_seriesId : string;
    j_tmsId : string;
    j_isGeneric : bool }.

Record json_event : Type := mkJsonEvent
  { e_program : json_program;
    e_duration : Z;
    e_thumbnail : string;
    e_startTime : string;
    e_endTime : string;
    e_filter : list string;
    e_rating : string;
    e_tags : list string;
    e_flag : list string }.

Record json_channel : Type := mkJsonChannel
  { c_channelId : string;
    c_channelNo : string;
    c_callSign : string;
    c_thumbnail : string;
    c_events : list json_event }.

(** The overview (detail) payload of a program. *)
Record upcoming : Type := mkUpcoming
  { u_tmsID : string;
    u_originalAirDate : string }.

Record person : Type := mkPerson
  { p_name : string;
    p_characterName : string;
    p_role : string }.

Record overview : Type := mkOverview
  { seriesGenres : string;
    cast : list person;
    crew : list person;
    seriesImage : string;
    seriesDescription : string;
    upcomingEpisode : upcoming;
    upcomingEpisodeTab : list upcoming }.

(** The detail payload of the alternate provider. *)
Record tvg_details : Type := mkTvgDetails
  { d_release_year : option string;
    d_rating : option string;
    d_photos : option (list (Z * Z * string)) }.

(** ** Merging into the program store *)

(** [self.programs.setdefault(cp, {})[key] = value], and
    [self.programs[cp][key] = value] once the entry exists. *)
Definition upd_program (cp : string) (f : program -> program)
    (ps : gmap string program) : gmap string program :=
  <[cp := f (default empty_program (ps !! cp))]> ps.

(** [v = ....get(key, ''); if v: self.programs[cp][key] = v] *)
Definition grid_field (setter : string -> program -> program) (v : string)
    (cp : string) (ps : gmap string program) : gmap string program :=
  if Str.nonempty v then upd_program cp (setter v) ps else ps.

(** [parse_json], lines 1003-1005. *)
Definition grid_description : string -> string -> gmap string program ->
    gmap string program := grid_field set_description.

(** [parse_json], lines 1051-1053; [parse_tvg_grid], lines 860-862. *)
Definition grid_rating : string -> string -> gmap string program ->
    gmap string program := grid_field set_rating.

Definition genre_set (g : string) (i : Z) (p : program) : program :=
  set_genres (dset g i (default [] (genres p))) p.

(** [for i, g in enumerate(genres, 1): ...], entered with [i = 1]. *)
Fixpoint grid_genres (gs : list string) (i : Z) (cp : string)
    (ps : gmap string program) : gmap string program :=
  match gs with
  | [] => ps
  | g :: rest =>
      grid_genres rest (i + 1) cp
        (upd_program cp (genre_set (Str.lower (Str.remove_filter g)) i) ps)
  end.

Definition is_episode_show_movie (cp : string) : bool :=
  Str.startswith "EP" cp || Str.startswith "SH" cp || Str.startswith "MV" cp.

(** [set_original_air_date]: the start of an airing flagged new or live
    lowers the stored date, never raises it. *)
Definition set_original_air_date (cp : string) (sch : Z)
    (ps : gmap string program) : gmap string program :=
  if negb (is_episode_show_movie cp) || (Str.len cp <? 10)
     || String.eqb (Str.slice 10 14 cp) "0000"
  then ps
  else
    match ps !! cp ≫= originalAirDate with
    | None => upd_program cp (set_originalAirDate sch) ps
    | Some old =>
        if sch <? old then upd_program cp (set_originalAirDate sch) ps else ps
    end.

(** *** The overview payload ([post_json_overview], lines 1124-1194) *)

(** [max(gh.values()) if gh else 0] *)
Definition max_rank (gh : pydict string Z) : Z :=
  match dvalues gh with
  | [] => 0
  | v :: vs => foldr Z.max v vs
  end.

(** [s.split('|')] *)
Fixpoint split_bar (s : string) : list string :=
  match s with
  | EmptyString => [EmptyString]
  | String c s' =>
      if (Str.code c =? 124) then EmptyString :: split_bar s'
      else match split_bar s' with
           | h :: t => String c h :: t
           | [] => [String c EmptyString]
           end
  end.

Fixpoint add_series_genres (sgs : list string) (i : Z) (gh : pydict string Z)
    : pydict string Z :=
  match sgs with
  | [] => gh
  | sg :: rest =>
      let sg := Str.lower sg in
      if dmem sg gh then add_series_genres rest i gh
      else add_series_genres rest (i + 1) (dset sg i gh)
  end.

(** The genres of the series continue after the highest rank in use.
    [gh] is the dictionary of the program itself when the program has
    one; otherwise it is a fresh dictionary that is filled and dropped. *)
Definition overview_genres (cp : string) (t : overview)
    (ps : gmap string program) : gmap string program :=
  if Str.nonempty (seriesGenres t) then
    match ps !! cp with
    | Some p =>
        match genres p with
        | Some gh =>
            let max_val := max_rank gh in
            let i := if (max_val =? 0) then 2 else max_val + 1 in
            <[cp := set_genres
                      (add_series_genres (split_bar (seriesGenres t)) i gh) p]> ps
        | None => ps
        end
    | None => ps
    end
  else ps.

Definition credit_set (key nm : string) (i : Z) (p : program) : program :=
  set_credits (dset key (dset nm i (default [] (dget key (credits p))))
                 (credits p)) p.

Definition role_set (nm character : string) (p : program) : program :=
  set_role (dset nm character (default [] (role p))) p.

Fixpoint overview_cast (l : list person) (i : Z) (cp : string)
    (ps : gmap string program) : gmap string program :=
  match l with
  | [] => ps
  | c :: rest =>
      if negb (Str.nonempty (p_name c)) then overview_cast rest i cp ps
      else
        let ps :=
          if String.eqb (Str.lower (p_role c)) "host"
          then upd_program cp (credit_set "presenter" (p_name c) i) ps
          else
            let ps := upd_program cp (credit_set "actor" (p_name c) i) ps in
            if Str.nonempty (p_characterName c)
            then upd_program cp (role_set (p_name c) (p_characterName c)) ps
            else ps in
        overview_cast rest (i + 1) cp ps
  end.

Fixpoint overview_crew (l : list person) (i : Z) (cp : string)
    (ps : gmap string program) : gmap string program :=
  match l with
  | [] => ps
  | c :: rest =>
      if negb (Str.nonempty (p_name c)) then overview_crew rest i cp ps
      else
        let r := Str.lower (p_role c) in
        let ps :=
          if Str.contains "producer" r
          then upd_program cp (credit_set "producer" (p_name c) i) ps
          else if Str.contains "director" r
          then upd_program cp (credit_set "director" (p_name c) i) ps
          else if Str.contains "writer" r
          then upd_program cp (credit_set "writer" (p_name c) i) ps
          else ps in
        overview_crew rest (i + 1) cp ps
  end.

(** [self.programs[cp][key] = value] where the entry may be missing. *)
Definition store_field (cp : string) (f : program -> program)
    (ps : gmap string program) : result (gmap string program) :=
  p <~ subscript (ps !! cp) ;; Ok (<[cp := f p]> ps).

Definition overview_image (cp : string) (t : overview)
    (ps : gmap string program) : result (gmap string program) :=
  if bool_decide (ps !! cp ≫= imageUrl = None) && Str.nonempty (seriesImage t)
  then store_field cp (set_imageUrl (urlAssets +:+ seriesImage t +:+ ".jpg")) ps
  else Ok ps.

(** The description of the series replaces the stored one only for a
    movie or a show, and only when it is strictly longer. *)
Definition overview_description (cp : string) (t : overview)
    (ps : gmap string program) : result (gmap string program) :=
  if Str.startswith "MV" cp || Str.startswith "SH" cp then
    let series_desc := seriesDescription t in
    if Str.nonempty series_desc
       && (Str.len (default EmptyString (ps !! cp ≫= description))
           <? Str.len series_desc)
    then store_field cp (set_description series_desc) ps
    else Ok ps
  else Ok ps.

Definition sentinel_date : string := "1000-01-01T00:00Z".

Definition ue_matches (cp : string) (ue : upcoming) : bool :=
  String.eqb (Str.lower (u_tmsID ue)) (Str.lower cp)
  && negb (String.eqb (u_originalAirDate ue) EmptyString)
  && negb (String.eqb (u_originalAirDate ue) sentinel_date).

(** The sub-record that supplies the date: 'upcomingEpisode' when it
    matches, else the first match of 'upcomingEpisodeTab'. *)
Definition matching_upcoming (cp : string) (t : overview) : option upcoming :=
  if ue_matches cp (upcomingEpisode t) then Some (upcomingEpisode t)
  else List.find (ue_matches cp) (upcomingEpisodeTab t).

Definition overview_originalAirDate (cp : string) (t : overview)
    (ps : gmap string program) : result (gmap string program) :=
  if Str.startswith "EP" cp then
    match matching_upcoming cp t with
    | Some ue =>
        store_field cp
          (set_originalAirDate (str2time2 (u_originalAirDate ue) * 1000)) ps
    | None => Ok ps
    end
  else Ok ps.

(** Statements inside one [try]: the first exception ends the block and
    what was stored before it stays. *)
Fixpoint try_steps {S} (steps : list (S -> result S)) (s : S) : S :=
  match steps with
  | [] => s
  | f :: rest =>
      match f s with
      | Ok s' => try_steps rest s'
      | Exn _ => s
      end
  end.

(** The body of the [try] of [post_json_overview], after decoding. *)
Definition parse_overview (cp : string) (t : overview)
    (ps : gmap string program) : gmap string program :=
  let ps := overview_genres cp t ps in
  let ps := overview_cast (cast t) 1 cp ps in
  let ps := overview_crew (crew t) 1 cp ps in
  try_steps [overview_image cp t; overview_description cp t;
             overview_originalAirDate cp t] ps.

(** *** The detail payload of the alternate provider ([parse_tvg_details]) *)

Definition details_year (cp : string) (d : tvg_details)
    (ps : gmap string program) : result (gmap string program) :=
  match d_release_year d with
  | Some y => store_field cp (set_movie_year y) ps
  | None => Ok ps
  end.

(** Lines 925-927: a rating is taken only while the program has none,
    and the value 'NR' is never taken. *)
Definition details_rating (cp : string) (d : tvg_details)
    (ps : gmap string program) : result (gmap string program) :=
  match d_rating d with
  | Some r =>
      p <~ subscript (ps !! cp) ;;
      match rating p with
      | None =>
          if negb (String.eqb r "NR") then Ok (<[cp := set_rating r p]> ps)
          else Ok ps
      | Some _ => Ok ps
      end
  | None => Ok ps
  end.

(** [phash[w] = u] for every photo with a non-zero area and a url, then
    the url of the largest area. *)
Definition biggest_photo (photos : list (Z * Z * string)) : option string :=
  let phash := foldl (fun (h : pydict Z string) ph =>
                        let '(w, hgt, u) := ph in
                        if negb (w * hgt =? 0) && Str.nonempty u
                        then dset (w * hgt) u h else h) [] photos in
  match dkeys phash with
  | [] => None
  | k :: ks => dget (foldr Z.max k ks) phash
  end.

Definition details_photos (cp : string) (d : tvg_details)
    (ps : gmap string program) : result (gmap string program) :=
  match d_photos d ≫= biggest_photo with
  | Some u => store_field cp (set_imageUrl u) ps
  | None => Ok ps
  end.

Definition parse_tvg_details (cp : string) (d : tvg_details)
    (ps : gmap string program) : gmap string program :=
  try_steps [details_year cp d; details_rating cp d; details_photos cp d] ps.

(** ** The schedule store *)

(** [self.schedule.setdefault(cs, {})[k] = a] *)
Definition sched_set (cs : string) (k : Z) (a : airing)
    (sch : pydict string (pydict Z airing)) : pydict string (pydict Z airing) :=
  dset cs (dset k a (default [] (dget cs sch))) sch.

(** [self.schedule[cs][k][flag] = ...] on the entry stored just before. *)
Definition sched_upd (cs : string) (k : Z) (f : airing -> airing)
    (sch : pydict string (pydict Z airing)) : pydict string (pydict Z airing) :=
  match dget cs sch ≫= dget k with
  | Some a => sched_set cs k (f a) sch
  | None => sch
  end.

Definition on_programs (f : gmap string program -> gmap string program)
    (z : zap) : zap := set_programs (f (programs z)) z.

Definition on_schedule
    (f : pydict string (pydict Z airing) -> pydict string (pydict Z airing))
    (z : zap) : zap := set_schedule (f (schedule z)) z.

(** Statements run one after the other. *)
Definition run_steps {S} (steps : list (S -> S)) (s : S) : S :=
  foldl (fun s f => f s) s steps.

(** A reply of the provider to one request, or the failure of the
    request itself. *)
Inductive response : Type :=
  | Reply (status : Z) (content : string)
  | NetError.

(** [re.search(self.sTBA, title, re.I)] with
    [sTBA = r"\bTBA\b|To Be Announced"]. *)
Definition search_sTBA (title : string) : bool :=
  Str.search_tba_go false (Str.lower title).

(** ** The pipeline *)

Section Pipeline.

(** [json.loads] on the text of a grid file and of a detail file;
    [None] when decoding raises. *)
Variable json_grid : string -> option (list json_channel).
Variable json_overview : string -> option overview.
(** The reply to the n-th grid request sent, for a bucket start. *)
Variable net : nat -> Z -> response.

(** *** [post_json_overview] *)

(** The overview file of a program is taken from the cache directory,
    or copied from the file that [sidCache] names for the series.  The
    request that would fetch a missing file goes through [self.ua],
    which is [None] from [__init__] on: the call raises inside its
    [try], nothing is written, and [sidCache] is never filled.  The
    parameters of that request (line 1095) are built without a login
    here; [Session.post_json_overview] has the method with it. *)
Definition post_json_overview (cp sid : string) (z : zap) : zap :=
  let z :=
    match detail_files z !! cp, sidCache z !! sid with
    | None, Some other =>
        match detail_files z !! other with
        | Some content => set_detail_files (<[cp := content]> (detail_files z)) z
        | None => z
        end
    | _, _ => z
    end in
  match detail_files z !! cp with
  | Some content =>
      match json_overview content with
      | Some t => on_programs (parse_overview cp t) z
      | None => z
      end
  | None => z
  end.

(** *** [parse_json] *)

Definition new_airing (cs cp : string) (e : json_event) : airing :=
  mkAiring (str2time1 (e_startTime e) * 1000) None
    (Some (str2time1 (e_endTime e) * 1000)) cp cs false false false false false.

(** The statements of one pass of the loop over the events of a
    channel, in the order of the source, for an event with a program
    id: first those that store what the grid says (lines 995 to 1078). *)
Definition grid_steps (cs : string) (e : json_event) : list (zap -> zap) :=
  let program := e_program e in
  let cp := j_id program in
  let start_time := str2time1 (e_startTime e) * 1000 in
  [ on_programs (upd_program cp (set_title (j_title program)));
    (fun z => if search_sTBA (j_title program) then set_tba true z else z);
    on_programs (grid_field set_episode (j_episodeTitle program) cp);
    on_programs (grid_description (j_shortDesc program) cp);
    (fun z => if 0 <? e_duration e
              then on_programs (upd_program cp (set_duration (e_duration e))) z
              else z);
    on_programs (grid_field set_movie_year (j_releaseYear program) cp);
    on_programs (grid_field set_seasonNum (j_season program) cp);
    on_programs (grid_field set_episodeNum (j_episode program) cp);
    (fun z => if Str.nonempty (e_thumbnail e)
              then on_programs (upd_program cp
                     (set_imageUrl (urlAssets +:+ e_thumbnail e +:+ ".jpg"))) z
              else z);
    (fun z => if Str.nonempty (j_seriesId program)
                 && Str.nonempty (j_tmsId program)
              then on_programs (upd_program cp
                     (set_url (urlRoot
                               +:+ "overview-affiliates.html?programSeriesId="
                               +:+ j_seriesId program +:+ "&tmsId="
                               +:+ j_tmsId program))) z
              else z);
    on_schedule (sched_set cs start_time (new_airing cs cp e));
    on_programs (grid_genres (e_filter e) 1 cp);
    on_programs (grid_rating (e_rating e) cp);
    (fun z => if bool_decide ("CC" ∈ e_tags e)
              then on_schedule (sched_upd cs start_time set_cc) z else z);
    (fun z => if bool_decide ("New" ∈ e_flag e)
              then on_programs (set_original_air_date cp start_time)
                     (on_schedule (sched_upd cs start_time set_new) z)
              else z);
    (fun z => if bool_decide ("Live" ∈ e_flag e)
              then on_programs (set_original_air_date cp start_time)
                     (on_schedule (sched_upd cs start_time set_live) z)
              else z);
    (fun z => if bool_decide ("Premiere" ∈ e_flag e)
              then on_schedule (sched_upd cs start_time set_premiere) z else z);
    (fun z => if bool_decide ("Finale" ∈ e_flag e)
              then on_schedule (sched_upd cs start_time set_finale) z else z);
    (fun z => if seriesCategory (opts z) && negb (Str.startswith "MV" cp)
              then on_programs (upd_program cp (genre_set "series" 99)) z
              else z) ].

(** Then the details of the program, when they are asked for (lines
    1080 and 1081). *)
Definition event_steps (cs : string) (e : json_event) : list (zap -> zap) :=
  grid_steps cs e
  ++ [ (fun z => if includeDetails (opts z) && negb (j_isGeneric (e_program e))
                 then post_json_overview (j_id (e_program e))
                        (j_seriesId (e_program e)) z
                 else z) ].

(** One pass of the loop over the events of a channel: an event
    without a program id is skipped. *)
Definition parse_event (cs : string) (e : json_event) (z : zap) : zap :=
  if negb (Str.nonempty (j_id (e_program e))) then z
  else run_steps (event_steps cs e) z.

Definition clean_thumbnail (thumbnail : string) : string :=
  let t := Str.strip_query thumbnail in
  if Str.startswith "http" t then t else "https:" +:+ t.

Definition new_station (s : json_channel) (z : zap) : station :=
  let num := Str.lstrip0 (c_channelNo s) in
  mkStation (c_channelId s) (c_callSign s) num
    (if retainOrder (opts z) then OrdNum (coNum z) else OrdStr num)
    (if Str.nonempty (c_thumbnail s)
     then Some (clean_thumbnail (c_thumbnail s)) else None).

(** The favorites test at the head of the loop over the channels:
    [None] when the channel is skipped, else [zapStarred] as the pass
    leaves it.  [zapStarred] is the local dictionary of the channels
    already taken under [opt8]. *)
Definition channel_filter (o : options) (favorites zapStarred : gset string)
    (channelId : string) : option (gset string) :=
  if negb (Str.nonempty channelId) then None else
  let filtering := negb (allChan o) && negb (bool_decide (favorites = ∅)) in
  if filtering && negb (bool_decide (channelId ∈ favorites)) then None
  else if filtering && opt8 o && bool_decide (channelId ∈ zapStarred) then None
  else Some (if filtering && opt8 o then {[channelId]} ∪ zapStarred
             else zapStarred).

(** One pass of the loop over the channels.  The icon download of
    [handle_logo] (option [iconDir]) is not part of the model. *)
Definition parse_channel (s : json_channel) (acc : zap * gset string)
    : zap * gset string :=
  let '(z, zapStarred) := acc in
  match channel_filter (opts z) (zapFavorites z) zapStarred (c_channelId s) with
  | None => acc
  | Some zapStarred' =>
      let cs := c_channelNo s +:+ "." +:+ c_channelId s in
      let z :=
        if dmem cs (stations z) then z
        else set_coNum (coNum z + 1)
               (set_stations (dset cs (new_station s z) (stations z)) z) in
      (foldl (fun z e => parse_event cs e z) z (c_events s), zapStarred')
  end.

Definition parse_channels (channels : list json_channel) (z : zap) : zap :=
  (foldl (fun acc s => parse_channel s acc) (z, ∅) channels).1.

(** [parse_json] on the cache file of a bucket: a file that is missing
    or does not decode raises inside the [try] before anything is
    stored. *)
Definition parse_json (ms : Z) (z : zap) : zap :=
  match grid_files z !! ms ≫= json_grid with
  | Some channels => parse_channels channels z
  | None => z
  end.

(** *** [get_url] and [process_data] *)

(** [get_url(url, True)]: every call site passes [er = True], so the
    exhausted loop returns the empty string.  [n] is the number of
    passes of [while rc < self.retries] still to run. *)
Fixpoint get_url_loop (n : nat) (ms : Z) (z : zap) : string * zap :=
  match n with
  | O => (EmptyString, z)
  | S n' =>
      let r := net (requests z) ms in
      let z := set_requests (S (requests z)) z in
      match r with
      | Reply status content =>
          if (status =? 200) && Str.nonempty content then (content, z)
          else if (status =? 500)
                  && Str.contains "Could not load details" content
          then (EmptyString, z)
          else get_url_loop n' ms z
      | NetError => get_url_loop n' ms z
      end
  end.

Definition get_url (ms : Z) (z : zap) : string * zap :=
  get_url_loop (Z.to_nat (retries (opts z))) ms z.

Definition process_options (o : options) : options :=
  mkOptions (days o) (days o - ncdays o) (ncsdays o) (ncmday o)
    (if 20 <? retries o then 20 else retries o)
    (allChan o) (retainOrder o) (opt8 o) (opt9 o) (oldStyleIds o)
    (useTVGuide o) (noTbaCache o) (seriesCategory o) (includeDetails o)
    (outputXTVD o).

Definition cached (ms : Z) (z : zap) : bool :=
  bool_decide (is_Some (grid_files z !! ms)).

(** The condition of line 485, on the options as [process_options]
    left them. *)
Definition need_fetch (o : options) (file_exists : bool) (curday : Z) : bool :=
  negb file_exists || (ncdays o <? curday) || (curday <=? ncsdays o)
  || (curday =? ncmday o).

Definition curday_of (count : Z) : Z := count / (24 / gridHours) + 1.

Definition unlink_file (ms : Z) (z : zap) : zap :=
  set_grid_files (delete ms (grid_files z)) z.

(** What follows the fetch in one pass of the bucket loop: parse,
    evict, reset the two flags. *)
Definition parse_and_evict (ms : Z) (z : zap) : zap :=
  let z := parse_json ms z in
  let z := if noTbaCache (opts z) && tba z then unlink_file ms z else z in
  let z := if exp z then unlink_file ms z else z in
  set_tba false (set_exp false z).

(** The bounds of the run, noted on the first and on the last pass. *)
Definition mark_bounds (max_count count ms : Z) (z : zap) : zap :=
  if count =? 0 then set_XTVD_startTime ms z
  else if count =? max_count - 1
  then set_XTVD_endTime (ms + gridHours * 3600000 - 1) z
  else z.

(** One pass of [for count in range(max_count)]; [false] stands for
    [break]. *)
Definition process_bucket (max_count count ms : Z) (z : zap) : bool * zap :=
  let curday := curday_of count in
  let z := mark_bounds max_count count ms z in
  if need_fetch (opts z) (cached ms z) curday then
    let '(rs, z) := get_url ms z in
    if Str.nonempty rs
    then (true, parse_and_evict ms
                  (set_grid_files (<[ms := rs]> (grid_files z)) z))
    else (false, z)
  else (true, parse_and_evict ms z).

Fixpoint process_loop (max_count : Z) (counts : list Z) (ms : Z) (z : zap)
    : zap :=
  match counts with
  | [] => z
  | count :: rest =>
      let '(go, z') := process_bucket max_count count ms z in
      if go then process_loop max_count rest (ms + gridHours * 3600 * 1000) z'
      else z'
  end.

Definition max_count_of (o : options) : Z := days o * (24 / gridHours).

Definition bucket_counts (o : options) : list Z :=
  Z.of_nat <$> seq 0 (Z.to_nat (max_count_of o)).

(** The bucket loop of [process_data] for the default provider, entered
    with the session and the favorites in place; [ms] is the aligned
    start of the first bucket.  [Session.process_data] has the method
    with the login ahead of the loop and inside it. *)
Definition process_data (ms : Z) (z : zap) : zap :=
  process_loop (max_count_of (opts z)) (bucket_counts (opts z)) ms z.

End Pipeline.

(** ** The session: [login] and the token *)

(** The methods above are those of an object on which [get_z_token]
    returns at once: a token is held, or no password is given, so that
    [login] sends nothing.  This module has the same methods with the
    calls of [get_zap_g_params] (line 489) and [get_zap_p_params] (line
    1095), which ask for the token and log in when there is none.  The
    two agree on an object of the first kind. *)
Module Session.

(** The object with what the login reads and writes.  [zapToken] is the
    empty string while the attribute is [None]; [posts] counts the
    requests that [login_zap] has sent. *)
Record client : Type := mkClient
  { state : zap;
    userEmail : string;
    password : string;
    zapToken : string;
    posts : nat }.

Definition set_state v c :=
  mkClient v (userEmail c) (password c) (zapToken c) (posts c).
Definition set_zapToken v c :=
  mkClient (state c) (userEmail c) (password c) v (posts c).
Definition set_posts v c :=
  mkClient (state c) (userEmail c) (password c) (zapToken c) v.

Definition set_zapFavorites (v : gset string) (z : zap) : zap :=
  mkZap (opts z) v (stations z) (programs z) (schedule z) (coNum z) (tba z)
    (exp z) (sidCache z) (grid_files z) (detail_files z) (requests z)
    (XTVD_startTime z) (XTVD_endTime z).

(** The answer to [session.post(.../api/user/login)]: a
    [RequestException] (no connection, an error status, a body that is
    not JSON), or the 'token' of the decoded body, a JSON object, empty
    when missing.  The other keys of the body only feed the text of the
    request parameters. *)
Inductive login_reply : Type :=
  | LoginError
  | LoginJson (token : string).

(** The answer to [session.post(.../api/user/favorites)]: a
    [RequestException], or the 'channels' of the body, none when the
    body does not decode or has no such key. *)
Inductive favorites_reply : Type :=
  | FavoritesError
  | FavoritesJson (channels : list string).

(** How a method ends: with the object as it leaves it and, when it
    raises, the exception. *)
Definition attempt : Type := client * option exn.

Definition ret (c : client) : attempt := (c, None).
Definition raise (e : exn) (c : client) : attempt := (c, Some e).

Definition and_then (a : attempt) (k : client -> attempt) : attempt :=
  match a.2 with
  | None => k a.1
  | Some _ => a
  end.

(** How a pass of the bucket loop ends: the next pass, [break], or an
    exception that leaves [process_data]. *)
Inductive flow : Type :=
  | GoOn
  | Break
  | Abort (e : exn).

Section Methods.

Variable json_grid : string -> option (list json_channel).
Variable json_overview : string -> option overview.
Variable net : nat -> Z -> response.
(** The replies to the n-th request that [login_zap] sends. *)
Variable login_net : nat -> login_reply.
Variable favorites_net : nat -> favorites_reply.

(** [login_zap], lines 593 to 648; [n] is the number of passes of
    [while rc < self.retries] still to run.  A [RequestException] leads
    to the next pass; the token stays assigned when the request for the
    favorites fails.  Option [R] (removal of the favorites) is taken as
    unset. *)
Fixpoint login_zap_loop (n : nat) (c : client) : attempt :=
  match n with
  | O => raise Exception c
  | S n' =>
      let r := login_net (posts c) in
      let c := set_posts (S (posts c)) c in
      match r with
      | LoginError => login_zap_loop n' c
      | LoginJson token =>
          let c := set_zapToken token c in
          if allChan (opts (state c)) then ret c
          else
            let f := favorites_net (posts c) in
            let c := set_posts (S (posts c)) c in
            match f with
            | FavoritesError => login_zap_loop n' c
            | FavoritesJson channels =>
                ret (set_state
                       (set_zapFavorites
                          (zapFavorites (state c) ∪ list_to_set channels)
                          (state c)) c)
            end
      end
  end.

Definition login_zap (c : client) : attempt :=
  login_zap_loop (Z.to_nat (retries (opts (state c)))) c.

(** [login], lines 510 to 537, for the default provider.  The session
    object is created without a request; the test of line 526 never
    raises, since [__init__] sets [zlineupId]; without a user name or
    without a password nothing more is done. *)
Definition login (c : client) : attempt :=
  if Str.nonempty (userEmail c) && Str.nonempty (password c)
  then login_zap c
  else ret c.

(** [get_z_token]: [if not self.zapToken: self.login()] *)
Definition get_z_token (c : client) : attempt :=
  if Str.nonempty (zapToken c) then ret c else login c.

(** [get_zap_params], and with it [get_zap_g_params] and
    [get_zap_p_params]: [zlineupId] and [zipcode] are [None] (no option
    sets them), so the token is asked for; the text of the parameters
    is not modelled. *)
Definition get_zap_params (c : client) : attempt := get_z_token c.

(** [post_json_overview] with the call of line 1095.  When the overview
    file is missing after the copy from [sidCache], the parameters of
    the request are built, outside any [try]; the request itself goes
    through [self.ua], which is [None]: it raises inside its [try] and
    nothing is written. *)
Definition post_json_overview (cp sid : string) (c : client) : attempt :=
  let z := state c in
  let z :=
    match detail_files z !! cp, sidCache z !! sid with
    | None, Some other =>
        match detail_files z !! other with
        | Some content => set_detail_files (<[cp := content]> (detail_files z)) z
        | None => z
        end
    | _, _ => z
    end in
  match detail_files z !! cp with
  | None => get_zap_params (set_state z c)
  | Some content =>
      match json_overview content with
      | Some t => ret (set_state (on_programs (parse_overview cp t) z) c)
      | None => ret (set_state z c)
      end
  end.

(** One pass of the loop over the events of a channel. *)
Definition parse_event (cs : string) (e : json_event) (c : client) : attempt :=
  if negb (Str.nonempty (j_id (e_program e))) then ret c
  else
    let c := set_state (run_steps (grid_steps cs e) (state c)) c in
    if includeDetails (opts (state c)) && negb (j_isGeneric (e_program e))
    then post_json_overview (j_id (e_program e)) (j_seriesId (e_program e)) c
    else ret c.

(** The loop over the events: an exception ends it. *)
Fixpoint parse_events (cs : string) (es : list json_event) (c : client)
    : attempt :=
  match es with
  | [] => ret c
  | e :: rest => and_then (parse_event cs e c) (parse_events cs rest)
  end.

(** One pass of the loop over the channels, with [zapStarred]. *)
Definition parse_channel (s : json_channel) (zapStarred : gset string)
    (c : client) : attempt * gset string :=
  let z := state c in
  match channel_filter (opts z) (zapFavorites z) zapStarred (c_channelId s) with
  | None => (ret c, zapStarred)
  | Some zapStarred' =>
      let cs := c_channelNo s +:+ "." +:+ c_channelId s in
      let z :=
        if dmem cs (stations z) then z
        else set_coNum (coNum z + 1)
               (set_stations (dset cs (new_station s z) (stations z)) z) in
      (parse_events cs (c_events s) (set_state z c), zapStarred')
  end.

Fixpoint parse_channels (channels : list json_channel)
    (zapStarred : gset string) (c : client) : attempt :=
  match channels with
  | [] => ret c
  | s :: rest =>
      let '(a, zapStarred') := parse_channel s zapStarred c in
      and_then a (parse_channels rest zapStarred')
  end.

(** [parse_json]: an exception of the login ends the parse of the
    bucket at [except Exception] (line 1082). *)
Definition parse_json (ms : Z) (c : client) : client :=
  match grid_files (state c) !! ms ≫= json_grid with
  | Some channels => (parse_channels channels ∅ c).1
  | None => c
  end.

Definition on_state (f : zap -> zap) (c : client) : client :=
  set_state (f (state c)) c.

Definition parse_and_evict (ms : Z) (c : client) : client :=
  let c := parse_json ms c in
  let c := if noTbaCache (opts (state c)) && tba (state c)
           then on_state (unlink_file ms) c else c in
  let c := if exp (state c) then on_state (unlink_file ms) c else c in
  on_state (fun z => set_tba false (set_exp false z)) c.

(** One pass of [for count in range(max_count)].  In the branch that
    fetches, the parameters come first (line 489): an exception of the
    login leaves [process_data].  [get_url] finds the session object in
    place, so that its own call of [login] (line 1241) is not reached. *)
Definition process_bucket (max_count count ms : Z) (c : client)
    : flow * client :=
  let curday := curday_of count in
  let c := on_state (mark_bounds max_count count ms) c in
  if need_fetch (opts (state c)) (cached ms (state c)) curday then
    match get_zap_params c with
    | (c, Some e) => (Abort e, c)
    | (c, None) =>
        let '(rs, z) := get_url net ms (state c) in
        if Str.nonempty rs
        then (GoOn, parse_and_evict ms
                      (set_state
                         (set_grid_files (<[ms := rs]> (grid_files z)) z) c))
        else (Break, set_state z c)
    end
  else (GoOn, parse_and_evict ms c).

Fixpoint process_loop (max_count : Z) (counts : list Z) (ms : Z) (c : client)
    : option exn * client :=
  match counts with
  | [] => (None, c)
  | count :: rest =>
      match process_bucket max_count count ms c with
      | (GoOn, c') =>
          process_loop max_count rest (ms + gridHours * 3600 * 1000) c'
      | (Break, c') => (None, c')
      | (Abort e, c') => (Some e, c')
      end
  end.

(** The bucket loop of [process_data]: the exception that left it, if
    any, and the object. *)
Definition bucket_loop (ms : Z) (c : client) : option exn * client :=
  process_loop (max_count_of (opts (state c))) (bucket_counts (opts (state c)))
    ms c.

(** [process_data] for the default provider: without option [a] the
    favorites are asked for ahead of the loop (line 473). *)
Definition process_data (ms : Z) (c : client) : option exn * client :=
  if allChan (opts (state c)) then bucket_loop ms c
  else
    match login c with
    | (c, Some e) => (Some e, c)
    | (c, None) => bucket_loop ms c
    end.

End Methods.

(** [get_z_token] has nothing to do: a token is held, or the user name
    or the password is missing. *)
Definition idle (c : client) : Prop :=
  Str.nonempty (zapToken c) = true
  \/ Str.nonempty (userEmail c) && Str.nonempty (password c) = false.

(** No pass over a cached bucket reaches [get_z_token]: the details are
    not asked for, or [get_z_token] has nothing to do. *)
Definition calm (c : client) : Prop :=
  includeDetails (opts (state c)) = false \/ idle c.

(** What the parse of a payload leaves alone whatever the login does:
    the options and the count of the grid requests. *)
Definition keeps (c c' : client) : Prop :=
  opts (state c') = opts (state c)
  /\ requests (state c') = requests (state c).

End Session.

(** ** Rendering *)

(** [sorted] with a comparison that may raise. *)
Section sorted_r.
Context {A : Type} (le : A -> A -> result bool).

Fixpoint insert_sorted_r (x : A) (l : list A) : result (list A) :=
  match l with
  | [] => Ok [x]
  | y :: l' =>
      b <~ le x y ;;
      if b then Ok (x :: y :: l')
      else l'' <~ insert_sorted_r x l' ;; Ok (y :: l'')
  end.

Definition sorted_r (l : list A) : result (list A) :=
  foldr (fun x acc => l' <~ acc ;; insert_sorted_r x l') (Ok []) l.
End sorted_r.

(** [(a > b) - (a < b)] *)
Definition cmp3 (lt gt : bool) : Z :=
  (if gt then 1 else 0) - (if lt then 1 else 0).

Definition cmp_order (a b : order_val) : result Z :=
  match a, b with
  | OrdNum x, OrdNum y => Ok (cmp3 (x <? y) (y <? x))
  | OrdStr x, OrdStr y => Ok (cmp3 (Str.ltb x y) (Str.ltb y x))
  | _, _ => Exn TypeError
  end.

(** [sort_chan]; every station carries an 'order', so the comparison by
    name of the [else] branch is never reached. *)
Definition sort_chan (z : zap) (a b : string) : result Z :=
  sa <~ subscript (dget a (stations z)) ;;
  sb <~ subscript (dget b (stations z)) ;;
  c <~ cmp_order (order sa) (order sb) ;;
  if c =? 0
  then Ok (cmp3 (Str.ltb (stnNum sa) (stnNum sb)) (Str.ltb (stnNum sb) (stnNum sa)))
  else Ok c.

(** [sorted(keys, key=cmp_to_key(self.sort_chan))]: [a] stays before [b]
    unless [b] compares below [a]. *)
Definition sorted_stations (z : zap) (keys : list string) : result (list string) :=
  sorted_r (fun a b => c <~ sort_chan z b a ;; Ok (negb (c <? 0))) keys.

Definition station_to_channel (z : zap) (s : string) : result string :=
  st <~ subscript (dget s (stations z)) ;;
  Ok (if useTVGuide (opts z)
      then "I" +:+ number st +:+ "." +:+ stnNum st +:+ ".tvguide.com"
      else if oldStyleIds (opts z)
      then "C" +:+ number st +:+ Str.lower (name st) +:+ ".gracenote.com"
      else if opt9 (opts z)
      then "I" +:+ stnNum st +:+ ".labs.gracenote.com"
      else "I" +:+ number st +:+ "." +:+ stnNum st +:+ ".gracenote.com").

(** [sorted(genres.keys(), key=lambda x: (genres[x], x))] *)
Definition genre_le (a b : string * Z) : bool :=
  (a.2 <? b.2) || ((a.2 =? b.2) && Str.leb a.1 b.1).

Definition sorted_genres (gh : pydict string Z) : list string :=
  (sorted genre_le gh).*1.

(** *** Numbers as text *)

(** The characters of a string. *)
Definition chars (s : string) : list ascii := list_ascii_of_string s.

(** [str(n)] on an integer. *)
Definition decimal (n : Z) : string := NilZero.string_of_int (Z.to_int n).

(** [int(s)] on a string of decimal digits with an optional sign. *)
Definition int_of (s : string) : option Z :=
  Z.of_int <$> NilZero.int_of_string s.

(** [.]: any character but a line feed. *)
Definition dot (c : ascii) : bool := negb (Str.code c =? 10).

(** *** The episode numbers of a programme *)

(** White space for [int]: the ASCII white space and the two other
    spaces below 256 (the separators 28 to 31 are not skipped). *)
Definition int_space (c : ascii) : bool :=
  let n := Str.code c in
  ((9 <=? n) && (n <=? 13)) || (n =? 32) || (n =? 133) || (n =? 160).

Fixpoint drop_while (cls : ascii -> bool) (s : string) : string :=
  match s with
  | EmptyString => EmptyString
  | String c s' => if cls c then drop_while cls s' else s
  end.

Fixpoint rdrop_while (cls : ascii -> bool) (s : string) : string :=
  match s with
  | EmptyString => EmptyString
  | String c s' =>
      match rdrop_while cls s' with
      | EmptyString => if cls c then EmptyString else String c EmptyString
      | r => String c r
      end
  end.

Definition trim_int (s : string) : string :=
  rdrop_while int_space (drop_while int_space s).

(** The digits of a decimal literal: groups of digits with single
    underscores between them. *)
Fixpoint literal_digits (s : string) : option string :=
  match s with
  | EmptyString => None
  | String c r =>
      if Str.is_digit c
      then match r with
           | EmptyString => Some (String c EmptyString)
           | String u r' =>
               if Ascii.eqb u "_" then String c <$> literal_digits r'
               else String c <$> literal_digits r
           end
      else None
  end.

(** More than 4300 digits are refused. *)
Definition digits_value (s : string) : option Z :=
  d ← literal_digits s;
  if 4300 <? Str.len d then None else int_of d.

(** [int(s)] on a string *)
Definition py_int (s : string) : option Z :=
  match trim_int s with
  | EmptyString => None
  | String c r =>
      if Ascii.eqb c "-" then Z.opp <$> digits_value r
      else if Ascii.eqb c "+" then digits_value r
      else digits_value (String c r)
  end.

Definition zeros (n : nat) : string := Nat.iter n (String "0"%char) EmptyString.

(** [s.zfill(w)] for a string of digits *)
Definition zfill (w : Z) (s : string) : string :=
  zeros (Z.to_nat (w - Str.len s)) +:+ s.

(** ["{:0{}d}".format(n, w)]: the sign comes before the zeros. *)
Definition format_0d (n w : Z) : string :=
  if n <? 0 then String "-"%char (zfill (w - 1) (decimal (- n)))
  else zfill w (decimal n).

(** [re.match(r'^..\d{8}\d{4}', p)] *)
Definition dd_progid_match (p : string) : bool :=
  match p with
  | String a (String b r) =>
      dot a && dot b && (12 <=? Str.len r)
      && forallb Str.is_digit (chars (Str.slice 0 12 r))
  | _ => false
  end.

(** Lines 1541 to 1561 of [print_programmes]: the [episode-num]
    elements of programme [p], each as its system and its text;
    [ValueError] when [int] refuses the season or the episode. *)
Definition episode_nums (p : string) (prog : program)
    : result (list (string * string)) :=
  let dd := if dd_progid_match p
            then [("dd_progid",
                   Str.slice 0 10 p +:+ "." +:+ Str.slice 10 14 p)]
            else [] in
  match seasonNum prog, episodeNum prog with
  | Some s_num, Some e_num =>
      match py_int s_num, py_int e_num with
      | Some sn, Some en =>
          let sf := "S" +:+ format_0d sn (Z.max 2 (Str.len s_num)) in
          let ef := "E" +:+ format_0d en (Z.max 2 (Str.len e_num)) in
          let xs := sn - 1 in
          let xe := en - 1 in
          Ok ((if (0 <? sn) || (0 <? en) then [("common", sf +:+ ef)] else [])
              ++ dd
              ++ (if (0 <=? xs) && (0 <=? xe)
                  then [("xmltv_ns", decimal xs +:+ "." +:+ decimal xe +:+ ".")]
                  else []))
      | _, _ => Exn ValueError
      end
  | _, _ => Ok dd
  end.

(** A [programme] element: its attributes, its title and its categories
    in the order written.  The other children are text of the program
    entry and are left out. *)
Record programme : Type := mkProgramme
  { pr_start : Z;
    pr_stop : Z;
    pr_channel : string;
    pr_program : string;
    pr_title : option string;
    pr_categories : list string }.

(** [sorted(original_keys, key=lambda k: self.schedule[station][k]['time'])] *)
Definition key_array_xmltv (d : pydict Z airing) : list Z :=
  (sorted (fun x y : Z * airing => time x.2 <=? time y.2) d).*1.

(** The [while] loop of [print_programmes] over the keys from index [i]
    on; [i] grows on every path, so the loop is a recursion on the keys
    left.  [rest = []] is [i == len(key_array) - 1], and the head of
    [rest] is [key_array[i+1]].  A pass raises where the source does:
    at a missing station or program ([KeyError]) and at a season or an
    episode that [int] refuses ([ValueError], lines 1544 to 1553).  The
    times are kept as numbers: the text that [conv_time] and
    [get_timezone_offset_str] make of them is not part of the record,
    and the times of the airings, which are results of [str2time1], are
    taken to be in the range that [datetime] formats. *)
Fixpoint programmes_loop (z : zap) (keys : list Z) (d : pydict Z airing)
    (out : list programme) : result (pydict Z airing * list programme) :=
  match keys with
  | [] => Ok (d, out)
  | s :: rest =>
      a <~ subscript (dget s d) ;;
      match rest, endtime a with
      | [], None => programmes_loop z rest (ddel s d) out
      | _, _ =>
          end_time <~ match endtime a with
                      | Some e => Ok e
                      | None =>
                          nxt <~ match rest with
                                 | k :: _ => Ok k
                                 | [] => Exn IndexError
                                 end ;;
                          b <~ subscript (dget nxt d) ;; Ok (time b)
                      end ;;
          channel <~ station_to_channel z (a_station a) ;;
          p <~ subscript (programs z !! a_program a) ;;
          _ <~ episode_nums (a_program a) p ;;
          programmes_loop z rest d
            (out ++ [mkProgramme (time a) end_time channel (a_program a)
                       (title p) (default [] (sorted_genres <$> genres p))])
      end
  end.

Definition print_programmes_station (z : zap) (d : pydict Z airing)
    : result (pydict Z airing * list programme) :=
  programmes_loop z (key_array_xmltv d) d [].

Fixpoint print_programmes_stations (z : zap) (order : list string)
    (sch : pydict string (pydict Z airing)) (out : list programme)
    : result (pydict string (pydict Z airing) * list programme) :=
  match order with
  | [] => Ok (sch, out)
  | station :: rest =>
      d <~ subscript (dget station sch) ;;
      r <~ print_programmes_station z d ;;
      print_programmes_stations z rest (dset station r.1 sch) (out ++ r.2)
  end.

Definition print_programmes (z : zap)
    : result (pydict string (pydict Z airing) * list programme) :=
  order <~ sorted_stations z (dkeys (schedule z)) ;;
  print_programmes_stations z order (schedule z) [].

(** [print_channels]: the channel ids in the order written. *)
Definition print_channels (z : zap) : result (list string) :=
  order <~ sorted_stations z (dkeys (stations z)) ;;
  foldr (fun key acc => l <~ acc ;; c <~ station_to_channel z key ;; Ok (c :: l))
        (Ok []) order.

(** *** The alternate document *)

(** A [schedule] element: program, station number, start, duration and
    the 'new' attribute. *)
Record xtvd_schedule : Type := mkXtvdSchedule
  { xs_program : string;
    xs_station : string;
    xs_time : Z;
    xs_duration : Z;
    xs_new : bool }.

Definition lift {A} (r : result A) : outcome A :=
  match r with
  | Ok a => Done a
  | Exn e => Raised e
  end.

Definition obind {A B} (o : outcome A) (k : A -> outcome B) : outcome B :=
  match o with
  | Done a => k a
  | Raised e => Raised e
  | OutOfFuel => OutOfFuel
  end.

Notation "x <~~ c1 ;; c2" := (obind c1 (fun x => c2))
  (at level 100, c1 at next level, right associativity).

(** The [while] loop of [print_schedules_xtvd] for one station, one unit
    of fuel per pass.  On the last index the entry is deleted and the
    loop continues with the same [i].  On every other index the entry,
    its program and the time of the next entry are looked up (lines
    1665 to 1667), and then [self.conv_duration_xtvd] is called (line
    1668): the class has no such method, so the pass raises
    [AttributeError] before its record is written.  [out] holds the
    records written; no pass adds to it. *)
Fixpoint schedules_loop (fuel : nat) (z : zap) (station : string)
    (key_array : list Z) (i : nat) (d : pydict Z airing)
    (out : list xtvd_schedule) : outcome (pydict Z airing * list xtvd_schedule) :=
  match fuel with
  | O => OutOfFuel
  | S fuel' =>
      if bool_decide (i < length key_array)%nat then
        s <~~ lift (match key_array !! i with
                    | Some s => Ok s
                    | None => Exn IndexError
                    end) ;;
        if bool_decide (i = length key_array - 1)%nat then
          if dmem s d
          then schedules_loop fuel' z station key_array i (ddel s d) out
          else Raised KeyError
        else
          a <~~ lift (subscript (dget s d)) ;;
          nxt <~~ lift (match key_array !! S i with
                        | Some k => Ok k
                        | None => Exn IndexError
                        end) ;;
          b <~~ lift (subscript (dget nxt d)) ;;
          Raised AttributeError
      else Done (d, out)
  end.

(** [sorted(self.schedule[station].keys())] *)
Definition key_array_xtvd (d : pydict Z airing) : list Z :=
  sorted Z.leb (dkeys d).

Definition print_schedules_station (fuel : nat) (z : zap) (station : string)
    (d : pydict Z airing) : outcome (pydict Z airing * list xtvd_schedule) :=
  schedules_loop fuel z station (key_array_xtvd d) 0 d [].

Fixpoint print_schedules_stations (fuel : nat) (z : zap) (order : list string)
    (sch : pydict string (pydict Z airing)) (out : list xtvd_schedule)
    : outcome (pydict string (pydict Z airing) * list xtvd_schedule) :=
  match order with
  | [] => Done (sch, out)
  | station :: rest =>
      d <~~ lift (subscript (dget station sch)) ;;
      r <~~ print_schedules_station fuel z station d ;;
      print_schedules_stations fuel z rest (dset station r.1 sch) (out ++ r.2)
  end.

Definition print_schedules_xtvd (fuel : nat) (z : zap)
    : outcome (pydict string (pydict Z airing) * list xtvd_schedule) :=
  order <~~ lift (sorted_stations z (dkeys (schedule z))) ;;
  print_schedules_stations fuel z order (schedule z) [].

(** *** [write_output_file] and [run] *)

Inductive document : Type :=
  | Xmltv (channels : list string) (programmes : list programme)
  | Xtvd (schedules : list xtvd_schedule).

(** The default document is the channels followed by the programmes.
    Of the alternate document the header (which formats both bounds of
    the run), the ordering of the stations and the schedules section are
    modelled. *)
Definition write_output_file (fuel : nat) (z : zap) : outcome document :=
  if outputXTVD (opts z) then
    _ <~~ lift (match XTVD_startTime z, XTVD_endTime z with
                | Some _, Some _ => Ok tt
                | _, _ => Exn TypeError
                end) ;;
    _ <~~ lift (sorted_stations z (dkeys (stations z))) ;;
    r <~~ print_schedules_xtvd fuel z ;;
    Done (Xtvd r.2)
  else
    cs <~~ lift (print_channels z) ;;
    r <~~ lift (print_programmes z) ;;
    Done (Xmltv cs r.2).

Section Run.
Variable json_grid : string -> option (list json_channel).
Variable json_overview : string -> option overview.
Variable net : nat -> Z -> response.

(** [run]: options, the bucket loop, the document. *)
Definition run (fuel : nat) (ms : Z) (z : zap) : outcome document :=
  let z := set_opts (process_options (opts z)) z in
  let z := process_data json_grid json_overview
             net ms z in
  write_output_file fuel z.
End Run.

(** ** Vocabulary of the properties *)

(** A field of the entry of a program id; [None] when the entry or the
    field is missing. *)
Definition field_at {A} (f : program -> option A) (cp : string)
    (ps : gmap string program) : option A := ps !! cp ≫= f.

(** A candidate description: the 'shortDesc' of a grid event, or the
    overview payload whose 'seriesDescription' is offered by the
    enrichment. *)
Inductive desc_candidate : Type :=
  | GridDesc (d : string)
  | OverviewDesc (t : overview).

Definition candidate_text (c : desc_candidate) : string :=
  match c with
  | GridDesc d => d
  | OverviewDesc t => seriesDescription t
  end.

Definition merge_desc (cp : string) (ps : gmap string program)
    (c : desc_candidate) : gmap string program :=
  match c with
  | GridDesc d => grid_description d cp ps
  | OverviewDesc t => parse_overview cp t ps
  end.

(** The first claim about descriptions, as the specification words it:
    whatever was stored is at least as long as every candidate seen. *)
Definition longest_description_wins (cp : string) (l : list desc_candidate)
    : Prop :=
  forall d c, field_at description cp (foldl (merge_desc cp) ∅ l) = Some d ->
    c ∈ l -> Str.len (candidate_text c) <= Str.len d.

(** The claim about the original air date, as the specification words
    it: the enrichment never replaces a stored date by a later one. *)
Definition earliest_air_date_wins (cp : string) (t : overview)
    (ps : gmap string program) : Prop :=
  forall old new, field_at originalAirDate cp ps = Some old ->
    field_at originalAirDate cp (parse_overview cp t ps) = Some new ->
    new <= old.

(** An observation of a program as far as its rating goes: a grid event
    (its title creates the entry, lines 995 and 1051-1053), or a detail
    payload of the alternate provider. *)
Inductive rating_obs : Type :=
  | GridObs (title rating : string)
  | DetailObs (d : tvg_details).

Definition merge_rating (cp : string) (ps : gmap string program)
    (o : rating_obs) : gmap string program :=
  match o with
  | GridObs t r => grid_rating r cp (upd_program cp (set_title t) ps)
  | DetailObs d => parse_tvg_details cp d ps
  end.

(** The rating value an observation carries, if any. *)
Definition carried (o : rating_obs) : option string :=
  match o with
  | GridObs _ r => if Str.nonempty r then Some r else None
  | DetailObs d => d_rating d
  end.

(** Exactly one observation of the sequence carries a rating value, and
    that value is [r], a non-empty string. *)
Definition sole_rating (l : list rating_obs) (r : string) : Prop :=
  r ≠ EmptyString /\
  exists l1 o l2, l = l1 ++ o :: l2 /\ carried o = Some r
    /\ Forall (fun o' => carried o' = None) (l1 ++ l2).

(** The claim about ratings, as the specification words it. *)
Definition sole_rating_wins (cp : string) (ps : gmap string program)
    (l1 l2 : list rating_obs) (r : string) : Prop :=
  l1 ≡ₚ l2 -> sole_rating l1 r ->
  field_at rating cp (foldl (merge_rating cp) ps l1) = Some r
  /\ field_at rating cp (foldl (merge_rating cp) ps l2) = Some r.

(** What the code asks of the sole carrier when it is a detail payload:
    the value is not 'NR' and the entry is there without a rating. *)
Definition detail_accepted (cp : string) (ps : gmap string program)
    (l : list rating_obs) (r : string) : Prop :=
  forall d, DetailObs d ∈ l -> d_rating d = Some r ->
    r ≠ "NR" /\ exists p, ps !! cp = Some p /\ rating p = None.

(** [ps'] has the same field [f] for [cp] as [ps] and has not lost the
    entry of [cp]. *)
Definition keeps_field {A} (f : program -> option A) (cp : string)
    (ps ps' : gmap string program) : Prop :=
  field_at f cp ps' = field_at f cp ps
  /\ (is_Some (ps !! cp) -> is_Some (ps' !! cp)).

(** The airing stored for a station under a key, with its start, its
    program and its station. *)
Definition airing_at (cs : string) (k : Z) (cp : string)
    (sch : pydict string (pydict Z airing)) : Prop :=
  exists a, dget cs sch ≫= dget k = Some a
    /\ time a = k /\ a_program a = cp /\ a_station a = cs.

(** Gap filling as the specification words it, on the airings of a
    station in ascending order of start: an explicit end is kept, a
    missing end is the start of the next airing, and a last airing
    without end is left out. *)
Fixpoint assemble (l : list airing) : list (Z * Z) :=
  match l with
  | [] => []
  | a :: rest =>
      match endtime a, rest with
      | Some e, _ => (time a, e) :: assemble rest
      | None, b :: _ => (time a, time b) :: assemble rest
      | None, [] => []
      end
  end.

(** The defaults of [__init__]. *)
Definition default_options : options :=
  mkOptions 7 0 0 (-1) 3 false false false false false false false false
    false false.

Definition initial_zap (o : options) : zap :=
  mkZap o ∅ [] ∅ [] 0 false false ∅ ∅ ∅ 0%nat None None.

(** A decoder for a cache directory without overview files. *)
Definition no_overview_json (content : string) : option overview := None.

(** A grid payload of one channel with two events, each with its own
    'startTime' and 'endTime': 100 s to 150 s, and 300 s to 400 s. *)
Definition grid_two_airings : list json_channel :=
  [mkJsonChannel "123" "5" "ABC" ""
     [mkJsonEvent
        (mkJsonProgram "EP012345670001" "News" "" "" "" "" "" "" "" true)
        1 "" "1970-01-01T00:01:40Z" "1970-01-01T00:02:30Z" [] "" [] [];
      mkJsonEvent
        (mkJsonProgram "EP012345670002" "Weather" "" "" "" "" "" "" "" true)
        2 "" "1970-01-01T00:05:00Z" "1970-01-01T00:06:40Z" [] "" [] []]].

(** What parsing a payload leaves alone: the options, the favorites, the
    request count, the grid files, the flag [exp] and the bounds of the
    run. *)
Definition frame (z z' : zap) : Prop :=
  opts z' = opts z /\ zapFavorites z' = zapFavorites z
  /\ requests z' = requests z /\ grid_files z' = grid_files z
  /\ exp z' = exp z /\ XTVD_startTime z' = XTVD_startTime z
  /\ XTVD_endTime z' = XTVD_endTime z.




(** A payload of one channel with a placeholder title and a final
    title, and a decoder that knows its text. *)
Definition grid_tba_and_news : list json_channel :=
  [mkJsonChannel "123" "5" "ABC" ""
     [mkJsonEvent
        (mkJsonProgram "EP012345670001" "TBA" "" "" "" "" "" "" "" true)
        1 "" "1970-01-01T00:01:40Z" "1970-01-01T00:02:30Z" [] "" [] [];
      mkJsonEvent
        (mkJsonProgram "EP012345670002" "News" "" "" "" "" "" "" "" true)
        2 "" "1970-01-01T00:05:00Z" "1970-01-01T00:06:40Z" [] "" [] []]].

Definition sample_json_grid (content : string) : option (list json_channel) :=
  if String.eqb content "tba-and-news" then Some grid_tba_and_news
  else if String.eqb content "two-airings" then Some grid_two_airings
  else None.


Definition zap_with_file (o : options) (ms : Z) (content : string) : zap :=
  set_grid_files {[ms := content]} (initial_zap o).

(** A provider that never answers. *)
Definition net_down (n : nat) (ms : Z) : response := NetError.

Definition order_is_num (o : order_val) : bool :=
  match o with
  | OrdNum _ => true
  | OrdStr _ => false
  end.

(** The episode numbers of a stored program can be written: its season
    and its episode, when it has both, are numbers for [int]. *)
Definition program_renders (z : zap) (cp : string) : Prop :=
  exists p l, programs z !! cp = Some p /\ episode_nums cp p = Ok l.

Definition episodes_numeric (z : zap) : Prop :=
  forall cp p, programs z !! cp = Some p -> exists l, episode_nums cp p = Ok l.

(** The shape of the stores that the parsers maintain: the station of
    every schedule and of every airing is known, the program of every
    airing is known, and the display orders are all of the kind that
    [retainOrder] selects. *)
Definition well_formed (z : zap) : Prop :=
  (forall cs d, (cs, d) ∈ schedule z ->
     is_Some (dget cs (stations z))
     /\ forall k a, (k, a) ∈ d ->
          is_Some (dget (a_station a) (stations z))
          /\ is_Some (programs z !! a_program a))
  /\ (forall cs st, (cs, st) ∈ stations z ->
        order_is_num (order st) = retainOrder (opts z)).

(** A reply after which [get_url] tries again. *)
Definition retryable (r : response) : bool :=
  match r with
  | Reply status content =>
      negb ((status =? 200) && Str.nonempty content)
      && negb ((status =? 500) && Str.contains "Could not load details" content)
  | NetError => true
  end.

Section Prefix.
Variable json_grid : string -> option (list json_channel).
Variable json_overview : string -> option overview.
Variable net : nat -> Z -> response.

(** The bucket loop on the first counts: the start of the next bucket
    and the state reached when no pass broke out of the loop. *)
Fixpoint process_prefix (max_count : Z) (counts : list Z) (ms : Z) (z : zap)
    : option (Z * zap) :=
  match counts with
  | [] => Some (ms, z)
  | count :: rest =>
      let '(go, z') := process_bucket json_grid json_overview
                         net max_count count ms z in
      if go then process_prefix max_count rest (ms + gridHours * 3600 * 1000) z'
      else None
  end.
End Prefix.

(** What holds between the statements of one pass over an event of the
    station [cs] with the program id [cp], once the title is stored. *)
Definition event_inv (cs cp : string) (z : zap) : Prop :=
  well_formed z /\ is_Some (dget cs (stations z))
  /\ is_Some (programs z !! cp).

(** The defaults with the alternate document selected. *)
Definition xtvd_options : options :=
  mkOptions 7 0 0 (-1) 3 false false false false false false false false
    false true.

(** A cache directory with one overview file, for the program
    EP012345670001: its 'upcomingEpisode' names the program, in lower
    case, with an original air date in 2020. *)
Definition sample_overview : overview :=
  mkOverview "" [] [] "" ""
    (mkUpcoming "ep012345670001" "2020-01-01T00:00Z") [].

Definition sample_json_overview (content : string) : option overview :=
  if String.eqb content "overview" then Some sample_overview else None.

(** A grid payload with two events of one program, flagged new, whose
    descriptions have 20 and then 10 characters. *)
Definition grid_two_descriptions : list json_channel :=
  [mkJsonChannel "123" "5" "ABC" ""
     [mkJsonEvent
        (mkJsonProgram "EP012345670001" "News" "" "twenty characters ok"
           "" "" "" "" "" false)
        1 "" "1970-01-01T00:01:40Z" "1970-01-01T00:02:30Z" [] "" [] ["New"];
      mkJsonEvent
        (mkJsonProgram "EP012345670001" "News" "" "ten chars."
           "" "" "" "" "" false)
        2 "" "1970-01-01T00:05:00Z" "1970-01-01T00:06:40Z" [] "" [] ["New"]]].

(** The defaults with the details requested. *)
Definition details_options : options :=
  mkOptions 7 0 0 (-1) 3 false false false false false false false false
    true false.

(** The claim about the reuse of a cached bucket, as the specification
    words it: a pass that is not forced to fetch sends no request at
    all, neither for the grid nor on behalf of the login. *)
Definition reused_without_request
    (json_grid : string -> option (list json_channel))
    (json_overview : string -> option overview)
    (net : nat -> Z -> response)
    (login_net : nat -> Session.login_reply)
    (favorites_net : nat -> Session.favorites_reply)
    (max_count count ms : Z) (c : Session.client) : Prop :=
  need_fetch (opts (Session.state c)) (cached ms (Session.state c))
    (curday_of count) = false ->
  let c' := (Session.process_bucket json_grid json_overview net login_net
               favorites_net max_count count ms c).2 in
  requests (Session.state c') = requests (Session.state c)
  /\ Session.posts c' = Session.posts c.

(** Options [a] and [D]: every channel, with the details. *)
Definition all_details_options : options :=
  mkOptions 7 0 0 (-1) 3 true false false false false false false false
    true false.

Definition details_json_grid (content : string)
    : option (list json_channel) :=
  if String.eqb content "two-descriptions" then Some grid_two_descriptions
  else None.

(** An account whose login is answered with a token, and one without
    favorites. *)
Definition login_granted (n : nat) : Session.login_reply :=
  Session.LoginJson "token".

Definition no_favorites (n : nat) : Session.favorites_reply :=
  Session.FavoritesJson [].

(** The object after [read_config] with a user name and a password: no
    token yet, no request sent. *)
Definition client_with_account (z : zap) : Session.client :=
  Session.mkClient z "user@example.com" "secret" "" 0.

(** The object with a user name and no password. *)
Definition client_without_password (z : zap) : Session.client :=
  Session.mkClient z "user@example.com" "" "" 0.

(** * Further parts of the program

    The text escaping, the cleaning of the cache directory, the order
    of the channels, the bounds of a run, the formatting of timestamps
    and the configuration file, with the same conventions as above. *)

(** ** Text helpers *)

(** [c.isspace()] on one code point below 256. *)
Definition is_space (c : ascii) : bool :=
  let n := Str.code c in
  ((9 <=? n) && (n <=? 13)) || ((28 <=? n) && (n <=? 32))
  || (n =? 133) || (n =? 160).

Fixpoint lstrip (s : string) : string :=
  match s with
  | EmptyString => EmptyString
  | String c s' => if is_space c then lstrip s' else s
  end.

Fixpoint rstrip (s : string) : string :=
  match s with
  | EmptyString => EmptyString
  | String c s' =>
      match rstrip s' with
      | EmptyString => if is_space c then EmptyString else String c EmptyString
      | r => String c r
      end
  end.

(** [s.strip()] *)
Definition strip (s : string) : string := rstrip (lstrip s).

(** [''.join(f(c) for c in s)] *)
Fixpoint expand (f : ascii -> string) (s : string) : string :=
  match s with
  | EmptyString => EmptyString
  | String c s' => f c +:+ expand f s'
  end.

(** [s.replace(c, by)] for a pattern of one character. *)
Definition replace_char (c : ascii) (by_ : string) (s : string) : string :=
  expand (fun a => if Ascii.eqb a c then by_ else String a EmptyString) s.

(** [s.endswith(p)] *)
Definition endswith (p s : string) : bool :=
  String.prefix (String.rev p) (String.rev s).

(** ** Escaping of text: [enc] *)

(** The options that [enc] reads; [encodeSelective] is [None] while the
    attribute is missing. *)
Record enc_options : Type := mkEncOptions
  { utf8 : bool;
    encodeSelective : option string;
    encodeEntities : bool }.

(** [c.encode('utf-8').decode('latin-1')] on one code point below 256:
    the bytes of its UTF-8 form, each read as a character. *)
Definition utf8_char (c : ascii) : string :=
  let n := Str.code c in
  if n <? 128 then String c EmptyString
  else String (Str.chr (192 + n / 64))
         (String (Str.chr (128 + n mod 64)) EmptyString).

(** [not hasattr(self, 'encodeSelective') or self.encodeSelective is None
    or nm in self.encodeSelective] *)
Definition selected (o : enc_options) (nm : string) : bool :=
  match encodeSelective o with
  | None => true
  | Some sel => Str.contains nm sel
  end.

Definition amp_char : ascii := Str.chr 38.
Definition quot_char : ascii := Str.chr 34.
Definition apos_char : ascii := Str.chr 39.
Definition lt_char : ascii := Str.chr 60.
Definition gt_char : ascii := Str.chr 62.

(** [f'&#{ord(c)};' if ord(c) > 127 else c] *)
Definition entity_char (c : ascii) : string :=
  if 127 <? Str.code c then "&#" +:+ decimal (Str.code c) +:+ ";"
  else String c EmptyString.

(** The replacements of [enc], one kind of markup character after the
    other, the ampersand first, and then the character references. *)
Definition escape (o : enc_options) (t : string) : string :=
  let t := if selected o "amp" then replace_char amp_char "&amp;" t else t in
  let t := if selected o "quot" then replace_char quot_char "&quot;" t else t in
  let t := if selected o "apos" then replace_char apos_char "&apos;" t else t in
  let t := if selected o "lt" then replace_char lt_char "&lt;" t else t in
  let t := if selected o "gt" then replace_char gt_char "&gt;" t else t in
  if encodeEntities o then expand entity_char t else t.

(** What [enc] does to the text before it escapes it: the text is
    stripped and, unless [utf8] is set, put through UTF-8 (no code
    point below 256 makes the encoding raise). *)
Definition recode (o : enc_options) (t : string) : string :=
  let t := strip t in
  if utf8 o then t else expand utf8_char t.

(** [enc]: [None] gives the empty string. *)
Definition enc (o : enc_options) (t : option string) : string :=
  match t with
  | None => EmptyString
  | Some t => escape o (recode o t)
  end.

(** What a reader of the document makes of character data: the five
    named entities and the decimal character references are resolved,
    and a markup character that is not escaped, an unknown entity or an
    unfinished reference is refused.  [pending] holds the characters
    read since an ampersand, last one first. *)
Definition resolve (name : string) : option ascii :=
  if String.eqb name "amp" then Some amp_char
  else if String.eqb name "quot" then Some quot_char
  else if String.eqb name "apos" then Some apos_char
  else if String.eqb name "lt" then Some lt_char
  else if String.eqb name "gt" then Some gt_char
  else match name with
       | String "#" digits =>
           n ← NilEmpty.uint_of_string digits;
           if Z.of_uint n <? 256 then Some (Str.chr (Z.of_uint n)) else None
       | _ => None
       end.

Fixpoint unescape_go (pending : option string) (s : string) : option string :=
  match s with
  | EmptyString =>
      match pending with
      | None => Some EmptyString
      | Some _ => None
      end
  | String c s' =>
      match pending with
      | None =>
          if Ascii.eqb c amp_char then unescape_go (Some EmptyString) s'
          else if Ascii.eqb c quot_char || Ascii.eqb c apos_char
                  || Ascii.eqb c lt_char || Ascii.eqb c gt_char
          then None
          else String c <$> unescape_go None s'
      | Some acc =>
          if Ascii.eqb c ";"
          then a ← resolve (String.rev acc); String a <$> unescape_go None s'
          else unescape_go (Some (String c acc)) s'
      end
  end.

Definition unescape (s : string) : option string := unescape_go None s.

(** [s.encode('latin-1').decode('utf-8')] on the text that [utf8_char]
    produces; [lead] is the first byte of a pair. *)
Fixpoint utf8_back (lead : option ascii) (s : string) : string :=
  match s with
  | EmptyString => EmptyString
  | String c s' =>
      match lead with
      | None =>
          if Str.code c <? 128 then String c (utf8_back None s')
          else utf8_back (Some c) s'
      | Some l =>
          String (Str.chr ((Str.code l - 192) * 64 + (Str.code c - 128)))
            (utf8_back None s')
      end
  end.

(** ** The cache directory: [clean_old_cache_files] *)

Section Clean.

(** [os.path.getatime(path) + seconds < time.time()] for the file of
    that name in the cache directory. *)
Variable stale : string -> Z -> bool.

(** The names of the listing that are passed to [os.unlink], in the
    order of the listing. *)
Definition clean_old_cache_files (days : Z) (listing : list string)
    : list string :=
  List.filter
    (fun filename =>
       (endswith ".html" filename || endswith ".js" filename)
       && stale filename ((days + 2) * 86400))
    listing.

End Clean.

(** The name of the cache file of a bucket, of an overview payload and
    of a detail payload (lines 484, 1084 and 1225). *)
Definition grid_file_name (ms : Z) : string := decimal ms +:+ ".js.gz".
Definition overview_file_name (cp : string) : string := "O" +:+ cp +:+ ".js.gz".
Definition detail_file_name (prefix cp : string) : string :=
  prefix +:+ cp +:+ ".js.gz".

(** ** Vocabulary of the further properties *)

(** What the parsers read and write of the stations: [z'] has the
    options, the favorites, the stations and the station counter of
    [z]. *)
Definition same_stations (z z' : zap) : Prop :=
  opts z' = opts z /\ zapFavorites z' = zapFavorites z
  /\ stations z' = stations z /\ coNum z' = coNum z.

(** The state after a channel is taken as a new station. *)
Definition add_station (s : json_channel) (z : zap) : zap :=
  set_coNum (coNum z + 1)
    (set_stations
       (dset (c_channelNo s +:+ "." +:+ c_channelId s) (new_station s z)
          (stations z)) z).

(** The display orders of the stations are the numbers of a running
    counter: they grow along the dictionary and stay below [coNum]. *)
Fixpoint orders_below (bound : Z) (sts : list station) : Prop :=
  match sts with
  | [] => True
  | st :: rest =>
      orders_below bound rest
      /\ exists n, order st = OrdNum n /\ n < bound
           /\ Forall (fun st' => exists m, order st' = OrdNum m /\ n < m) rest
  end.

Definition counted_orders (z : zap) : Prop :=
  NoDup (dkeys (stations z)) /\ orders_below (coNum z) (dvalues (stations z)).

(** The names that the loop over [series_genres.split('|')] adds to a
    genre dictionary with the keys [have]: each name in lower case, at
    its first occurrence, when the dictionary does not have it. *)
Fixpoint new_genres (sgs : list string) (have : list string) : list string :=
  match sgs with
  | [] => []
  | sg :: rest =>
      let g := Str.lower sg in
      if bool_decide (g ∈ have) then new_genres rest have
      else g :: new_genres rest (have ++ [g])
  end.

(** ** Timestamps as text: [conv_time_xtvd] *)

Module Calendar.

(** The month and the day of the [n]-th day of a year, counted from 0,
    as [datetime] finds them: an estimate of the month that is at most
    one too large, and its correction. *)
Definition days_in_month_of (leap : bool) (m : Z) : Z :=
  if (m =? 2) && leap then 29
  else nth (Z.to_nat m) [0; 31; 28; 31; 30; 31; 30; 31; 31; 30; 31; 30; 31] 0.

Definition days_before_month_of (leap : bool) (m : Z) : Z :=
  nth (Z.to_nat m) [0; 0; 31; 59; 90; 120; 151; 181; 212; 243; 273; 304; 334] 0
  + (if (2 <? m) && leap then 1 else 0).

Definition doy2md (leap : bool) (n : Z) : Z * Z :=
  let month := (n + 50) / 32 in
  let preceding := days_before_month_of leap month in
  if n <? preceding
  then (month - 1,
        n - (preceding - days_in_month_of leap (month - 1)) + 1)
  else (month, n - preceding + 1).

(** The date of a proleptic Gregorian ordinal, day 1 being the first of
    January of the year 1: cycles of 400, 100, 4 and 1 years. *)
Definition ord2ymd (n : Z) : Z * Z * Z :=
  let n := n - 1 in
  let n400 := n / 146097 in
  let n := n mod 146097 in
  let n100 := n / 36524 in
  let n := n mod 36524 in
  let n4 := n / 1461 in
  let n := n mod 1461 in
  let n1 := n / 365 in
  let n := n mod 365 in
  let year := n400 * 400 + 1 + n100 * 100 + n4 * 4 + n1 in
  if (n1 =? 4) || (n100 =? 4) then (year - 1, 12, 31)
  else
    let leapyear := (n1 =? 3) && (negb (n4 =? 24) || (n100 =? 3)) in
    let '(month, day) := doy2md leapyear n in
    (year, month, day).

(** The first and the last second that [datetime] can hold, as seconds
    since the epoch: the years 1 to 9999. *)
Definition min_seconds : Z := -62135596800.
Definition max_seconds : Z := 253402300799.

(** The fields of the second [secs] since the epoch, read without an
    offset. *)
Definition fields (secs : Z) : Time.datetime :=
  let '(y, m, d) := ord2ymd (secs / 86400 + 719163) in
  let rem := secs mod 86400 in
  Time.mkDatetime y m d (rem / 3600) (rem mod 3600 / 60) (rem mod 60).

(** [%m], [%d], [%H], [%M] and [%S]: two digits. *)
Definition pad2 (n : Z) : string :=
  String (Str.chr (48 + n / 10)) (String (Str.chr (48 + n mod 10)) EmptyString).

(** ['%Y-%m-%dT%H:%M:%SZ']; [%Y] is the year without padding. *)
Definition strftime_xtvd (dt : Time.datetime) : string :=
  decimal (Time.year dt) +:+ "-" +:+ pad2 (Time.month dt) +:+ "-"
  +:+ pad2 (Time.day dt) +:+ "T" +:+ pad2 (Time.hour dt) +:+ ":"
  +:+ pad2 (Time.minute dt) +:+ ":" +:+ pad2 (Time.second dt) +:+ "Z".

End Calendar.

Section LocalTime.

(** The offset of the local time zone from UTC, in seconds, at a second
    since the epoch. *)
Variable utcoffset : Z -> Z.

(** [conv_time_xtvd]: the local wall clock of the second that holds the
    millisecond [t], written with a letter Z after it.  [None] when the
    second, or its local wall clock, is outside the years 1 to 9999 and
    [datetime] raises. *)
Definition conv_time_xtvd (t : Z) : option string :=
  let secs := t / 1000 in
  let local := secs + utcoffset secs in
  if (Calendar.min_seconds <=? secs) && (secs <=? Calendar.max_seconds)
     && (Calendar.min_seconds <=? local) && (local <=? Calendar.max_seconds)
  then Some (Calendar.strftime_xtvd (Calendar.fields local))
  else None.

End LocalTime.

(** ** The order of the channels *)

(** [a] is not after [b]: [sort_chan(a, b) <= 0]. *)
Definition chan_le (z : zap) (a b : string) : Prop :=
  exists c, sort_chan z a b = Ok c /\ c <= 0.

(** Every element of a list is in relation with all that follow it. *)
Definition ascending {A} (R : A -> A -> Prop) (l : list A) : Prop :=
  forall (i j : nat) a b, (i < j)%nat -> l !! i = Some a -> l !! j = Some b ->
    R a b.

(** ** The configuration file: [read_config_file] *)

(** The attributes that a line of the configuration file can set, and
    the user name, which is read after the file. *)
Record settings : Type := mkSettings
  { s_start : Z;
    s_days : Z;
    s_ncdays : Z;
    s_ncsdays : Z;
    s_ncmday : Z;
    s_retries : Z;
    s_outputXTVD : bool;
    s_userEmail : string }.

Definition set_s_start v s := mkSettings v (s_days s) (s_ncdays s)
  (s_ncsdays s) (s_ncmday s) (s_retries s) (s_outputXTVD s) (s_userEmail s).
Definition set_s_days v s := mkSettings (s_start s) v (s_ncdays s)
  (s_ncsdays s) (s_ncmday s) (s_retries s) (s_outputXTVD s) (s_userEmail s).
Definition set_s_ncdays v s := mkSettings (s_start s) (s_days s) v
  (s_ncsdays s) (s_ncmday s) (s_retries s) (s_outputXTVD s) (s_userEmail s).
Definition set_s_ncsdays v s := mkSettings (s_start s) (s_days s) (s_ncdays s)
  v (s_ncmday s) (s_retries s) (s_outputXTVD s) (s_userEmail s).
Definition set_s_ncmday v s := mkSettings (s_start s) (s_days s) (s_ncdays s)
  (s_ncsdays s) v (s_retries s) (s_outputXTVD s) (s_userEmail s).
Definition set_s_retries v s := mkSettings (s_start s) (s_days s) (s_ncdays s)
  (s_ncsdays s) (s_ncmday s) v (s_outputXTVD s) (s_userEmail s).
Definition set_s_outputXTVD v s := mkSettings (s_start s) (s_days s)
  (s_ncdays s) (s_ncsdays s) (s_ncmday s) (s_retries s) v (s_userEmail s).

(** The expressions of [read_config_file] are sequences of literals,
    repeated character classes and one group at the end. *)
Inductive item : Type :=
  | Lit (s : string)
  | Star (cls : ascii -> bool)
  | Group (cls : ascii -> bool).

(** A literal under [re.I]: what is left of the text after it. *)
Fixpoint lit_ci (l s : string) : option string :=
  match l, s with
  | EmptyString, _ => Some s
  | String a l', String c s' =>
      if decide (Str.lower_char c = Str.lower_char a) then lit_ci l' s'
      else None
  | String _ _, EmptyString => None
  end.

(** A repeated class takes as many characters as it can and gives them
    back one by one while what follows does not match. *)
Fixpoint star (cls : ascii -> bool) (k : string -> option string) (s : string)
    : option string :=
  match s with
  | EmptyString => k s
  | String c s' =>
      if cls c
      then match star cls k s' with
           | Some r => Some r
           | None => k s
           end
      else k s
  end.

Fixpoint take_while (cls : ascii -> bool) (s : string) : string :=
  match s with
  | EmptyString => EmptyString
  | String c s' => if cls c then String c (take_while cls s') else EmptyString
  end.

(** [re.match(p, s, re.I)] for such an expression: the text of the
    group, which takes one character or more. *)
Fixpoint re_match (p : list item) (s : string) : option string :=
  match p with
  | [] => Some EmptyString
  | Lit l :: p' =>
      match lit_ci l s with
      | Some r => re_match p' r
      | None => None
      end
  | Star cls :: p' => star cls (re_match p') s
  | Group cls :: _ =>
      let g := take_while cls s in
      if Str.nonempty g then Some g else None
  end.

Definition word_or_space (c : ascii) : bool := Str.is_word c || is_space c.

(** [^\s*name\s*=\s*(\d+)] and [^\s*name\s*=\s*(.+)] *)
Definition number_setting (name : string) : list item :=
  [Star is_space; Lit name; Star is_space; Lit "="; Star is_space;
   Group Str.is_digit].
Definition text_setting (name : string) : list item :=
  [Star is_space; Lit name; Star is_space; Lit "="; Star is_space; Group dot].
(** [^\s*name[\w\s]*=\s*(.+)] *)
Definition loose_setting (name : string) : list item :=
  [Star is_space; Lit name; Star word_or_space; Lit "="; Star is_space;
   Group dot].

(** What is done with the group of the first expression that matches:
    a number is stored, the text goes through [self.rtrim], or the
    output format is looked at. *)
Inductive action : Type :=
  | SetNumber (setter : Z -> settings -> settings)
  | Rtrim
  | OutFormat.

(** The expressions of lines 298 to 397, in their order. *)
Definition config_rules : list (list item * action) :=
  [ (number_setting "start", SetNumber set_s_start);
    (number_setting "days", SetNumber set_s_days);
    (number_setting "ncdays", SetNumber set_s_ncdays);
    (number_setting "ncsdays", SetNumber set_s_ncsdays);
    (number_setting "ncmday", SetNumber set_s_ncmday);
    (number_setting "retries", SetNumber set_s_retries);
    (loose_setting "user", Rtrim);
    (loose_setting "pass", Rtrim);
    (text_setting "cache", Rtrim);
    (text_setting "icon", Rtrim);
    (text_setting "trailer", Rtrim);
    (text_setting "lang", Rtrim);
    (text_setting "outfile", Rtrim);
    (text_setting "proxy", Rtrim);
    (text_setting "outformat", OutFormat);
    (text_setting "lineupid", Rtrim);
    (text_setting "lineupname", Rtrim);
    (text_setting "lineuptype", Rtrim);
    (text_setting "lineuplocation", Rtrim);
    (text_setting "postalcode", Rtrim) ].

Fixpoint first_rule (rules : list (list item * action)) (line : string)
    : option (action * string) :=
  match rules with
  | [] => None
  | (p, a) :: rest =>
      match re_match p line with
      | Some g => Some (a, g)
      | None => first_rule rest line
      end
  end.

(** [line.split('#')[0]] *)
Fixpoint before_hash (s : string) : string :=
  match s with
  | EmptyString => EmptyString
  | String c s' => if Ascii.eqb c "#" then EmptyString
                   else String c (before_hash s')
  end.

(** What ends the reading of the file: the missing method [rtrim]
    ([AttributeError]), a line that no expression matches
    ([Exception]), or a number that [int] refuses ([ValueError]: more
    than 4300 digits). *)

(** One pass of the loop over the lines.  The class has no method
    [rtrim]: the lines that set a text raise at [self.rtrim]. *)
Definition read_config_line (line : string) (s : settings)
    : settings + exn :=
  let line := strip (before_hash line) in
  if negb (Str.nonempty line) then inl s
  else
    match first_rule config_rules line with
    | Some (SetNumber setter, g) =>
        match (if 4300 <? Str.len g then None else int_of g) with
        | Some n => inl (setter n s)
        | None => inr ValueError
        end
    | Some (Rtrim, _) => inr AttributeError
    | Some (OutFormat, g) =>
        inl (if Str.contains "xtvd" (Str.lower g)
             then set_s_outputXTVD true s else s)
    | None => inr Exception
    end.

Fixpoint read_config_lines (lines : list string) (s : settings)
    : settings + exn :=
  match lines with
  | [] => inl s
  | line :: rest =>
      match read_config_line line s with
      | inl s' => read_config_lines rest s'
      | inr e => inr e
      end
  end.

(** How [read_config_file] ends: it returns, it prints the help text
    and leaves the program, or it raises. *)
Inductive config_result : Type :=
  | Configured (s : settings)
  | HelpExit
  | ConfigError (e : exn).

(** [read_config_file]: [None] stands for a file that cannot be opened
    ([IOError], which is passed over).  [self.zlineupId] is [None] when
    the method is entered, so the help text is shown whenever there is
    no user name. *)
Definition read_config_file (file : option (list string)) (s : settings)
    : config_result :=
  match match file with
        | Some lines => read_config_lines lines s
        | None => inl s
        end with
  | inl s' => if Str.nonempty (s_userEmail s') then Configured s' else HelpExit
  | inr e => ConfigError e
  end.

(** The settings whose value is handed to [self.rtrim] (lines 328 to
    396), by the name that the expression asks for. *)
Definition rtrim_settings : list string :=
  [ "user"; "pass"; "cache"; "icon"; "trailer"; "lang"; "outfile"; "proxy";
    "lineupid"; "lineupname"; "lineuptype"; "lineuplocation"; "postalcode" ].

(** A character that neither [split('#')] nor [strip] takes away. *)
Definition kept_char (a : ascii) : bool :=
  negb (is_space a) && negb (Ascii.eqb a "#").

(** A number as the guide gives it: decimal digits, at least one and
    not more than [int] takes. *)
Definition digit_string (s : string) : Prop :=
  s <> EmptyString /\ forallb Str.is_digit (chars s) = true
  /\ Str.len s <= 4300.

(** ** The channels that the programmes name *)

(** The channel of a programme is the channel id of a stored station. *)
Definition channel_of_station (z : zap) (pr : programme) : Prop :=
  exists s, station_to_channel z s = Ok (pr_channel pr).

(** * Properties *)

(** ** Dictionaries and sorting *)

Section pydict_facts.
Context {K V : Type} `{EqDecision K}.
Implicit Types (k : K) (v : V) (d : list (K * V)).

Lemma dget_dset_eq k v d : dget k (dset k v d) = Some v.
Proof.
  induction d as [|[k' v'] d IH]; simpl.
  - by rewrite decide_True.
  - destruct (decide (k = k')); simpl.
    + by rewrite decide_True.
    + by rewrite decide_False.
Qed.

Lemma dget_dset_ne k k' v d : k ≠ k' -> dget k' (dset k v d) = dget k' d.
Proof.
  intros Hne. induction d as [|[k0 v0] d IH]; simpl.
  - by rewrite decide_False.
  - destruct (decide (k = k0)) as [->|]; simpl.
    + by rewrite !decide_False.
    + destruct (decide (k' = k0)); auto.
Qed.

Lemma dget_Some_elem k v d : dget k d = Some v -> (k, v) ∈ d.
Proof.
  induction d as [|[k' v'] d IH]; simpl; [done|].
  destruct (decide (k = k')) as [->|].
  - intros [= ->]. left.
  - intros. right. auto.
Qed.

Lemma dget_None_keys k d : dget k d = None <-> k ∉ dkeys d.
Proof.
  unfold dkeys. induction d as [|[k' v'] d IH]; simpl.
  - split; [intros _; apply not_elem_of_nil | done].
  - rewrite not_elem_of_cons. destruct (decide (k = k')) as [->|Hne].
    + split; [done | intros [? _]; done].
    + rewrite IH. split; [intros; split; done | intros [_ ?]; done].
Qed.

Lemma dkeys_dset_present k v d :
  k ∈ dkeys d -> dkeys (dset k v d) = dkeys d.
Proof.
  unfold dkeys. induction d as [|[k' v'] d IH]; simpl.
  - intros H. by apply elem_of_nil in H.
  - intros H. destruct (decide (k = k')) as [->|]; simpl; [done|].
    f_equal. apply IH. apply elem_of_cons in H as [?|?]; done.
Qed.

Lemma dkeys_dset_absent k v d :
  k ∉ dkeys d -> dkeys (dset k v d) = dkeys d ++ [k].
Proof.
  unfold dkeys. induction d as [|[k' v'] d IH]; simpl; [done|].
  rewrite not_elem_of_cons. intros [? ?].
  rewrite decide_False by done. simpl. f_equal. auto.
Qed.

Lemma dget_is_Some_keys k d : is_Some (dget k d) <-> k ∈ dkeys d.
Proof.
  split.
  - intros [v Hv]. destruct (decide (k ∈ dkeys d)) as [|Hn]; [done|].
    apply dget_None_keys in Hn. congruence.
  - intros Hin. destruct (dget k d) eqn:E; [by eexists|].
    apply dget_None_keys in E. done.
Qed.

Lemma dget_ddel_eq k d : NoDup (dkeys d) -> dget k (ddel k d) = None.
Proof.
  unfold dkeys. induction d as [|[k' v'] d IH]; simpl; [done|].
  intros Hnd. apply NoDup_cons in Hnd as [Hk' Hnd].
  destruct (decide (k = k')) as [->|Hne]; simpl.
  - by apply dget_None_keys.
  - rewrite decide_False by done. auto.
Qed.

Lemma dkeys_dset_subseteq k v d : dkeys d ⊆ dkeys (dset k v d).
Proof.
  destruct (decide (k ∈ dkeys d)) as [Hin|Hnin].
  - rewrite dkeys_dset_present by done. by intros x Hx.
  - rewrite dkeys_dset_absent by done. intros x Hx.
    apply elem_of_app. by left.
Qed.

Lemma dget_dset_is_Some k k' v d :
  is_Some (dget k' d) -> is_Some (dget k' (dset k v d)).
Proof.
  rewrite !dget_is_Some_keys. apply dkeys_dset_subseteq.
Qed.

Lemma dget_dset k k' v d :
  dget k' (dset k v d) = if decide (k = k') then Some v else dget k' d.
Proof.
  destruct (decide (k = k')) as [->|Hne].
  - apply dget_dset_eq.
  - by apply dget_dset_ne.
Qed.
End pydict_facts.

Section sorted_facts.
Context {A : Type} (le : A -> A -> bool).

Lemma insert_sorted_Permutation x l : insert_sorted le x l ≡ₚ x :: l.
Proof.
  induction l as [|y l IH]; simpl; [done|].
  destruct (le x y); [done|]. rewrite IH. apply Permutation_swap.
Qed.

Lemma sorted_Permutation l : sorted le l ≡ₚ l.
Proof.
  induction l as [|x l IH]; simpl; [done|].
  rewrite insert_sorted_Permutation. by rewrite IH.
Qed.

Lemma sorted_length l : length (sorted le l) = length l.
Proof. by rewrite sorted_Permutation. Qed.

Lemma sorted_elem_of x l : x ∈ sorted le l <-> x ∈ l.
Proof. by rewrite sorted_Permutation. Qed.
End sorted_facts.

(** A property of every step of an explicit list of steps. *)
Ltac forall_steps :=
  repeat (apply Forall_cons_2); [.. | apply Forall_nil_2].

(** ** The program store *)

Section store_facts.
Context {A : Type} (f : program -> option A).
Hypothesis f_empty : f empty_program = None.

Lemma keeps_field_refl cp ps : keeps_field f cp ps ps.
Proof. by split. Qed.

Lemma keeps_field_trans cp ps1 ps2 ps3 :
  keeps_field f cp ps1 ps2 -> keeps_field f cp ps2 ps3 -> keeps_field f cp ps1 ps3.
Proof. intros [E1 S1] [E2 S2]. split; [congruence | auto]. Qed.

Lemma keeps_upd_program cp cp' g ps :
  (forall p, f (g p) = f p) -> keeps_field f cp' ps (upd_program cp g ps).
Proof.
  intros Hg. unfold keeps_field, field_at, upd_program.
  destruct (decide (cp = cp')) as [->|Hne].
  - rewrite lookup_insert_eq. split; [|by eauto].
    simpl. rewrite Hg. by destruct (ps !! cp').
  - by rewrite lookup_insert_ne.
Qed.

Lemma keeps_store_field cp cp' g ps ps' :
  (forall p, f (g p) = f p) -> store_field cp g ps = Ok ps' ->
  keeps_field f cp' ps ps'.
Proof.
  intros Hg. unfold store_field, keeps_field, field_at.
  destruct (ps !! cp) as [p|] eqn:E; simpl; [|done]. intros [= <-].
  destruct (decide (cp = cp')) as [->|Hne].
  - rewrite lookup_insert_eq, E. simpl. split; [by rewrite Hg | by eauto].
  - by rewrite lookup_insert_ne.
Qed.

Lemma keeps_grid_field cp cp' setter v ps :
  (forall w p, f (setter w p) = f p) ->
  keeps_field f cp' ps (grid_field setter v cp ps).
Proof.
  intros Hg. unfold grid_field. destruct (Str.nonempty v).
  - by apply keeps_upd_program.
  - apply keeps_field_refl.
Qed.

Lemma keeps_try_steps cp steps ps :
  Forall (fun st => forall s s', st s = Ok s' -> keeps_field f cp s s') steps ->
  keeps_field f cp ps (try_steps steps ps).
Proof.
  intros Hall. revert ps. induction Hall as [|st steps Hst _ IH]; intros ps.
  - apply keeps_field_refl.
  - simpl. destruct (st ps) as [ps'|] eqn:E; [|apply keeps_field_refl].
    eapply keeps_field_trans; [by apply Hst | apply IH].
Qed.

Lemma keeps_overview_cast cp cp' l i ps :
  (forall k n j p, f (credit_set k n j p) = f p) ->
  (forall n c p, f (role_set n c p) = f p) ->
  keeps_field f cp' ps (overview_cast l i cp ps).
Proof.
  intros Hc Hr. revert i ps. induction l as [|c l IH]; intros i ps; simpl.
  - apply keeps_field_refl.
  - destruct (Str.nonempty (p_name c)); simpl; [|apply IH].
    eapply keeps_field_trans; [|apply IH].
    destruct (String.eqb _ _).
    + by apply keeps_upd_program.
    + destruct (Str.nonempty (p_characterName c)).
      * eapply keeps_field_trans; by apply keeps_upd_program.
      * by apply keeps_upd_program.
Qed.

Lemma keeps_overview_crew cp cp' l i ps :
  (forall k n j p, f (credit_set k n j p) = f p) ->
  keeps_field f cp' ps (overview_crew l i cp ps).
Proof.
  intros Hc. revert i ps. induction l as [|c l IH]; intros i ps; simpl.
  - apply keeps_field_refl.
  - destruct (Str.nonempty (p_name c)); simpl; [|apply IH].
    eapply keeps_field_trans; [|apply IH].
    repeat (destruct (Str.contains _ _);
            [by apply keeps_upd_program|]).
    apply keeps_field_refl.
Qed.

Lemma keeps_overview_genres cp cp' t ps :
  (forall v p, f (set_genres v p) = f p) ->
  keeps_field f cp' ps (overview_genres cp t ps).
Proof.
  intros Hg. unfold overview_genres.
  destruct (Str.nonempty _); [|apply keeps_field_refl].
  destruct (ps !! cp) as [p|] eqn:E; [|apply keeps_field_refl].
  destruct (genres p) as [gh|]; [|apply keeps_field_refl].
  unfold keeps_field, field_at.
  destruct (decide (cp = cp')) as [->|Hne].
  - rewrite lookup_insert_eq, E. simpl. split; [by rewrite Hg | by eauto].
  - by rewrite lookup_insert_ne.
Qed.

Lemma keeps_overview_image cp cp' t s s' :
  (forall v p, f (set_imageUrl v p) = f p) ->
  overview_image cp t s = Ok s' -> keeps_field f cp' s s'.
Proof.
  intros Hg. unfold overview_image. destruct (_ && _).
  - by apply keeps_store_field.
  - intros [= <-]. apply keeps_field_refl.
Qed.

Lemma keeps_overview_description cp cp' t s s' :
  (forall v p, f (set_description v p) = f p) ->
  overview_description cp t s = Ok s' -> keeps_field f cp' s s'.
Proof.
  intros Hg. unfold overview_description.
  destruct (_ || _); [|intros [= <-]; apply keeps_field_refl].
  destruct (_ && _).
  - by apply keeps_store_field.
  - intros [= <-]. apply keeps_field_refl.
Qed.

Lemma keeps_overview_originalAirDate cp cp' t s s' :
  (forall v p, f (set_originalAirDate v p) = f p) ->
  overview_originalAirDate cp t s = Ok s' -> keeps_field f cp' s s'.
Proof.
  intros Hg. unfold overview_originalAirDate.
  destruct (Str.startswith _ _); [|intros [= <-]; apply keeps_field_refl].
  destruct (matching_upcoming cp t).
  - by apply keeps_store_field.
  - intros [= <-]. apply keeps_field_refl.
Qed.

End store_facts.

Lemma store_field_present cp g ps p :
  ps !! cp = Some p -> store_field cp g ps = Ok (<[cp := g p]> ps).
Proof. intros E. unfold store_field. by rewrite E. Qed.

Lemma field_at_insert {A} (f : program -> option A) cp p ps :
  field_at f cp (<[cp := p]> ps) = f p.
Proof. unfold field_at. by rewrite lookup_insert_eq. Qed.

Lemma field_at_Some_inv {A} (f : program -> option A) cp ps v :
  field_at f cp ps = Some v -> exists p, ps !! cp = Some p /\ f p = Some v.
Proof.
  unfold field_at. destruct (ps !! cp) as [p|]; simpl; [eauto | done].
Qed.

(** The part of [parse_overview] that runs before the image, the
    description and the date keeps every field but the genres and the
    credits. *)
Lemma keeps_overview_head {A} (f : program -> option A) cp cp' t ps :
  f empty_program = None ->
  (forall k n j p, f (credit_set k n j p) = f p) ->
  (forall n c p, f (role_set n c p) = f p) ->
  (forall v p, f (set_genres v p) = f p) ->
  keeps_field f cp' ps
    (overview_crew (crew t) 1 cp
       (overview_cast (cast t) 1 cp (overview_genres cp t ps))).
Proof.
  intros He Hc Hr Hg.
  eapply keeps_field_trans; [|by apply keeps_overview_crew].
  eapply keeps_field_trans; [|by apply keeps_overview_cast].
  by apply keeps_overview_genres.
Qed.

(** ** Descriptions *)

(** What [parse_overview] leaves as the description of a movie or a
    show whose entry has one. *)
Lemma parse_overview_description cp t ps cur :
  Str.startswith "MV" cp || Str.startswith "SH" cp = true ->
  field_at description cp ps = Some cur ->
  field_at description cp (parse_overview cp t ps)
  = Some (if Str.nonempty (seriesDescription t)
             && (Str.len cur <? Str.len (seriesDescription t))
          then seriesDescription t else cur).
Proof.
  intros Hpre Hcur. unfold parse_overview.
  pose proof (keeps_overview_head description cp cp t ps
                ltac:(done) ltac:(done) ltac:(done) ltac:(done)) as [K _].
  set (ps1 := overview_crew _ _ _ _) in *.
  rewrite Hcur in K.
  apply field_at_Some_inv in K as K'. destruct K' as (p1 & E1 & D1).
  assert (exists ps2 p2, overview_image cp t ps1 = Ok ps2
                         /\ ps2 !! cp = Some p2 /\ description p2 = Some cur)
    as (ps2 & p2 & E2 & L2 & D2).
  { unfold overview_image. destruct (_ && _).
    - rewrite (store_field_present _ _ _ _ E1).
      eexists _, _. split; [done|]. by rewrite lookup_insert_eq.
    - by eexists _, _. }
  simpl. rewrite E2.
  assert (exists ps3,
            overview_description cp t ps2 = Ok ps3
            /\ field_at description cp ps3
               = Some (if Str.nonempty (seriesDescription t)
                          && (Str.len cur <? Str.len (seriesDescription t))
                       then seriesDescription t else cur))
    as (ps3 & E3 & D3).
  { unfold overview_description. rewrite Hpre, L2. simpl. rewrite D2. simpl.
    destruct (_ && _).
    - rewrite (store_field_present _ _ _ _ L2). eexists. split; [done|].
      by rewrite field_at_insert.
    - eexists. split; [done|]. unfold field_at. by rewrite L2. }
  rewrite E3.
  destruct (overview_originalAirDate cp t ps3) as [ps4|] eqn:E4; [|done].
  apply (keeps_overview_originalAirDate description cp cp) in E4 as [K4 _];
    [|done].
  by rewrite K4.
Qed.

Lemma grid_description_nonempty cp d ps :
  d ≠ EmptyString -> field_at description cp (grid_description d cp ps) = Some d.
Proof.
  intros Hd. unfold grid_description, grid_field.
  destruct d; [done|]. simpl. unfold upd_program. by rewrite field_at_insert.
Qed.

Lemma overview_candidates_longest cp ts :
  Str.startswith "MV" cp || Str.startswith "SH" cp = true ->
  forall ps cur (seen : list string),
    field_at description cp ps = Some cur -> cur ∈ seen ->
    (forall c, c ∈ seen -> Str.len c <= Str.len cur) ->
    exists f,
      field_at description cp (foldl (merge_desc cp) ps (OverviewDesc <$> ts))
      = Some f
      /\ f ∈ seen ++ (seriesDescription <$> ts)
      /\ forall c, c ∈ seen ++ (seriesDescription <$> ts) ->
           Str.len c <= Str.len f.
Proof.
  intros Hpre. induction ts as [|t ts IH]; intros ps cur seen Hcur Hin Hmax.
  - simpl. exists cur. rewrite app_nil_r. done.
  - simpl.
    pose proof (parse_overview_description cp t ps cur Hpre Hcur) as Hstep.
    set (cur' := if Str.nonempty (seriesDescription t) && _
                 then seriesDescription t else cur) in Hstep.
    destruct (IH (parse_overview cp t ps) cur' (seen ++ [seriesDescription t])
                Hstep) as (f & Hf & Hfin & Hfmax).
    + subst cur'. destruct (_ && _); apply elem_of_app.
      * right. apply list_elem_of_singleton. done.
      * by left.
    + intros c Hc. subst cur'.
      apply elem_of_app in Hc as [Hc | Hc%list_elem_of_singleton].
      * specialize (Hmax c Hc).
        destruct (Str.nonempty _); simpl; [|done].
        destruct (Z.ltb_spec (Str.len cur) (Str.len (seriesDescription t))); lia.
      * subst c. destruct (seriesDescription t) as [|a s] eqn:Esd.
        -- unfold Str.len. simpl. lia.
        -- rewrite <- Esd. replace (Str.nonempty (seriesDescription t)) with true
             by (by rewrite Esd).
           simpl.
           destruct (Z.ltb_spec (Str.len cur) (Str.len (seriesDescription t))); lia.
    + exists f. rewrite <- app_assoc in Hfin, Hfmax. done.
Qed.

(** What [parse_overview] leaves as the description of a program that
    has an entry, whatever its id: the description of the series when
    the id starts with MV or SH, the text is not empty and it is
    strictly longer than the stored one (a missing one counts as the
    empty string); the stored description in every other case. *)
Lemma parse_overview_description_rule cp t ps p :
  ps !! cp = Some p ->
  field_at description cp (parse_overview cp t ps)
  = if (Str.startswith "MV" cp || Str.startswith "SH" cp)
       && Str.nonempty (seriesDescription t)
       && (Str.len (default EmptyString (description p))
           <? Str.len (seriesDescription t))
    then Some (seriesDescription t) else description p.
Proof.
  intros Ep. unfold parse_overview.
  pose proof (keeps_overview_head description cp cp t ps
                ltac:(done) ltac:(done) ltac:(done) ltac:(done)) as [K Kp].
  set (ps1 := overview_crew _ _ _ _) in *.
  destruct Kp as [p1 E1]; [by eexists|].
  assert (D1 : description p1 = description p).
  { unfold field_at in K. by rewrite E1, Ep in K. }
  assert (exists ps2 p2, overview_image cp t ps1 = Ok ps2
                         /\ ps2 !! cp = Some p2
                         /\ description p2 = description p)
    as (ps2 & p2 & E2 & L2 & D2).
  { unfold overview_image. destruct (_ && _).
    - rewrite (store_field_present _ _ _ _ E1).
      eexists _, _. split; [done|]. by rewrite lookup_insert_eq.
    - by eexists _, _. }
  cbn [try_steps]. rewrite E2.
  set (res := if _ && _ && _ then Some (seriesDescription t)
              else description p).
  assert (exists ps3, overview_description cp t ps2 = Ok ps3
                      /\ field_at description cp ps3 = res)
    as (ps3 & E3 & D3).
  { unfold overview_description. subst res. rewrite L2. cbn [mbind option_bind].
    rewrite D2.
    destruct (Str.startswith "MV" cp || Str.startswith "SH" cp);
      cbn [andb].
    - destruct (_ && _).
      + rewrite (store_field_present _ _ _ _ L2). eexists. split; [done|].
        by rewrite field_at_insert.
      + eexists. split; [done|]. unfold field_at. by rewrite L2.
    - eexists. split; [done|]. unfold field_at. by rewrite L2. }
  rewrite E3.
  destruct (overview_originalAirDate cp t ps3) as [ps4|] eqn:E4; [|done].
  apply (keeps_overview_originalAirDate description cp cp) in E4 as [K4 _];
    [|done].
  by rewrite K4.
Qed.

(** For another id than a movie or a show, a stored description stays
    through any number of enrichment candidates. *)
Lemma overview_candidates_other cp ts :
  Str.startswith "MV" cp || Str.startswith "SH" cp = false ->
  forall ps cur,
    field_at description cp ps = Some cur ->
    field_at description cp (foldl (merge_desc cp) ps (OverviewDesc <$> ts))
    = Some cur.
Proof.
  intros Hpre. induction ts as [|t ts IH]; intros ps cur Hcur; [done|].
  cbn [fmap list_fmap foldl merge_desc]. apply IH.
  apply field_at_Some_inv in Hcur as (p & Ep & Dp).
  rewrite (parse_overview_description_rule cp t ps p Ep), Hpre. done.
Qed.

(** C1, as amended.  The grid rule, for every program id: a non-empty
    grid description replaces the stored description whatever the
    lengths, and an empty one changes nothing.  The enrichment rule, for
    every program that has an entry: the description of the series
    replaces the stored one only for an id starting with MV or SH and
    only when it is not empty and strictly longer; in every other case
    (another id, an equal length, a shorter text) the stored description
    stays.  Hence, after a grid description followed by any number of
    enrichment candidates, the stored description is the grid
    description for another id, and for MV or SH it is one of these
    candidates and none of them is longer. *)
Theorem description_merge_policy (cp : string) (ps : gmap string program)
    (d : string) (t : overview) (ts : list overview) :
  d ≠ EmptyString ->
  let mv_sh := Str.startswith "MV" cp || Str.startswith "SH" cp in
  let l := GridDesc d :: (OverviewDesc <$> ts) in
  field_at description cp (merge_desc cp ps (GridDesc d)) = Some d
  /\ merge_desc cp ps (GridDesc EmptyString) = ps
  /\ (forall p, ps !! cp = Some p ->
        field_at description cp (merge_desc cp ps (OverviewDesc t))
        = if mv_sh && Str.nonempty (seriesDescription t)
             && (Str.len (default EmptyString (description p))
                 <? Str.len (seriesDescription t))
          then Some (seriesDescription t) else description p)
  /\ (mv_sh = false ->
        field_at description cp (foldl (merge_desc cp) ps l) = Some d)
  /\ (mv_sh = true ->
        exists f,
          field_at description cp (foldl (merge_desc cp) ps l) = Some f
          /\ f ∈ candidate_text <$> l
          /\ forall c, c ∈ l -> Str.len (candidate_text c) <= Str.len f).
Proof.
  intros Hd mv_sh l. subst mv_sh l.
  pose proof (grid_description_nonempty cp d ps Hd) as Hg.
  split; [done|]. split; [done|]. split; [|split].
  - intros p Ep. cbn [merge_desc].
    apply (parse_overview_description_rule cp t ps p Ep).
  - intros Hpre. cbn [foldl].
    by apply (overview_candidates_other cp ts Hpre).
  - intros Hpre. simpl.
    destruct (overview_candidates_longest cp ts Hpre _ d [d] Hg)
      as (f & Hf & Hin & Hmax).
    + apply list_elem_of_singleton. done.
    + intros c ->%list_elem_of_singleton. lia.
    + exists f. split; [done|]. split.
      * simpl in Hin. rewrite <- list_fmap_compose. done.
      * intros c Hc. apply Hmax. simpl.
        apply elem_of_cons in Hc as [->|Hc]; [left|right].
        apply list_elem_of_fmap in Hc as (t' & -> & Ht). simpl.
        apply list_elem_of_fmap. eauto.
Qed.

Lemma description_merge_policy_witness :
  "ten chars." ≠ EmptyString
  /\ (exists f,
        field_at description "MV0012345678"
          (foldl (merge_desc "MV0012345678") ∅
             [GridDesc "ten chars.";
              OverviewDesc (mkOverview "" [] [] "" "twenty characters ok"
                              (mkUpcoming "" "") [])]) = Some f
        /\ Str.len f = 20)
  /\ field_at description "EP0012345678"
       (foldl (merge_desc "EP0012345678") ∅
          [GridDesc "ten chars.";
           OverviewDesc (mkOverview "" [] [] "" "twenty characters ok"
                           (mkUpcoming "" "") [])]) = Some "ten chars.".
Proof.
  assert (H2 : "ten chars." ≠ EmptyString) by discriminate.
  split; [exact H2|].
  set (t := mkOverview "" [] [] "" "twenty characters ok" (mkUpcoming "" "") []).
  split.
  - destruct (description_merge_policy "MV0012345678" ∅ "ten chars." t [t] H2)
      as (_ & _ & _ & _ & Hmv).
    destruct (Hmv eq_refl) as (f & Hf & Hin & Hmax).
    exists f. split; [exact Hf|].
    simpl in Hin.
    apply elem_of_cons in Hin as [->|Hin].
    + specialize (Hmax (OverviewDesc t)).
      simpl in Hmax. unfold Str.len in Hmax. simpl in Hmax.
      exfalso. assert (20 <= 10) by (apply Hmax; right; left). lia.
    + apply list_elem_of_singleton in Hin as ->. reflexivity.
  - destruct (description_merge_policy "EP0012345678" ∅ "ten chars." t [t] H2)
      as (_ & _ & _ & Hother & _).
    exact (Hother eq_refl).
Defined.

(** C1, as the specification words it, fails on two grid candidates:
    the text of length 20 arrives first, the text of length 10 second,
    and the text of length 10 is what stays. *)
Lemma description_longest_fails :
  ~ longest_description_wins "SH0012345678"
      [GridDesc "twenty characters ok"; GridDesc "ten chars."].
Proof.
  intros H.
  specialize (H "ten chars." (GridDesc "twenty characters ok")).
  assert (Str.len "twenty characters ok" <= Str.len "ten chars.") as Hle.
  { apply H; [vm_compute; reflexivity | left]. }
  vm_compute in Hle. by apply Hle.
Qed.

(** ** Original air dates *)

Lemma ue_matches_spec cp ue :
  ue_matches cp ue = true ->
  Str.lower (u_tmsID ue) = Str.lower cp
  /\ u_originalAirDate ue ≠ EmptyString
  /\ u_originalAirDate ue ≠ sentinel_date.
Proof.
  unfold ue_matches. intros H.
  apply andb_prop in H as [H H3]. apply andb_prop in H as [H1 H2].
  apply String.eqb_eq in H1.
  apply negb_true_iff, String.eqb_neq in H2.
  apply negb_true_iff, String.eqb_neq in H3. done.
Qed.

Lemma matching_upcoming_spec cp t ue :
  matching_upcoming cp t = Some ue ->
  ue_matches cp ue = true
  /\ (ue = upcomingEpisode t \/ ue ∈ upcomingEpisodeTab t).
Proof.
  unfold matching_upcoming.
  destruct (ue_matches cp (upcomingEpisode t)) eqn:E.
  - intros [= <-]. auto.
  - intros Hf. apply find_some in Hf as [Hin Hm]. split; [done|].
    right. by apply list_elem_of_In.
Qed.

Lemma overview_image_present cp t ps :
  is_Some (ps !! cp) -> exists ps', overview_image cp t ps = Ok ps'.
Proof.
  intros [p E]. unfold overview_image. destruct (_ && _); [|by eauto].
  rewrite (store_field_present _ _ _ _ E). by eauto.
Qed.

Lemma overview_description_present cp t ps :
  is_Some (ps !! cp) -> exists ps', overview_description cp t ps = Ok ps'.
Proof.
  intros [p E]. unfold overview_description.
  destruct (_ || _); [|by eauto]. destruct (_ && _); [|by eauto].
  rewrite (store_field_present _ _ _ _ E). by eauto.
Qed.

(** What [parse_overview] leaves as the original air date of a program
    whose entry exists. *)
Lemma parse_overview_originalAirDate cp t ps p :
  ps !! cp = Some p ->
  field_at originalAirDate cp (parse_overview cp t ps)
  = if Str.startswith "EP" cp then
      match matching_upcoming cp t with
      | Some ue => Some (str2time2 (u_originalAirDate ue) * 1000)
      | None => originalAirDate p
      end
    else originalAirDate p.
Proof.
  intros E. unfold parse_overview.
  pose proof (keeps_overview_head originalAirDate cp cp t ps
                ltac:(done) ltac:(done) ltac:(done) ltac:(done)) as K1.
  set (ps1 := overview_crew _ _ _ _) in *.
  destruct (overview_image_present cp t ps1) as [ps2 E2].
  { apply K1. by eauto. }
  pose proof (keeps_overview_image originalAirDate cp cp t ps1 ps2
                ltac:(done) E2) as K2.
  destruct (overview_description_present cp t ps2) as [ps3 E3].
  { apply K2, K1. by eauto. }
  pose proof (keeps_overview_description originalAirDate cp cp t
                ps2 ps3 ltac:(done) E3) as K3.
  pose proof (keeps_field_trans _ _ _ _ _
                (keeps_field_trans _ _ _ _ _ K1 K2) K3) as [K S].
  simpl. rewrite E2, E3.
  assert (field_at originalAirDate cp ps3 = originalAirDate p) as K'.
  { rewrite K. unfold field_at. by rewrite E. }
  destruct S as [p3 E3']; [by eauto|].
  unfold overview_originalAirDate.
  destruct (Str.startswith "EP" cp); [|done].
  destruct (matching_upcoming cp t) as [ue|]; [|done].
  rewrite (store_field_present _ _ _ _ E3'). by rewrite field_at_insert.
Qed.

Lemma set_original_air_date_min cp sch ps p :
  ps !! cp = Some p ->
  is_episode_show_movie cp = true -> 10 <= Str.len cp ->
  Str.slice 10 14 cp ≠ "0000" ->
  field_at originalAirDate cp (set_original_air_date cp sch ps)
  = Some (match originalAirDate p with
          | Some old => Z.min old sch
          | None => sch
          end).
Proof.
  intros E Hk Hl Hs. unfold set_original_air_date.
  rewrite Hk. simpl.
  destruct (Z.ltb_spec (Str.len cp) 10) as [|_]; [lia|]. simpl.
  destruct (String.eqb_spec (Str.slice 10 14 cp) "0000") as [|_]; [done|].
  rewrite E. simpl. unfold upd_program.
  destruct (originalAirDate p) as [old|] eqn:Eo.
  - destruct (Z.ltb_spec sch old).
    + rewrite field_at_insert. simpl. f_equal. lia.
    + unfold field_at. rewrite E. simpl. rewrite Eo. f_equal. lia.
  - by rewrite field_at_insert.
Qed.

(** C6, as amended.  During the enrichment of a program whose id starts
    with EP the original air date is taken only from an upcoming-episode
    sub-record whose id matches the program id without regard to case
    and whose date is neither empty nor the sentinel; the value taken
    replaces whatever was stored, without comparing the two.  The
    earliest value wins only in [set_original_air_date], the backfill
    from airings flagged new or live. *)
Theorem air_date_enrichment (cp : string) (t : overview)
    (ps : gmap string program) (p : program) (sch : Z) :
  ps !! cp = Some p ->
  (field_at originalAirDate cp (parse_overview cp t ps)
   = if Str.startswith "EP" cp then
       match matching_upcoming cp t with
       | Some ue => Some (str2time2 (u_originalAirDate ue) * 1000)
       | None => originalAirDate p
       end
     else originalAirDate p)
  /\ (forall ue, matching_upcoming cp t = Some ue ->
        Str.lower (u_tmsID ue) = Str.lower cp
        /\ u_originalAirDate ue ≠ EmptyString
        /\ u_originalAirDate ue ≠ sentinel_date
        /\ (ue = upcomingEpisode t \/ ue ∈ upcomingEpisodeTab t))
  /\ (is_episode_show_movie cp = true -> 10 <= Str.len cp ->
      Str.slice 10 14 cp ≠ "0000" ->
      field_at originalAirDate cp (set_original_air_date cp sch ps)
      = Some (match originalAirDate p with
              | Some old => Z.min old sch
              | None => sch
              end)).
Proof.
  intros E. split; [by apply parse_overview_originalAirDate|]. split.
  - intros ue [Hm Hin]%matching_upcoming_spec.
    apply ue_matches_spec in Hm as (? & ? & ?). done.
  - by apply set_original_air_date_min.
Qed.

Lemma air_date_enrichment_witness :
  let cp := "EP012345670001" in
  let t := mkOverview "" [] [] "" ""
             (mkUpcoming "ep012345670001" "2020-01-01T00:00Z") [] in
  let p := set_originalAirDate 1000 empty_program in
  ({[cp := p]} : gmap string program) !! cp = Some p
  /\ field_at originalAirDate cp (parse_overview cp t {[cp := p]})
     = Some 1577836800000.
Proof.
  intros cp t p.
  assert (H : ({[cp := p]} : gmap string program) !! cp = Some p)
    by apply lookup_singleton_eq.
  split; [exact H|].
  destruct (air_date_enrichment cp t {[cp := p]} p 0 H) as [Hv _].
  rewrite Hv. reflexivity.
Defined.

(** C6, as the specification words it, fails: the stored date 1000 is
    earlier than the date of the matching sub-record, and the enrichment
    replaces it all the same. *)
Lemma air_date_earliest_fails :
  ~ earliest_air_date_wins "EP012345670001"
      (mkOverview "" [] [] "" ""
         (mkUpcoming "ep012345670001" "2020-01-01T00:00Z") [])
      {["EP012345670001" := set_originalAirDate 1000 empty_program]}.
Proof.
  intros H.
  specialize (H 1000 1577836800000).
  assert (1577836800000 <= 1000) as Hle.
  { apply H; vm_compute; reflexivity. }
  lia.
Qed.

(** ** Ratings *)

(** An observation that carries no rating leaves the rating alone. *)
Lemma merge_rating_none cp ps o :
  carried o = None -> keeps_field rating cp ps (merge_rating cp ps o).
Proof.
  destruct o as [t r|d]; simpl; intros Hc.
  - unfold grid_rating, grid_field. destruct (Str.nonempty r); [done|].
    by apply keeps_upd_program.
  - unfold parse_tvg_details. apply keeps_try_steps.
    forall_steps; intros s s'.
    + unfold details_year. destruct (d_release_year d).
      * by apply keeps_store_field.
      * intros [= <-]. apply keeps_field_refl.
    + unfold details_rating. rewrite Hc. intros [= <-]. apply keeps_field_refl.
    + unfold details_photos. destruct (_ ≫= _).
      * by apply keeps_store_field.
      * intros [= <-]. apply keeps_field_refl.
Qed.

Lemma merge_rating_none_all cp l :
  Forall (fun o => carried o = None) l ->
  forall ps, keeps_field rating cp ps (foldl (merge_rating cp) ps l).
Proof.
  induction 1 as [|o l Ho _ IH]; intros ps; simpl.
  - apply keeps_field_refl.
  - eapply keeps_field_trans; [by apply merge_rating_none | apply IH].
Qed.

(** A grid event with a rating stores it, whatever was stored. *)
Lemma merge_rating_grid cp ps t r :
  Str.nonempty r = true ->
  field_at rating cp (merge_rating cp ps (GridObs t r)) = Some r.
Proof.
  intros Hr. simpl. unfold grid_rating, grid_field, upd_program.
  rewrite Hr. by rewrite field_at_insert.
Qed.

(** A detail payload with a rating other than 'NR' stores it when the
    entry is there without a rating. *)
Lemma merge_rating_detail cp ps p d r :
  ps !! cp = Some p -> rating p = None -> d_rating d = Some r -> r ≠ "NR" ->
  field_at rating cp (merge_rating cp ps (DetailObs d)) = Some r.
Proof.
  intros E Hn Hd Hr. simpl. unfold parse_tvg_details. simpl.
  assert (exists ps1 p1, details_year cp d ps = Ok ps1
                         /\ ps1 !! cp = Some p1 /\ rating p1 = None)
    as (ps1 & p1 & E1 & L1 & R1).
  { unfold details_year. destruct (d_release_year d).
    - rewrite (store_field_present _ _ _ _ E). eexists _, _.
      split; [done|]. by rewrite lookup_insert_eq.
    - by eexists _, _. }
  rewrite E1.
  assert (details_rating cp d ps1 = Ok (<[cp := set_rating r p1]> ps1)) as E2.
  { unfold details_rating. rewrite Hd, L1. simpl. rewrite R1.
    by destruct (String.eqb_spec r "NR"). }
  rewrite E2.
  destruct (details_photos cp d _) as [ps3|] eqn:E3.
  - unfold details_photos in E3. destruct (_ ≫= _).
    + apply (keeps_store_field rating cp cp) in E3 as [K _]; [|done].
      rewrite K. by rewrite field_at_insert.
    + injection E3 as <-. by rewrite field_at_insert.
  - by rewrite field_at_insert.
Qed.

Lemma sole_rating_Permutation l1 l2 r :
  l1 ≡ₚ l2 -> sole_rating l1 r -> sole_rating l2 r.
Proof.
  intros Hp (Hr & a & o & b & -> & Hc & Hall). split; [done|].
  assert (o ∈ l2) as Hin.
  { rewrite <- Hp. apply elem_of_app. right. left. }
  apply list_elem_of_split in Hin as (a' & b' & ->).
  exists a', o, b'. split; [done|]. split; [done|].
  rewrite <- !Permutation_middle in Hp. apply Permutation_cons_inv in Hp.
  by rewrite <- Hp.
Qed.

Lemma detail_accepted_Permutation cp ps l1 l2 r :
  l1 ≡ₚ l2 -> detail_accepted cp ps l1 r -> detail_accepted cp ps l2 r.
Proof.
  intros Hp H d Hin. apply H. by rewrite Hp.
Qed.

Lemma sole_rating_merge cp ps l r :
  sole_rating l r -> detail_accepted cp ps l r ->
  field_at rating cp (foldl (merge_rating cp) ps l) = Some r.
Proof.
  intros (Hr & a & o & b & -> & Hc & Hall) Hacc.
  apply Forall_app in Hall as [Ha Hb].
  rewrite foldl_app. simpl.
  pose proof (merge_rating_none_all cp a Ha ps) as [Ka Sa].
  set (ps1 := foldl (merge_rating cp) ps a) in *.
  pose proof (merge_rating_none_all cp b Hb (merge_rating cp ps1 o)) as [Kb _].
  rewrite Kb. destruct o as [t r'|d].
  - simpl in Hc. destruct (Str.nonempty r') eqn:En; [|done].
    injection Hc as ->. by apply merge_rating_grid.
  - simpl in Hc.
    destruct (Hacc d) as (Hnr & p & E & Rn); [|done|].
    { apply elem_of_app. right. left. }
    destruct Sa as [p1 E1]; [by eauto|].
    apply (merge_rating_detail cp ps1 p1 d r); try done.
    unfold field_at in Ka. rewrite E1, E in Ka. simpl in Ka. congruence.
Qed.

(** C8, as amended.  For two observation sequences of one program id
    that are permutations of each other and in which exactly one
    observation carries a rating value, a non-empty one, merging either
    sequence leaves that rating, provided that, when the carrier is a
    detail payload, the value is not 'NR' and the program is in the
    store without a rating beforehand.  A grid event that carries the
    rating needs no proviso. *)
Theorem rating_merge_order_independent (cp : string)
    (ps : gmap string program) (l1 l2 : list rating_obs) (r : string) :
  l1 ≡ₚ l2 -> sole_rating l1 r -> detail_accepted cp ps l1 r ->
  field_at rating cp (foldl (merge_rating cp) ps l1) = Some r
  /\ field_at rating cp (foldl (merge_rating cp) ps l2) = Some r.
Proof.
  intros Hp Hs Ha. split.
  - by apply sole_rating_merge.
  - apply sole_rating_merge.
    + by apply (sole_rating_Permutation l1).
    + by apply (detail_accepted_Permutation cp ps l1).
Qed.

Lemma rating_merge_order_independent_witness :
  let l1 := [GridObs "News" ""; GridObs "News" "TV-14";
             DetailObs (mkTvgDetails None None None)] in
  let l2 := [DetailObs (mkTvgDetails None None None); GridObs "News" "TV-14";
             GridObs "News" ""] in
  l1 ≡ₚ l2 /\ sole_rating l1 "TV-14"
  /\ detail_accepted "EP012345670001" ∅ l1 "TV-14"
  /\ field_at rating "EP012345670001"
       (foldl (merge_rating "EP012345670001") ∅ l1) = Some "TV-14"
  /\ field_at rating "EP012345670001"
       (foldl (merge_rating "EP012345670001") ∅ l2) = Some "TV-14".
Proof.
  intros l1 l2.
  assert (Hp : l1 ≡ₚ l2).
  { subst l1 l2. etransitivity; [apply Permutation_swap|].
    etransitivity; [apply perm_skip, Permutation_swap|].
    apply Permutation_swap. }
  assert (Hs : sole_rating l1 "TV-14").
  { split; [discriminate|].
    exists [GridObs "News" ""], (GridObs "News" "TV-14"),
      [DetailObs (mkTvgDetails None None None)].
    split; [reflexivity|]. split; [reflexivity|].
    repeat constructor. }
  assert (Ha : detail_accepted "EP012345670001" ∅ l1 "TV-14").
  { intros d Hin Hd. exfalso. subst l1.
    repeat (apply elem_of_cons in Hin as [Hin|Hin]; [try discriminate|]).
    - injection Hin as ->. discriminate.
    - by apply elem_of_nil in Hin. }
  split; [exact Hp|]. split; [exact Hs|]. split; [exact Ha|].
  exact (rating_merge_order_independent "EP012345670001" ∅ l1 l2 "TV-14"
           Hp Hs Ha).
Defined.

(** C8, as the specification words it, fails: the only rating value of
    the sequence is the 'NR' of a detail payload, and no rating is
    stored. *)
Lemma rating_sole_fails :
  ~ sole_rating_wins "EP012345670001" ∅
      [GridObs "News" ""; DetailObs (mkTvgDetails None (Some "NR") None)]
      [GridObs "News" ""; DetailObs (mkTvgDetails None (Some "NR") None)]
      "NR".
Proof.
  intros H. destruct H as [H1 _].
  - reflexivity.
  - split; [discriminate|].
    exists [GridObs "News" ""], (DetailObs (mkTvgDetails None (Some "NR") None)), [].
    split; [reflexivity|]. split; [reflexivity|]. repeat constructor.
  - vm_compute in H1. discriminate.
Qed.

(** ** Genres *)

(** A genre added from the series gets a rank from the counter on; a
    genre already there keeps its rank. *)
Lemma add_series_genres_rank sgs : forall i gh sg r,
  dget sg (add_series_genres sgs i gh) = Some r ->
  dget sg gh = Some r \/ (dget sg gh = None /\ i <= r).
Proof.
  induction sgs as [|g sgs IH]; intros i gh sg r; simpl; [auto|].
  unfold dmem. destruct (dget (Str.lower g) gh) as [v|] eqn:E.
  - apply IH.
  - intros H. apply IH in H as [H|[H Hle]].
    + rewrite dget_dset in H. destruct (decide (Str.lower g = sg)) as [<-|].
      * injection H as <-. right. split; [done|lia].
      * by left.
    + rewrite dget_dset in H. destruct (decide (Str.lower g = sg)); [done|].
      right. split; [done|lia].
Qed.

(** C9.  A program whose genres are news and family, both of rank 1, is
    enriched with the series genre drama: drama gets rank 2, above the
    highest rank in use, and the genres sorted by rank, then name, as
    the renderer writes them, are family, news, drama. *)
Theorem genre_order_after_enrichment (cp : string) (ps : gmap string program)
    (p : program) (t : overview) :
  ps !! cp = Some p ->
  genres p = Some [("news", 1); ("family", 1)] ->
  seriesGenres t = "drama" ->
  field_at genres cp (parse_overview cp t ps)
  = Some [("news", 1); ("family", 1); ("drama", 2)]
  /\ max_rank [("news", 1); ("family", 1)] < 2
  /\ sorted_genres <$> field_at genres cp (parse_overview cp t ps)
     = Some ["family"; "news"; "drama"].
Proof.
  intros E Hg Ht.
  assert (field_at genres cp (parse_overview cp t ps)
          = Some [("news", 1); ("family", 1); ("drama", 2)]) as H.
  { unfold parse_overview.
    assert (keeps_field genres cp (overview_genres cp t ps)
              (try_steps [overview_image cp t; overview_description cp t;
                          overview_originalAirDate cp t]
                 (overview_crew (crew t) 1 cp
                    (overview_cast (cast t) 1 cp (overview_genres cp t ps)))))
      as [K _].
    { eapply keeps_field_trans; [by apply keeps_overview_cast|].
      eapply keeps_field_trans; [by apply keeps_overview_crew|].
      apply keeps_try_steps. forall_steps; intros s s'.
      - by apply keeps_overview_image.
      - by apply keeps_overview_description.
      - by apply keeps_overview_originalAirDate. }
    rewrite K. unfold overview_genres. rewrite Ht, E, Hg. simpl.
    by rewrite field_at_insert. }
  split; [done|]. split; [reflexivity|]. rewrite H. reflexivity.
Qed.

Lemma genre_order_after_enrichment_witness :
  let cp := "SH012345670000" in
  let p := set_genres [("news", 1); ("family", 1)] empty_program in
  let t := mkOverview "drama" [] [] "" "" (mkUpcoming "" "") [] in
  ({[cp := p]} : gmap string program) !! cp = Some p
  /\ sorted_genres <$> field_at genres cp (parse_overview cp t {[cp := p]})
     = Some ["family"; "news"; "drama"].
Proof.
  intros cp p t.
  assert (H : ({[cp := p]} : gmap string program) !! cp = Some p)
    by apply lookup_singleton_eq.
  split; [exact H|].
  exact (proj2 (proj2 (genre_order_after_enrichment cp {[cp := p]} p t H
                         eq_refl eq_refl))).
Defined.

(** ** Timestamps and the schedule of a grid event *)

Lemma run_steps_app {S} (l1 l2 : list (S -> S)) s :
  run_steps (l1 ++ l2) s = run_steps l2 (run_steps l1 s).
Proof. apply foldl_app. Qed.

Lemma run_steps_preserve {S} (P : S -> Prop) (steps : list (S -> S)) :
  Forall (fun f => forall s, P s -> P (f s)) steps ->
  forall s, P s -> P (run_steps steps s).
Proof.
  induction 1 as [|f steps Hf _ IH]; intros s Hs; [done|].
  apply IH, Hf, Hs.
Qed.

Section event_facts.
Variable json_overview : string -> option overview.

Lemma schedule_post_json_overview cp sid z :
  schedule (post_json_overview json_overview cp sid z)
  = schedule z.
Proof.
  unfold post_json_overview. repeat case_match; reflexivity.
Qed.

Lemma airing_at_sched_upd cs k cp g sch :
  (forall a, time (g a) = time a /\ a_program (g a) = a_program a
             /\ a_station (g a) = a_station a) ->
  airing_at cs k cp sch -> airing_at cs k cp (sched_upd cs k g sch).
Proof.
  intros Hg (a & Ha & Ht & Hp & Hs). unfold sched_upd. rewrite Ha.
  exists (g a). unfold sched_set. rewrite dget_dset_eq. simpl.
  rewrite dget_dset_eq. destruct (Hg a) as (-> & -> & ->). done.
Qed.

Lemma airing_at_sched_set cs k a sch :
  time a = k -> a_station a = cs ->
  airing_at cs k (a_program a) (sched_set cs k a sch).
Proof.
  intros Ht Hs. exists a. unfold sched_set. rewrite dget_dset_eq. simpl.
  by rewrite dget_dset_eq.
Qed.

(** The steps that follow the schedule entry of an event leave its
    start, program and station as they are. *)
Lemma event_steps_keep_airing cs e z :
  let cp := j_id (e_program e) in
  let k := str2time1 (e_startTime e) * 1000 in
  airing_at cs k cp
    (schedule (run_steps (event_steps json_overview cs e) z)).
Proof.
  intros cp k.
  change (event_steps json_overview cs e)
    with (take 11 (event_steps json_overview cs e)
          ++ drop 11 (event_steps json_overview cs e)).
  rewrite run_steps_app.
  apply (run_steps_preserve (fun z => airing_at cs k cp (schedule z))).
  - cbn [drop event_steps grid_steps app]. forall_steps; intros s Hs; simpl;
      repeat case_match; simpl;
      rewrite ?schedule_post_json_overview;
      try done; by apply airing_at_sched_upd.
  - change (take 11 (event_steps json_overview cs e))
      with (take 10 (event_steps json_overview cs e)
            ++ [on_schedule (sched_set cs k (new_airing cs cp e))]).
    rewrite run_steps_app.
    set (z10 := run_steps (take 10 _) z).
    unfold run_steps. simpl.
    by apply (airing_at_sched_set cs k (new_airing cs cp e)).
Qed.

(** C10.  [str2time1] returns a number for every string: the timestamp
    when the string has the format and names a date, and 0 otherwise,
    as for the empty string.  An event that has a program id and a
    start time that does not parse is recorded for its station as an
    airing under the key 0, with start 0. *)
Theorem malformed_start_time_recorded (cs : string) (e : json_event)
    (z : zap) (err : exn) :
  Str.nonempty (j_id (e_program e)) = true ->
  Time.strptime Time.fmt_seconds (e_startTime e) = Exn err ->
  (forall s, (exists dt, Time.strptime Time.fmt_seconds s = Ok dt
                         /\ str2time1 s = Time.timestamp dt)
             \/ ((exists x, Time.strptime Time.fmt_seconds s = Exn x)
                 /\ str2time1 s = 0))
  /\ str2time1 EmptyString = 0
  /\ str2time1 (e_startTime e) = 0
  /\ airing_at cs 0 (j_id (e_program e))
       (schedule (parse_event json_overview cs e z)).
Proof.
  intros Hid Hbad.
  assert (str2time1 (e_startTime e) = 0) as H0.
  { unfold str2time1. by rewrite Hbad. }
  split; [|split; [reflexivity|split; [exact H0|]]].
  - intros s. unfold str2time1.
    destruct (Time.strptime Time.fmt_seconds s) as [dt|x]; [left|right]; eauto.
  - unfold parse_event. rewrite Hid.
    pose proof (event_steps_keep_airing cs e z) as H. cbv zeta in H.
    rewrite H0 in H. exact H.
Qed.

End event_facts.

Lemma malformed_start_time_recorded_witness :
  let e := mkJsonEvent
             (mkJsonProgram "EP012345670001" "News" "" "" "" "" "" "" "" true)
             30 "" "" "1970-01-01T00:30:00Z" [] "" [] [] in
  Str.nonempty (j_id (e_program e)) = true
  /\ Time.strptime Time.fmt_seconds (e_startTime e) = Exn ValueError
  /\ airing_at "5.123" 0 "EP012345670001"
       (schedule (parse_event no_overview_json "5.123" e
                    (initial_zap default_options))).
Proof.
  intros e.
  assert (H1 : Str.nonempty (j_id (e_program e)) = true) by reflexivity.
  assert (H2 : Time.strptime Time.fmt_seconds (e_startTime e) = Exn ValueError)
    by reflexivity.
  split; [exact H1|]. split; [exact H2|].
  exact (proj2 (proj2 (proj2
    (malformed_start_time_recorded no_overview_json
       "5.123" e (initial_zap default_options) ValueError H1 H2)))).
Defined.

(** ** The schedules section of the alternate document *)

Lemma schedules_loop_unfold fuel z station key_array i d out :
  schedules_loop (S fuel) z station key_array i d out
  = if bool_decide (i < length key_array)%nat then
      s <~~ lift (match key_array !! i with
                  | Some s => Ok s
                  | None => Exn IndexError
                  end) ;;
      if bool_decide (i = length key_array - 1)%nat then
        if dmem s d
        then schedules_loop fuel z station key_array i (ddel s d) out
        else Raised KeyError
      else
        a <~~ lift (subscript (dget s d)) ;;
        nxt <~~ lift (match key_array !! S i with
                      | Some k => Ok k
                      | None => Exn IndexError
                      end) ;;
        b <~~ lift (subscript (dget nxt d)) ;;
        Raised AttributeError
    else Done (d, out).
Proof. reflexivity. Qed.

(** With two keys or more, the first pass finds its entry and the next
    one and stops at the missing method. *)
Lemma schedules_loop_first_pass z station key_array d out fuel :
  (forall k, k ∈ key_array -> is_Some (dget k d)) ->
  (2 <= length key_array)%nat ->
  schedules_loop (S fuel) z station key_array 0 d out = Raised AttributeError.
Proof.
  intros Hkeys Hlen.
  destruct (lookup_lt_is_Some_2 key_array 0) as [s Es]; [lia|].
  destruct (lookup_lt_is_Some_2 key_array 1) as [nxt En]; [lia|].
  assert (is_Some (dget s d)) as [a Ea].
  { apply Hkeys. by eapply list_elem_of_lookup_2. }
  assert (is_Some (dget nxt d)) as [b Eb].
  { apply Hkeys. by eapply list_elem_of_lookup_2. }
  rewrite schedules_loop_unfold.
  rewrite bool_decide_eq_true_2 by lia. rewrite Es. cbn [lift obind].
  rewrite bool_decide_eq_false_2 by lia.
  rewrite Ea, En. cbn [lift obind subscript]. by rewrite Eb.
Qed.

(** With one key, the first pass deletes it and the second pass, on the
    same index, deletes it again. *)
Lemma schedules_loop_one_key z station k (a : airing) out fuel :
  schedules_loop (S (S fuel)) z station [k] 0 [(k, a)] out = Raised KeyError.
Proof.
  rewrite schedules_loop_unfold.
  rewrite bool_decide_eq_true_2 by (simpl; lia). cbn [lookup list_lookup lift obind].
  rewrite bool_decide_eq_true_2 by (simpl; lia).
  assert (dmem k [(k, a)] = true) as ->.
  { unfold dmem. cbn [dget]. by rewrite decide_True. }
  assert (ddel k [(k, a)] = []) as ->.
  { cbn [ddel]. by rewrite decide_True. }
  rewrite schedules_loop_unfold.
  rewrite bool_decide_eq_true_2 by (simpl; lia). cbn [lookup list_lookup lift obind].
  by rewrite bool_decide_eq_true_2 by (simpl; lia).
Qed.

(** C3, which the code does not meet.  For every station with at least
    one airing the schedules loop of the alternate document does not
    end normally, and it writes no record.  With two airings or more
    the first pass calls [self.conv_duration_xtvd], a method that the
    class does not have: [AttributeError].  With one airing the key is
    deleted, the index is not advanced, and the next pass deletes the
    same key again: [KeyError].  Two units of fuel show both. *)
Theorem xtvd_schedules_raise (z : zap) (station : string)
    (d : pydict Z airing) (fuel : nat) :
  d ≠ [] -> (2 <= fuel)%nat ->
  print_schedules_station fuel z station d
  = Raised (if bool_decide (length d = 1%nat) then KeyError
            else AttributeError).
Proof.
  intros Hne Hf. unfold print_schedules_station.
  assert (length (key_array_xtvd d) = length d) as Hlen.
  { unfold key_array_xtvd, dkeys. by rewrite sorted_length, length_fmap. }
  destruct fuel as [|[|fuel]]; [lia|lia|].
  destruct d as [|[k a] d]; [done|]. destruct d as [|x d].
  - rewrite bool_decide_eq_true_2 by done.
    change (key_array_xtvd [(k, a)]) with [k].
    apply schedules_loop_one_key.
  - rewrite bool_decide_eq_false_2 by (simpl; lia).
    apply schedules_loop_first_pass.
    + intros k' Hk. apply dget_is_Some_keys.
      unfold key_array_xtvd in Hk. by apply sorted_elem_of in Hk.
    + rewrite Hlen. simpl. lia.
Qed.

Lemma xtvd_schedules_raise_witness :
  let a := mkAiring 100 None (Some 200) "EP012345670001" "5.123"
             false false false false false in
  let b := mkAiring 300 None (Some 400) "EP012345670002" "5.123"
             false false false false false in
  [(100, a); (300, b)] ≠ [] /\ (2 <= 2)%nat
  /\ print_schedules_station 2 (initial_zap default_options) "5.123"
       [(100, a); (300, b)]
     = Raised AttributeError.
Proof.
  intros a b.
  assert (H1 : [(100, a); (300, b)] ≠ []) by discriminate.
  assert (H2 : (2 <= 2)%nat) by lia.
  split; [exact H1|]. split; [exact H2|].
  exact (xtvd_schedules_raise (initial_zap default_options) "5.123"
           [(100, a); (300, b)] 2 H1 H2).
Defined.

(** ** The programmes of the default document *)

Lemma station_to_channel_present z s :
  is_Some (dget s (stations z)) -> exists c, station_to_channel z s = Ok c.
Proof.
  intros [st E]. unfold station_to_channel. rewrite E. simpl. by eauto.
Qed.

(** The loop over the keys of one station writes what gap filling on
    the key 'endtime' describes, given that the station and the program
    of every airing are known and that the episode numbers of the
    program can be written. *)
Lemma programmes_loop_assemble z keys : forall d out,
  (forall k, k ∈ keys -> exists a, dget k d = Some a
     /\ is_Some (dget (a_station a) (stations z))
     /\ program_renders z (a_program a)) ->
  exists d' out',
    programmes_loop z keys d out = Ok (d', out ++ out')
    /\ (fun pr => (pr_start pr, pr_stop pr)) <$> out'
       = assemble (omap (fun k => dget k d) keys)
    /\ d' ⊆ d.
Proof.
  induction keys as [|s rest IH]; intros d out Hk.
  - exists d, []. simpl. by rewrite app_nil_r.
  - destruct (Hk s) as (a & Ea & Hst & Hpr); [left|].
    assert (forall k, k ∈ rest -> exists a, dget k d = Some a
              /\ is_Some (dget (a_station a) (stations z))
              /\ program_renders z (a_program a)) as Hrest.
    { intros k Hin. apply Hk. by right. }
    destruct (station_to_channel_present z _ Hst) as [c Ec].
    destruct Hpr as (p & ens & Ep & Een).
    cbn [programmes_loop omap list_omap]. rewrite Ea. cbn [subscript rbind].
    destruct (endtime a) as [e|] eqn:Ee.
    + destruct (IH d (out ++ [mkProgramme (time a) e c (a_program a) (title p)
                           (default [] (sorted_genres <$> genres p))]) Hrest)
        as (d' & out' & E' & Ha & Hsub).
      exists d', (mkProgramme (time a) e c (a_program a) (title p)
                    (default [] (sorted_genres <$> genres p)) :: out').
      split; [|split; [|done]].
      * destruct rest; cbn [rbind]; rewrite Ec; cbn [rbind];
          rewrite Ep; cbn [subscript rbind]; rewrite Een; cbn [rbind];
          rewrite E';
          by rewrite <- app_assoc.
      * cbn [assemble fmap list_fmap]. rewrite Ee. simpl. by rewrite Ha.
    + destruct rest as [|nxt rest'].
      * exists (ddel s d), []. cbn [programmes_loop omap list_omap assemble].
        rewrite Ee. rewrite app_nil_r. split; [done|]. split; [done|].
        clear. induction d as [|[k v] d IHd]; simpl; [done|].
        destruct (decide (s = k)).
        -- intros x Hx. by right.
        -- intros x Hx. apply elem_of_cons in Hx as [->|Hx]; [left|right].
           by apply IHd.
      * destruct (Hk nxt) as (b & Eb & _); [right; left|].
        destruct (IH d (out ++ [mkProgramme (time a) (time b) c (a_program a)
                                  (title p)
                                  (default [] (sorted_genres <$> genres p))])
                    Hrest) as (d' & out' & E' & Ha & Hsub).
        exists d', (mkProgramme (time a) (time b) c (a_program a) (title p)
                      (default [] (sorted_genres <$> genres p)) :: out').
        split; [|split; [|done]].
        -- cbn [rbind]. rewrite Eb. cbn [subscript rbind]. rewrite Ec.
           cbn [rbind]. rewrite Ep. cbn [subscript rbind]. rewrite Een.
           cbn [rbind]. rewrite E'.
           by rewrite <- app_assoc.
        -- change (omap (fun k => dget k d) (nxt :: rest'))
             with (match dget nxt d with
                   | Some x => x :: omap (fun k => dget k d) rest'
                   | None => omap (fun k => dget k d) rest'
                   end) in *.
           rewrite Eb in *. cbn [assemble fmap list_fmap]. rewrite Ee.
           simpl. by rewrite Ha.
Qed.

Lemma dget_elem_NoDup {K V} `{EqDecision K} (k : K) (v : V) (d : list (K * V)) :
  NoDup (dkeys d) -> (k, v) ∈ d -> dget k d = Some v.
Proof.
  unfold dkeys. induction d as [|[k' v'] d IH]; simpl; intros Hnd Hin.
  - by apply elem_of_nil in Hin.
  - apply NoDup_cons in Hnd as [Hk' Hnd].
    apply elem_of_cons in Hin as [[= -> ->]|Hin].
    + by rewrite decide_True.
    + rewrite decide_False; [by apply IH|].
      intros ->. apply Hk'. apply list_elem_of_fmap. by exists (k', v).
Qed.

Lemma omap_dget_items {K V} `{EqDecision K} (d l : list (K * V)) :
  NoDup (dkeys d) -> (forall x, x ∈ l -> x ∈ d) ->
  omap (fun k => dget k d) l.*1 = l.*2.
Proof.
  intros Hnd. induction l as [|[k v] l IH]; intros Hl; [done|].
  cbn [fmap list_fmap omap list_omap]. simpl.
  rewrite (dget_elem_NoDup k v d Hnd) by (apply Hl; left).
  f_equal. apply IH. intros x Hx. apply Hl. by right.
Qed.

(** The renderer on one station, against the specification's gap
    filling: for a station whose keys are distinct and whose airings
    name a known station and a program whose episode numbers can be
    written, the start and stop times written are those of [assemble]
    on the airings sorted by start, where the explicit end is the value
    under the key 'endtime'. *)
Lemma print_programmes_station_assemble z d :
  NoDup (dkeys d) ->
  (forall k a, (k, a) ∈ d ->
     is_Some (dget (a_station a) (stations z))
     /\ program_renders z (a_program a)) ->
  exists d' out,
    print_programmes_station z d = Ok (d', out)
    /\ (fun pr => (pr_start pr, pr_stop pr)) <$> out
       = assemble (sorted (fun x y : Z * airing => time x.2 <=? time y.2) d).*2
    /\ d' ⊆ d.
Proof.
  intros Hnd Hwf. unfold print_programmes_station, key_array_xmltv.
  set (l := sorted _ d).
  assert (forall x, x ∈ l -> x ∈ d) as Hl.
  { intros x Hx. by apply sorted_elem_of in Hx. }
  destruct (programmes_loop_assemble z l.*1 d []) as (d' & out & E & Ha & Hs).
  - intros k Hk. apply list_elem_of_fmap in Hk as ([k' a] & -> & Hin).
    exists a. split; [by apply dget_elem_NoDup, Hl|]. by apply (Hwf k'), Hl.
  - exists d', out. rewrite E. split; [done|]. split; [|done].
    rewrite Ha. by rewrite omap_dget_items.
Qed.

(** The example of the specification, on airings that carry their end
    under 'endtime': the ends written are 200, 300 and 400, and the
    trailing airing without end is left out. *)
Example assemble_example :
  let a t e := mkAiring t e None "EP012345670001" "5.123"
                 false false false false false in
  assemble [a 100 None; a 200 None; a 300 (Some 400); a 500 None]
  = [(100, 200); (200, 300); (300, 400)].
Proof. reflexivity. Qed.

(** C2, which the code does not meet on the grid of the default
    provider.  [parse_json] stores the end of an airing under the key
    'endTime', and [print_programmes] reads the key 'endtime': the
    airing from 100 s to 150 s is written with the stop 300 s, the start
    of the next airing, and the last airing, from 300 s to 400 s, is
    deleted and not written, although both carry an explicit end. *)
Theorem grid_end_time_not_rendered :
  let z := parse_channels no_overview_json
             grid_two_airings (initial_zap default_options) in
  endTime <$> (dget "5.123" (schedule z) ≫= dget 100000) = Some (Some 150000)
  /\ endTime <$> (dget "5.123" (schedule z) ≫= dget 300000)
     = Some (Some 400000)
  /\ exists sch',
       print_programmes z
       = Ok (sch', [mkProgramme 100000 300000 "I5.123.gracenote.com"
                      "EP012345670001" (Some "News") []])
       /\ dget "5.123" sch' ≫= dget 300000 = None.
Proof.
  intros z. split; [vm_compute; reflexivity|].
  split; [vm_compute; reflexivity|].
  eexists. split; vm_compute; reflexivity.
Qed.

(** ** What parsing leaves alone *)

Lemma frame_refl z : frame z z.
Proof. by repeat split. Qed.

Lemma frame_trans z1 z2 z3 : frame z1 z2 -> frame z2 z3 -> frame z1 z3.
Proof.
  intros (?&?&?&?&?&?&?) (?&?&?&?&?&?&?). repeat split; congruence.
Qed.

Lemma run_steps_rel {S} (R : S -> S -> Prop) (steps : list (S -> S)) :
  (forall s, R s s) -> (forall a b c, R a b -> R b c -> R a c) ->
  Forall (fun f => forall s, R s (f s)) steps ->
  forall s, R s (run_steps steps s).
Proof.
  intros Hrefl Htrans. induction 1 as [|f steps Hf _ IH]; intros s.
  - apply Hrefl.
  - eapply Htrans; [apply Hf | apply IH].
Qed.

Lemma foldl_rel {S B} (R : S -> S -> Prop) (g : S -> B -> S) (l : list B) :
  (forall s, R s s) -> (forall a b c, R a b -> R b c -> R a c) ->
  (forall s b, R s (g s b)) -> forall s, R s (foldl g s l).
Proof.
  intros Hrefl Htrans Hg. induction l as [|b l IH]; intros s; simpl.
  - apply Hrefl.
  - eapply Htrans; [apply Hg | apply IH].
Qed.

Section parse_facts.
Variable json_grid : string -> option (list json_channel).
Variable json_overview : string -> option overview.

Lemma frame_post_json_overview cp sid z :
  frame z (post_json_overview json_overview cp sid z).
Proof.
  unfold post_json_overview. repeat case_match; by repeat split.
Qed.


Lemma stations_post_json_overview cp sid z :
  stations (post_json_overview json_overview cp sid z)
  = stations z.
Proof.
  unfold post_json_overview. repeat case_match; reflexivity.
Qed.

Lemma frame_event_steps cs e :
  Forall (fun f => forall z, frame z (f z))
    (event_steps json_overview cs e).
Proof.
  unfold event_steps, grid_steps. cbn [app]. forall_steps; intros z;
    repeat case_match; try apply frame_post_json_overview;
    by repeat split.
Qed.

Lemma frame_parse_event cs e z :
  frame z (parse_event json_overview cs e z).
Proof.
  unfold parse_event. case_match; [apply frame_refl|].
  apply run_steps_rel;
    [apply frame_refl | apply frame_trans | apply frame_event_steps].
Qed.

Lemma parse_channel_eq s z starred :
  parse_channel json_overview s (z, starred)
  = match channel_filter (opts z) (zapFavorites z) starred (c_channelId s) with
    | None => (z, starred)
    | Some starred' =>
        let cs := c_channelNo s +:+ "." +:+ c_channelId s in
        (foldl (fun z e => parse_event json_overview cs e z)
           (if dmem cs (stations z) then z
            else set_coNum (coNum z + 1)
                   (set_stations (dset cs (new_station s z) (stations z)) z))
           (c_events s), starred')
    end.
Proof. reflexivity. Qed.

Lemma frame_parse_channel s z starred :
  frame z (parse_channel json_overview s (z, starred)).1.
Proof.
  rewrite parse_channel_eq. case_match; [|apply frame_refl]. cbn [fst].
  eapply frame_trans; [|apply (foldl_rel frame);
    [apply frame_refl | apply frame_trans
     | intros; apply frame_parse_event]].
  case_match; by repeat split.
Qed.

Lemma frame_parse_channels_go channels : forall z starred,
  frame z (foldl (fun acc s => parse_channel json_overview s acc)
             (z, starred) channels).1.
Proof.
  induction channels as [|s channels IH]; intros z starred; cbn [foldl].
  - apply frame_refl.
  - destruct (parse_channel json_overview s (z, starred))
      as [z' starred'] eqn:E.
    eapply frame_trans; [|apply IH].
    pose proof (frame_parse_channel s z starred) as H. by rewrite E in H.
Qed.

Lemma frame_parse_json ms z :
  frame z (parse_json json_grid json_overview ms z).
Proof.
  unfold parse_json, parse_channels. case_match; [|apply frame_refl].
  apply frame_parse_channels_go.
Qed.

(** *** The placeholder flag *)






End parse_facts.



(** ** The bucket loop *)

Section loop_facts.
Variable json_grid : string -> option (list json_channel).
Variable json_overview : string -> option overview.
Variable net : nat -> Z -> response.
Variable login_net : nat -> Session.login_reply.
Variable favorites_net : nat -> Session.favorites_reply.

Lemma frame_parse_and_evict ms z :
  requests (parse_and_evict json_grid json_overview ms z)
  = requests z
  /\ opts (parse_and_evict json_grid json_overview ms z)
     = opts z.
Proof.
  unfold parse_and_evict.
  pose proof (frame_parse_json json_grid json_overview ms z)
    as (Ho & _ & Hr & _).
  set (z1 := parse_json _ _ ms z) in *.
  repeat case_match; simpl; by rewrite ?Ho, ?Hr.
Qed.

Lemma get_url_loop_sends n ms : forall z,
  (requests z <= requests (get_url_loop net n ms z).2)%nat
  /\ (n ≠ 0%nat -> (requests z < requests (get_url_loop net n ms z).2)%nat).
Proof.
  induction n as [|n IH]; intros z; cbn [get_url_loop].
  - simpl. split; [lia|done].
  - destruct (IH (set_requests (S (requests z)) z)) as [IH1 _].
    cbn [requests set_requests] in IH1.
    repeat case_match; cbn [snd requests set_requests]; split; intros; lia.
Qed.

(** *** What the login leaves alone *)

Lemma session_keeps_refl c : Session.keeps c c.
Proof. by split. Qed.

Lemma session_keeps_trans c1 c2 c3 :
  Session.keeps c1 c2 -> Session.keeps c2 c3 -> Session.keeps c1 c3.
Proof. intros [] []. split; congruence. Qed.

Lemma session_keeps_state z c :
  opts z = opts (Session.state c) ->
  requests z = requests (Session.state c) ->
  Session.keeps c (Session.set_state z c).
Proof. by split. Qed.

Lemma keeps_login_zap_loop n : forall c,
  Session.keeps c (Session.login_zap_loop login_net favorites_net n c).1.
Proof.
  induction n as [|n IH]; intros c; cbn [Session.login_zap_loop].
  - apply session_keeps_refl.
  - destruct (login_net (Session.posts c)) as [|token].
    + eapply session_keeps_trans; [|apply IH]. by split.
    + cbv zeta. case_match; [by split|].
      destruct (favorites_net _); [|by split].
      eapply session_keeps_trans; [|apply IH]. by split.
Qed.

Lemma keeps_get_zap_params c :
  Session.keeps c (Session.get_zap_params login_net favorites_net c).1.
Proof.
  unfold Session.get_zap_params, Session.get_z_token, Session.login,
    Session.login_zap.
  repeat case_match; try apply session_keeps_refl.
  apply keeps_login_zap_loop.
Qed.

Lemma keeps_session_post_json_overview cp sid c :
  Session.keeps c
    (Session.post_json_overview json_overview login_net favorites_net
       cp sid c).1.
Proof.
  unfold Session.post_json_overview. cbv zeta.
  repeat case_match; try (by split);
    (eapply session_keeps_trans; [|apply keeps_get_zap_params]; by split).
Qed.

Lemma frame_grid_steps cs e z : frame z (run_steps (grid_steps cs e) z).
Proof.
  apply run_steps_rel; [apply frame_refl | apply frame_trans |].
  unfold grid_steps. forall_steps; intros z'; repeat case_match;
    by repeat split.
Qed.

Lemma keeps_session_parse_event cs e c :
  Session.keeps c
    (Session.parse_event json_overview login_net favorites_net cs e c).1.
Proof.
  unfold Session.parse_event. case_match; [apply session_keeps_refl|].
  cbv zeta.
  pose proof (frame_grid_steps cs e (Session.state c)) as (Ho & _ & Hr & _).
  case_match.
  - eapply session_keeps_trans;
      [|apply keeps_session_post_json_overview]. by split.
  - by split.
Qed.

Lemma keeps_session_parse_events cs es : forall c,
  Session.keeps c
    (Session.parse_events json_overview login_net favorites_net cs es c).1.
Proof.
  induction es as [|e es IH]; intros c; cbn [Session.parse_events].
  - apply session_keeps_refl.
  - pose proof (keeps_session_parse_event cs e c) as H.
    unfold Session.and_then.
    destruct (Session.parse_event _ _ _ cs e c) as [c1 [x|]]; cbn [fst snd] in *;
      [done|].
    eapply session_keeps_trans; [exact H|apply IH].
Qed.

Lemma keeps_session_parse_channel s starred c :
  Session.keeps c
    (Session.parse_channel json_overview login_net favorites_net
       s starred c).1.1.
Proof.
  unfold Session.parse_channel. cbv zeta.
  case_match; [|apply session_keeps_refl]. cbn [fst].
  eapply session_keeps_trans; [|apply keeps_session_parse_events].
  case_match; by split.
Qed.

Lemma keeps_session_parse_channels channels : forall starred c,
  Session.keeps c
    (Session.parse_channels json_overview login_net favorites_net
       channels starred c).1.
Proof.
  induction channels as [|s channels IH]; intros starred c;
    cbn [Session.parse_channels].
  - apply session_keeps_refl.
  - pose proof (keeps_session_parse_channel s starred c) as H.
    destruct (Session.parse_channel _ _ _ s starred c) as [[c1 x] starred'].
    cbn [fst] in H. unfold Session.and_then. cbn [fst snd].
    destruct x; [done|].
    eapply session_keeps_trans; [exact H|apply IH].
Qed.

Lemma keeps_session_parse_json ms c :
  Session.keeps c
    (Session.parse_json json_grid json_overview login_net favorites_net ms c).
Proof.
  unfold Session.parse_json. case_match; [|apply session_keeps_refl].
  apply keeps_session_parse_channels.
Qed.

Lemma keeps_session_parse_and_evict ms c :
  Session.keeps c
    (Session.parse_and_evict json_grid json_overview login_net favorites_net
       ms c).
Proof.
  unfold Session.parse_and_evict. cbv zeta.
  eapply session_keeps_trans; [apply keeps_session_parse_json|].
  set (c1 := Session.parse_json _ _ _ _ ms c).
  repeat case_match; by split.
Qed.

(** *** The methods agree when the login has nothing to do *)

Lemma get_zap_params_idle c :
  Session.idle c ->
  Session.get_zap_params login_net favorites_net c = Session.ret c.
Proof.
  unfold Session.get_zap_params, Session.get_z_token, Session.login.
  intros [H|H]; [by rewrite H|].
  rewrite H. by case_match.
Qed.

Lemma post_json_overview_idle cp sid c :
  Session.idle c ->
  Session.post_json_overview json_overview login_net favorites_net cp sid c
  = Session.ret
      (Session.set_state
         (post_json_overview json_overview cp sid (Session.state c)) c).
Proof.
  intros Hi. unfold Session.post_json_overview, post_json_overview.
  cbv zeta.
  match goal with
  | |- context [detail_files ?zz !! cp] =>
      lazymatch zz with
      | Session.state _ => fail
      | _ => set (z := zz)
      end
  end.
  destruct (detail_files z !! cp); [by case_match|].
  by apply (get_zap_params_idle (Session.set_state z c)).
Qed.

Lemma calm_set_state z c :
  opts z = opts (Session.state c) ->
  Session.calm c -> Session.calm (Session.set_state z c).
Proof.
  intros Ho [H|H]; [left|by right]. cbn [Session.state Session.set_state].
  by rewrite Ho.
Qed.

Lemma idle_calm c : Session.idle c -> Session.calm c.
Proof. by right. Qed.

Lemma session_set_state_same c : Session.set_state (Session.state c) c = c.
Proof. by destruct c. Qed.

Lemma parse_event_calm cs e c :
  Session.calm c ->
  Session.parse_event json_overview login_net favorites_net cs e c
  = Session.ret
      (Session.set_state (parse_event json_overview cs e (Session.state c)) c).
Proof.
  intros Hc. unfold Session.parse_event, parse_event.
  case_match; [by rewrite session_set_state_same|].
  unfold event_steps. rewrite run_steps_app. cbv zeta.
  pose proof (frame_grid_steps cs e (Session.state c)) as (Ho & _).
  set (z1 := run_steps (grid_steps cs e) (Session.state c)) in *.
  change (run_steps [?f] z1) with (f z1). cbv beta.
  cbn [Session.state Session.set_state].
  destruct (includeDetails (opts z1) && negb (j_isGeneric (e_program e)))
    eqn:E; [|done].
  rewrite post_json_overview_idle; [done|].
  destruct Hc as [Hc|Hc]; [|exact Hc].
  rewrite Ho, Hc in E. done.
Qed.

Lemma parse_events_calm cs es : forall c,
  Session.calm c ->
  Session.parse_events json_overview login_net favorites_net cs es c
  = Session.ret
      (Session.set_state
         (foldl (fun z e => parse_event json_overview cs e z)
            (Session.state c) es) c).
Proof.
  induction es as [|e es IH]; intros c Hc;
    cbn [Session.parse_events foldl].
  - by rewrite session_set_state_same.
  - rewrite parse_event_calm by done. unfold Session.and_then.
    cbn [fst snd Session.ret]. rewrite IH; [done|].
    apply calm_set_state; [|done].
    apply (frame_parse_event json_overview cs e (Session.state c)).
Qed.

Lemma parse_channel_calm s starred c :
  Session.calm c ->
  Session.parse_channel json_overview login_net favorites_net s starred c
  = (Session.ret
       (Session.set_state
          (parse_channel json_overview s (Session.state c, starred)).1 c),
     (parse_channel json_overview s (Session.state c, starred)).2).
Proof.
  intros Hc. unfold Session.parse_channel. rewrite parse_channel_eq.
  cbv zeta. case_match; cbn [fst snd];
    [|by rewrite session_set_state_same].
  rewrite parse_events_calm; [done|].
  apply calm_set_state; [|done]. by case_match.
Qed.

Lemma parse_channels_calm channels : forall starred c,
  Session.calm c ->
  Session.parse_channels json_overview login_net favorites_net
    channels starred c
  = Session.ret
      (Session.set_state
         (foldl (fun acc s => parse_channel json_overview s acc)
            (Session.state c, starred) channels).1 c).
Proof.
  induction channels as [|s channels IH]; intros starred c Hc;
    cbn [Session.parse_channels foldl].
  - cbn [fst]. by rewrite session_set_state_same.
  - rewrite parse_channel_calm by done.
    pose proof (frame_parse_channel json_overview s (Session.state c) starred)
      as (Ho & _).
    destruct (parse_channel json_overview s (Session.state c, starred))
      as [z' starred'].
    cbn [fst snd] in *. unfold Session.and_then.
    cbn [fst snd Session.ret]. rewrite IH; [done|].
    by apply calm_set_state.
Qed.

Lemma parse_json_calm ms c :
  Session.calm c ->
  Session.parse_json json_grid json_overview login_net favorites_net ms c
  = Session.set_state
      (parse_json json_grid json_overview ms (Session.state c)) c.
Proof.
  intros Hc. unfold Session.parse_json, parse_json, parse_channels.
  case_match; [|by rewrite session_set_state_same].
  by rewrite parse_channels_calm.
Qed.

Lemma parse_and_evict_calm ms c :
  Session.calm c ->
  Session.parse_and_evict json_grid json_overview login_net favorites_net
    ms c
  = Session.set_state
      (parse_and_evict json_grid json_overview ms (Session.state c)) c.
Proof.
  intros Hc. unfold Session.parse_and_evict, parse_and_evict.
  rewrite parse_json_calm by done. cbv zeta.
  set (z1 := parse_json json_grid json_overview ms (Session.state c)).
  unfold Session.on_state. cbn [Session.state Session.set_state].
  destruct (noTbaCache (opts z1) && tba z1);
    cbn [Session.state Session.set_state];
    match goal with |- context [exp ?z] => destruct (exp z) end;
    reflexivity.
Qed.

Lemma mark_bounds_cached max_count count ms z :
  opts (mark_bounds max_count count ms z) = opts z
  /\ cached ms (mark_bounds max_count count ms z) = cached ms z
  /\ requests (mark_bounds max_count count ms z) = requests z.
Proof. unfold mark_bounds. by repeat case_match. Qed.

(** A pass that is not forced to fetch parses the cached payload. *)
Lemma session_process_bucket_unforced max_count count ms c :
  need_fetch (opts (Session.state c)) (cached ms (Session.state c))
    (curday_of count) = false ->
  Session.process_bucket json_grid json_overview net login_net favorites_net
    max_count count ms c
  = (Session.GoOn,
     Session.parse_and_evict json_grid json_overview login_net favorites_net
       ms (Session.on_state (mark_bounds max_count count ms) c)).
Proof.
  intros Hf. unfold Session.process_bucket. cbv zeta.
  destruct (mark_bounds_cached max_count count ms (Session.state c))
    as (Ho & Hc & _).
  unfold Session.on_state at 1 2. cbn [Session.state Session.set_state].
  by rewrite Ho, Hc, Hf.
Qed.

Lemma process_bucket_idle max_count count ms c :
  Session.idle c ->
  let r := process_bucket json_grid json_overview net max_count count ms
             (Session.state c) in
  Session.process_bucket json_grid json_overview net login_net favorites_net
    max_count count ms c
  = (if r.1 then Session.GoOn else Session.Break, Session.set_state r.2 c).
Proof.
  intros Hi. unfold Session.process_bucket, process_bucket. cbv zeta.
  unfold Session.on_state. cbn [Session.state Session.set_state].
  set (zb := mark_bounds max_count count ms (Session.state c)).
  destruct (need_fetch _ _ _).
  - rewrite get_zap_params_idle by exact Hi.
    cbn [Session.ret Session.state Session.set_state].
    destruct (get_url net ms zb) as [rs zu].
    destruct (Str.nonempty rs); cbn [fst snd]; [|done].
    rewrite parse_and_evict_calm; [done|]. by right.
  - cbn [fst snd]. rewrite parse_and_evict_calm; [done|]. by right.
Qed.

Lemma process_loop_idle max_count counts : forall ms c,
  Session.idle c ->
  Session.process_loop json_grid json_overview net login_net favorites_net
    max_count counts ms c
  = (None,
     Session.set_state
       (process_loop json_grid json_overview net max_count counts ms
          (Session.state c)) c).
Proof.
  induction counts as [|count counts IH]; intros ms c Hi;
    cbn [Session.process_loop process_loop].
  - by rewrite session_set_state_same.
  - rewrite process_bucket_idle by done. cbv zeta.
    destruct (process_bucket _ _ _ _ _ _ _) as [go zb]. cbn [fst snd].
    destruct go; [|done]. by rewrite IH.
Qed.

(** On an object whose login has nothing to do, the bucket loop is the
    one of Section [Pipeline]. *)
Lemma bucket_loop_idle ms c :
  Session.idle c ->
  Session.bucket_loop json_grid json_overview net login_net favorites_net
    ms c
  = (None,
     Session.set_state
       (process_data json_grid json_overview net ms (Session.state c)) c).
Proof. intros Hi. by apply process_loop_idle. Qed.

(** C4, as amended.  Whether a bucket is fetched is a function of the
    existence of its cache file, its day index and the no-cache options
    alone: the fetch is forced exactly when the file is absent, or the
    day index exceeds [days - ncdays], or it is at most [ncsdays], or it
    equals [ncmday].  A forced pass asks for the parameters of the
    request, which logs in when no token is held, and then calls
    [get_url]: unless the login raises, the grid request is sent (the
    count of the requests grows when [retries] is positive), its reply
    replaces the cache file and is what the pass parses, and an empty
    reply ends the loop.  In every other case the pass parses the cached
    payload and sends no grid request; it sends no request at all when
    the details are not asked for or the login has nothing to do. *)
Theorem fetch_decision (o : options) (c : Session.client)
    (max_count count ms : Z) :
  opts (Session.state c) = process_options o ->
  let curday := curday_of count in
  let forced :=
    need_fetch (opts (Session.state c)) (cached ms (Session.state c)) curday in
  let r := Session.process_bucket json_grid json_overview net login_net
             favorites_net max_count count ms c in
  (forced = true <->
     cached ms (Session.state c) = false \/ days o - ncdays o < curday
     \/ curday <= ncsdays o \/ curday = ncmday o)
  /\ (forced = true ->
      let a := Session.get_zap_params login_net favorites_net
                 (Session.on_state (mark_bounds max_count count ms) c) in
      let g := get_url net ms (Session.state a.1) in
      r = match a.2 with
          | Some e => (Session.Abort e, a.1)
          | None =>
              if Str.nonempty g.1
              then (Session.GoOn,
                    Session.parse_and_evict json_grid json_overview
                      login_net favorites_net ms
                      (Session.set_state
                         (set_grid_files (<[ms := g.1]> (grid_files g.2)) g.2)
                         a.1))
              else (Session.Break, Session.set_state g.2 a.1)
          end
      /\ (Session.idle c -> a.2 = None)
      /\ (a.2 = None -> 0 < retries o ->
          (requests (Session.state c) < requests (Session.state r.2))%nat))
  /\ (forced = false ->
      r = (Session.GoOn,
           Session.parse_and_evict json_grid json_overview login_net
             favorites_net ms
             (Session.on_state (mark_bounds max_count count ms) c))
      /\ requests (Session.state r.2) = requests (Session.state c)
      /\ (Session.calm c -> Session.posts r.2 = Session.posts c)).
Proof.
  intros Ho curday forced r.
  destruct (mark_bounds_cached max_count count ms (Session.state c))
    as (Hmo & Hmc & Hmr).
  split; [|split].
  - subst forced. unfold need_fetch. rewrite Ho. simpl.
    rewrite !orb_true_iff, negb_true_iff, Z.ltb_lt, Z.leb_le, Z.eqb_eq.
    tauto.
  - intros Hf a g.
    assert (r = match a.2 with
                | Some e => (Session.Abort e, a.1)
                | None =>
                    if Str.nonempty g.1
                    then (Session.GoOn,
                          Session.parse_and_evict json_grid json_overview
                            login_net favorites_net ms
                            (Session.set_state
                               (set_grid_files
                                  (<[ms := g.1]> (grid_files g.2)) g.2) a.1))
                    else (Session.Break, Session.set_state g.2 a.1)
                end) as Hr.
    { subst r. unfold Session.process_bucket. cbv zeta.
      unfold Session.on_state at 1 2.
      cbn [Session.state Session.set_state].
      rewrite Hmo, Hmc. fold curday. fold forced. rewrite Hf.
      subst g. fold a. destruct a as [c1 [e|]]; cbn [fst snd]; [done|].
      by destruct (get_url net ms (Session.state c1)). }
    split; [exact Hr|]. split.
    + intros Hi. subst a. by rewrite get_zap_params_idle.
    + intros Ha Hret. rewrite Hr, Ha.
      pose proof (keeps_get_zap_params
                    (Session.on_state (mark_bounds max_count count ms) c))
        as [Hao Har].
      fold a in Hao, Har.
      cbn [Session.on_state Session.state Session.set_state] in Hao, Har.
      rewrite Hmo in Hao. rewrite Hmr in Har.
      assert (requests (Session.state c) < requests g.2)%nat as Hlt.
      { subst g. unfold get_url. rewrite <- Har.
        apply get_url_loop_sends. rewrite Hao, Ho.
        unfold process_options. cbn [retries]. destruct (Z.ltb_spec 20 (retries o)); lia. }
      destruct (Str.nonempty g.1); cbn [snd]; [|exact Hlt].
      match goal with
      | |- context [Session.parse_and_evict _ _ _ _ ms ?cc] =>
          destruct (keeps_session_parse_and_evict ms cc) as [_ Hk]
      end.
      rewrite Hk. exact Hlt.
  - intros Hf.
    assert (r = (Session.GoOn,
                 Session.parse_and_evict json_grid json_overview login_net
                   favorites_net ms
                   (Session.on_state (mark_bounds max_count count ms) c)))
      as Hr by (by apply session_process_bucket_unforced).
    split; [exact Hr|]. rewrite Hr. cbn [snd]. split.
    + match goal with
      | |- context [Session.parse_and_evict _ _ _ _ ms ?cc] =>
          destruct (keeps_session_parse_and_evict ms cc) as [_ Hk]
      end.
      rewrite Hk. exact Hmr.
    + intros Hc. rewrite parse_and_evict_calm; [done|].
      by apply calm_set_state.
Qed.

End loop_facts.

Lemma fetch_decision_witness :
  let o := all_details_options in
  let c := client_without_password
             (zap_with_file (process_options o) 1000 "two-descriptions") in
  let r := Session.process_bucket details_json_grid no_overview_json net_down
             login_granted no_favorites 56 0 1000 c in
  opts (Session.state c) = process_options o
  /\ need_fetch (opts (Session.state c)) (cached 1000 (Session.state c))
       (curday_of 0) = false
  /\ Session.calm c
  /\ requests (Session.state r.2) = 0%nat
  /\ Session.posts r.2 = 0%nat.
Proof.
  intros o c r.
  assert (H : opts (Session.state c) = process_options o) by reflexivity.
  assert (Hf : need_fetch (opts (Session.state c))
                 (cached 1000 (Session.state c)) (curday_of 0) = false)
    by (vm_compute; reflexivity).
  assert (Hc : Session.calm c) by (right; right; reflexivity).
  destruct (fetch_decision details_json_grid no_overview_json net_down
              login_granted no_favorites o c 56 0 1000 H) as (_ & _ & Hu).
  destruct (Hu Hf) as (_ & Hr & Hp).
  split; [exact H|]. split; [exact Hf|]. split; [exact Hc|].
  split; [exact Hr|exact (Hp Hc)].
Defined.

(** C4, as the specification words it, fails: with options [a] and [D],
    a user name, a password and no token yet, the pass over a cached
    bucket logs in for the details of its first program, so that a
    request is sent during a cache hit outside every no-cache window. *)
Lemma reuse_without_request_fails :
  ~ reused_without_request details_json_grid no_overview_json net_down
      login_granted no_favorites 56 0 1000
      (client_with_account
         (zap_with_file (process_options all_details_options) 1000
            "two-descriptions")).
Proof.
  intros H. destruct H as [_ Hp]; [vm_compute; reflexivity|].
  vm_compute in Hp. discriminate.
Qed.

(** ** Writing the document from well-formed stores *)

Lemma elem_of_dset {K V} `{EqDecision K} (k : K) (v : V) (d : list (K * V)) x :
  x ∈ dset k v d -> x = (k, v) \/ x ∈ d.
Proof.
  induction d as [|[k' v'] d IH]; simpl.
  - intros ->%list_elem_of_singleton. by left.
  - destruct (decide (k = k')) as [->|Hne].
    + intros [->|H]%elem_of_cons; [by left|]. right. by right.
    + intros [->|H]%elem_of_cons; [right; left|].
      destruct (IH H) as [->|?]; [by left|]. right. by right.
Qed.

Lemma insert_sorted_r_ok {A} (le : A -> A -> result bool) x l :
  (forall y, y ∈ l -> exists b, le x y = Ok b) ->
  exists l', insert_sorted_r le x l = Ok l' /\ l' ≡ₚ x :: l.
Proof.
  induction l as [|y l IH]; intros Hle; simpl.
  - by eexists.
  - destruct (Hle y) as [b Hb]; [left|]. rewrite Hb. simpl.
    destruct b; [by eexists|].
    destruct IH as (l' & -> & Hp); [intros; apply Hle; by right|].
    simpl. eexists. split; [done|]. rewrite Hp. apply Permutation_swap.
Qed.

Lemma sorted_r_ok {A} (le : A -> A -> result bool) l :
  (forall x y, x ∈ l -> y ∈ l -> exists b, le x y = Ok b) ->
  exists l', sorted_r le l = Ok l' /\ l' ≡ₚ l.
Proof.
  unfold sorted_r. induction l as [|x l IH]; intros Hle; cbn [foldr].
  - by eexists.
  - destruct IH as (l' & E & Hp).
    { intros a b Ha Hb. apply Hle; by right. }
    rewrite E. cbn [rbind].
    destruct (insert_sorted_r_ok le x l') as (l'' & E' & Hp').
    { intros y Hy. apply Hle; [left|right]. by rewrite <- Hp. }
    exists l''. split; [done|]. by rewrite Hp', Hp.
Qed.

Lemma sort_chan_ok z a b :
  well_formed z -> is_Some (dget a (stations z)) ->
  is_Some (dget b (stations z)) -> exists c, sort_chan z a b = Ok c.
Proof.
  intros [_ Hord] [sa Ea] [sb Eb]. unfold sort_chan. rewrite Ea, Eb. simpl.
  pose proof (Hord _ _ (dget_Some_elem _ _ _ Ea)) as Ha.
  pose proof (Hord _ _ (dget_Some_elem _ _ _ Eb)) as Hb.
  destruct (order sa), (order sb); simpl in *; try congruence;
    case_match; by eexists.
Qed.

Lemma sorted_stations_ok z keys :
  well_formed z -> (forall k, k ∈ keys -> is_Some (dget k (stations z))) ->
  exists l, sorted_stations z keys = Ok l /\ l ≡ₚ keys.
Proof.
  intros Hwf Hk. apply sorted_r_ok. intros x y Hx Hy.
  destruct (sort_chan_ok z y x Hwf) as [c Hc]; [by apply Hk..|].
  rewrite Hc. simpl. by eexists.
Qed.

Lemma print_channels_ok z :
  well_formed z -> exists cs, print_channels z = Ok cs.
Proof.
  intros Hwf. unfold print_channels.
  destruct (sorted_stations_ok z (dkeys (stations z)) Hwf) as (l & -> & Hp).
  { intros k Hk. by apply dget_is_Some_keys. }
  simpl.
  assert (forall k, k ∈ l -> is_Some (dget k (stations z))) as Hl.
  { intros k Hk. apply dget_is_Some_keys. by rewrite <- Hp. }
  clear Hp. induction l as [|k l IH]; simpl; [by eexists|].
  destruct IH as [cs ->]; [intros; apply Hl; by right|]. simpl.
  destruct (station_to_channel_present z k) as [c ->]; [apply Hl; left|].
  simpl. by eexists.
Qed.

Lemma print_programmes_stations_ok z order : forall sch out,
  (forall st, st ∈ order -> is_Some (dget st sch)) ->
  (forall cs d, (cs, d) ∈ sch -> forall k a, (k, a) ∈ d ->
     is_Some (dget (a_station a) (stations z))
     /\ program_renders z (a_program a)) ->
  exists r, print_programmes_stations z order sch out = Ok r.
Proof.
  induction order as [|station order IH]; intros sch out Hpres Hwf; simpl.
  - by eexists.
  - destruct (Hpres station) as [d Ed]; [left|]. rewrite Ed. simpl.
    pose proof (dget_Some_elem _ _ _ Ed) as Hin.
    destruct (programmes_loop_assemble z (key_array_xmltv d) d [])
      as (d' & out' & E & _ & Hsub).
    { intros k Hk. unfold key_array_xmltv in Hk.
      apply list_elem_of_fmap in Hk as ([k' a] & -> & Hk).
      apply sorted_elem_of in Hk. simpl.
      assert (is_Some (dget k' d)) as [a' Ea'].
      { apply dget_is_Some_keys. apply list_elem_of_fmap. by exists (k', a). }
      exists a'. split; [done|].
      apply (Hwf station d Hin k'). by apply dget_Some_elem. }
    unfold print_programmes_station. rewrite E. simpl.
    apply IH.
    + intros st Hst. apply dget_dset_is_Some. apply Hpres. by right.
    + intros cs d0 Hd0 k a Ha.
      apply elem_of_dset in Hd0 as [[= -> ->]|Hd0].
      * apply (Hwf station d Hin k). by apply Hsub.
      * by apply (Hwf cs d0 Hd0 k).
Qed.

(** The programmes are written when the stores are well formed and the
    season and the episode of every program are numbers for [int]. *)
Lemma print_programmes_ok z :
  well_formed z -> episodes_numeric z -> exists r, print_programmes z = Ok r.
Proof.
  intros Hwf Hnum. unfold print_programmes.
  destruct (sorted_stations_ok z (dkeys (schedule z)) Hwf) as (l & -> & Hp).
  { intros k Hk. apply dget_is_Some_keys in Hk as [d Ed].
    by apply (proj1 Hwf k d), dget_Some_elem. }
  simpl. apply print_programmes_stations_ok.
  - intros st Hst. apply dget_is_Some_keys. by rewrite <- Hp.
  - intros cs d Hd k a Ha.
    destruct (proj2 (proj1 Hwf cs d Hd) k a Ha) as [Hst [p Ep]].
    split; [done|]. destruct (Hnum _ _ Ep) as [ens Een]. by exists p, ens.
Qed.

Lemma write_output_file_ok fuel z :
  well_formed z -> episodes_numeric z -> outputXTVD (opts z) = false ->
  exists cs r, print_channels z = Ok cs /\ print_programmes z = Ok r
    /\ write_output_file fuel z = Done (Xmltv cs r.2).
Proof.
  intros Hwf Hnum Hx. unfold write_output_file. rewrite Hx.
  destruct (print_channels_ok z Hwf) as [cs Ec].
  destruct (print_programmes_ok z Hwf Hnum) as [r Er].
  exists cs, r. by rewrite Ec, Er.
Qed.

(** The condition on the episode numbers can be computed on a store. *)
Lemma episodes_numeric_dec z :
  map_Forall (fun cp p => match episode_nums cp p with
                          | Ok _ => true
                          | Exn _ => false
                          end = true) (programs z) ->
  episodes_numeric z.
Proof.
  intros H cp p E. specialize (H cp p E). cbv beta in H.
  destruct (episode_nums cp p); [by eexists|discriminate].
Qed.

(** ** The parsers keep the stores well formed *)

Create HintDb zap discriminated.

Lemma present_of_keeps k ps ps' :
  keeps_field (fun _ : program => @None unit) k ps ps' ->
  is_Some (ps !! k) -> is_Some (ps' !! k).
Proof. by intros [_ H]. Qed.

Lemma present_upd_program cp g ps k :
  is_Some (ps !! k) -> is_Some (upd_program cp g ps !! k).
Proof. apply present_of_keeps. by apply keeps_upd_program. Qed.

Lemma present_grid_field setter v cp ps k :
  is_Some (ps !! k) -> is_Some (grid_field setter v cp ps !! k).
Proof. apply present_of_keeps. by apply keeps_grid_field. Qed.

Lemma present_grid_genres gs : forall i cp ps k,
  is_Some (ps !! k) -> is_Some (grid_genres gs i cp ps !! k).
Proof.
  induction gs as [|g gs IH]; intros i cp ps k H; simpl; [done|].
  by apply IH, present_upd_program.
Qed.

Lemma present_set_original_air_date cp sch ps k :
  is_Some (ps !! k) -> is_Some (set_original_air_date cp sch ps !! k).
Proof.
  intros H. unfold set_original_air_date.
  repeat case_match; try done; by apply present_upd_program.
Qed.

Lemma present_parse_overview cp t ps k :
  is_Some (ps !! k) -> is_Some (parse_overview cp t ps !! k).
Proof.
  apply present_of_keeps. unfold parse_overview.
  eapply keeps_field_trans; [by apply keeps_overview_head|].
  apply keeps_try_steps. forall_steps; intros s s'.
  - by apply keeps_overview_image.
  - by apply keeps_overview_description.
  - by apply keeps_overview_originalAirDate.
Qed.

#[local] Hint Resolve present_upd_program present_grid_field
  present_grid_genres present_set_original_air_date present_parse_overview
  : zap.

Lemma well_formed_mono z z' :
  stations z' = stations z -> schedule z' = schedule z ->
  retainOrder (opts z') = retainOrder (opts z) ->
  (forall k, is_Some (programs z !! k) -> is_Some (programs z' !! k)) ->
  well_formed z -> well_formed z'.
Proof.
  intros Hst Hsc Ho Hp [Hs Hord]. unfold well_formed.
  rewrite Hst, Hsc, Ho. split; [|done].
  intros cs d Hd. destruct (Hs cs d Hd) as [H1 H2]. split; [done|].
  intros k a Ha. destruct (H2 k a Ha). split; [done|]. by apply Hp.
Qed.

Lemma event_inv_ext cs cp z z' :
  stations z' = stations z -> programs z' = programs z ->
  schedule z' = schedule z -> opts z' = opts z ->
  event_inv cs cp z -> event_inv cs cp z'.
Proof.
  intros Hst Hp Hsc Ho (Hwf & H1 & H2). unfold event_inv.
  rewrite Hst, Hp. split; [|done].
  apply (well_formed_mono z); [done|done|by rewrite Ho| |done].
  intros k. by rewrite Hp.
Qed.

Lemma event_inv_on_programs cs cp f z :
  (forall ps k, is_Some (ps !! k) -> is_Some (f ps !! k)) ->
  event_inv cs cp z -> event_inv cs cp (on_programs f z).
Proof.
  intros Hf (Hwf & H1 & H2). split; [|split; [done|by apply Hf]].
  apply (well_formed_mono z); try done. intros k. apply Hf.
Qed.

Lemma well_formed_sched_set cs k a z :
  is_Some (dget cs (stations z)) ->
  is_Some (dget (a_station a) (stations z)) ->
  is_Some (programs z !! a_program a) ->
  well_formed z -> well_formed (on_schedule (sched_set cs k a) z).
Proof.
  intros Hcs Hst Hpr [Hs Hord]. split; [|done]. simpl.
  intros cs' d' Hd'. unfold sched_set in Hd'.
  apply elem_of_dset in Hd' as [[= -> ->]|Hd']; [|by apply Hs].
  split; [done|]. intros k' a' Ha'.
  apply elem_of_dset in Ha' as [[= -> ->]|Ha']; [done|].
  destruct (dget cs (schedule z)) as [d0|] eqn:Ed; simpl in Ha'.
  - by apply (proj2 (Hs cs d0 (dget_Some_elem _ _ _ Ed)) k').
  - by apply elem_of_nil in Ha'.
Qed.

Lemma event_inv_sched_set cs cp k a z :
  a_station a = cs -> a_program a = cp ->
  event_inv cs cp z -> event_inv cs cp (on_schedule (sched_set cs k a) z).
Proof.
  intros Hs Hp (Hwf & H1 & H2). split; [|done].
  apply well_formed_sched_set; try done; by rewrite ?Hs, ?Hp.
Qed.

Lemma event_inv_sched_upd cs cp k g z :
  (forall a, a_station (g a) = a_station a /\ a_program (g a) = a_program a) ->
  event_inv cs cp z -> event_inv cs cp (on_schedule (sched_upd cs k g) z).
Proof.
  intros Hg (Hwf & H1 & H2).
  unfold on_schedule, sched_upd.
  destruct (dget cs (schedule z) ≫= dget k) as [a|] eqn:E.
  - split; [|done].
    destruct (dget cs (schedule z)) as [d|] eqn:Ed; [|done]. simpl in E.
    destruct (proj2 (proj1 Hwf cs d (dget_Some_elem _ _ _ Ed)) k a
                (dget_Some_elem _ _ _ E)) as [Ha1 Ha2].
    destruct (Hg a) as [Hg1 Hg2].
    apply (well_formed_sched_set cs k (g a) z); by rewrite ?Hg1, ?Hg2.
  - by apply (event_inv_ext cs cp z).
Qed.

Section wf_facts.
Variable json_grid : string -> option (list json_channel).
Variable json_overview : string -> option overview.
Variable net : nat -> Z -> response.

Lemma event_inv_post_json_overview cs cp cp' sid z :
  event_inv cs cp z ->
  event_inv cs cp (post_json_overview json_overview cp' sid z).
Proof.
  intros H. unfold post_json_overview.
  repeat case_match;
    try (apply event_inv_on_programs; [by auto with zap|]);
    by apply (event_inv_ext cs cp z).
Qed.

Lemma event_steps_inv cs e :
  Forall (fun f => forall z, event_inv cs (j_id (e_program e)) z ->
                             event_inv cs (j_id (e_program e)) (f z))
    (drop 1 (event_steps json_overview cs e)).
Proof.
  cbn [drop event_steps grid_steps app]. unfold grid_description, grid_rating.
  forall_steps; intros z Hz;
    repeat case_match; try done;
    try (by apply (event_inv_ext cs _ z));
    try (by apply event_inv_post_json_overview);
    repeat first
      [ apply event_inv_on_programs; [by auto with zap|]
      | apply event_inv_sched_upd; [done|]
      | apply event_inv_sched_set; [done|done|] ];
    done.
Qed.

Lemma stations_parse_event cs e z :
  stations (parse_event json_overview cs e z) = stations z.
Proof.
  unfold parse_event. case_match; [done|].
  apply (run_steps_preserve (fun s => stations s = stations z)); [|done].
  unfold event_steps, grid_steps. cbn [app]. forall_steps; intros s Hs;
    repeat case_match; rewrite ?stations_post_json_overview; by simpl.
Qed.

Lemma well_formed_parse_event cs e z :
  well_formed z -> is_Some (dget cs (stations z)) ->
  well_formed (parse_event json_overview cs e z).
Proof.
  intros Hwf Hcs. unfold parse_event. case_match; [done|].
  change (event_steps json_overview cs e)
    with (take 1 (event_steps json_overview cs e)
          ++ drop 1 (event_steps json_overview cs e)).
  rewrite run_steps_app.
  apply (run_steps_preserve (event_inv cs (j_id (e_program e))));
    [apply event_steps_inv|].
  unfold run_steps. simpl. split; [|split; [done|]].
  - apply (well_formed_mono z); try done. intros k. simpl.
    apply present_upd_program.
  - simpl. unfold upd_program. rewrite lookup_insert_eq. by eexists.
Qed.

Lemma well_formed_parse_events cs es : forall z,
  well_formed z -> is_Some (dget cs (stations z)) ->
  well_formed
    (foldl (fun z e => parse_event json_overview cs e z) z es).
Proof.
  induction es as [|e es IH]; intros z Hwf Hcs; cbn [foldl]; [done|].
  apply IH.
  - by apply well_formed_parse_event.
  - by rewrite stations_parse_event.
Qed.

Lemma well_formed_parse_channel s z starred :
  well_formed z ->
  well_formed (parse_channel json_overview s (z, starred)).1.
Proof.
  intros Hwf. rewrite parse_channel_eq. case_match; [|done].
  cbv zeta. cbn [fst].
  set (cs := c_channelNo s +:+ "." +:+ c_channelId s).
  apply well_formed_parse_events.
  - unfold dmem. destruct (dget cs (stations z)) as [st|] eqn:E; [done|].
    destruct Hwf as [Hs Hord]. split; simpl.
    + intros cs' d Hd. destruct (Hs cs' d Hd) as [H1 H2].
      split; [by apply dget_dset_is_Some|].
      intros k a Ha. destruct (H2 k a Ha). split; [|done].
      by apply dget_dset_is_Some.
    + intros cs' st Hst.
      apply elem_of_dset in Hst as [[= -> ->]|Hst]; [|by apply (Hord cs')].
      unfold new_station. simpl. by destruct (retainOrder (opts z)).
  - unfold dmem. destruct (dget cs (stations z)) as [st|] eqn:E.
    + by rewrite E.
    + simpl. rewrite dget_dset_eq. by eexists.
Qed.

Lemma well_formed_parse_channels channels : forall z starred,
  well_formed z ->
  well_formed
    (foldl (fun acc s => parse_channel json_overview s acc)
       (z, starred) channels).1.
Proof.
  induction channels as [|s channels IH]; intros z starred Hwf;
    cbn [foldl]; [done|].
  destruct (parse_channel json_overview s (z, starred))
    as [z' starred'] eqn:E.
  apply IH.
  pose proof (well_formed_parse_channel s z starred Hwf) as H.
  by rewrite E in H.
Qed.

Lemma well_formed_parse_json ms z :
  well_formed z ->
  well_formed (parse_json json_grid json_overview ms z).
Proof.
  intros Hwf. unfold parse_json, parse_channels. case_match; [|done].
  by apply well_formed_parse_channels.
Qed.

Lemma well_formed_parse_and_evict ms z :
  well_formed z ->
  well_formed (parse_and_evict json_grid json_overview ms z).
Proof.
  intros Hwf. unfold parse_and_evict.
  pose proof (well_formed_parse_json ms z Hwf) as H1.
  set (z1 := parse_json _ _ ms z) in *.
  repeat case_match; by apply (well_formed_mono z1).
Qed.

End wf_facts.

(** ** Exhausted retries *)

Section retry_facts.
Variable json_grid : string -> option (list json_channel).
Variable json_overview : string -> option overview.
Variable net : nat -> Z -> response.

Lemma set_requests_same z : set_requests (requests z) z = z.
Proof. by destruct z. Qed.

Lemma get_url_loop_state n ms : forall z,
  exists m, (get_url_loop net n ms z).2 = set_requests m z.
Proof.
  induction n as [|n IH]; intros z; simpl.
  - exists (requests z). by rewrite set_requests_same.
  - destruct (IH (set_requests (S (requests z)) z)) as [m Hm].
    repeat case_match; simpl; try (by eexists); exists m; by rewrite Hm.
Qed.

(** When every reply asks for another try, [get_url] sends as many
    requests as [retries] allows and returns the empty string. *)
Lemma get_url_loop_exhausted n ms : forall z,
  (forall j, (j < n)%nat -> retryable (net (requests z + j)%nat ms) = true) ->
  get_url_loop net n ms z
  = (EmptyString, set_requests (requests z + n)%nat z).
Proof.
  induction n as [|n IH]; intros z H; simpl.
  - by rewrite Nat.add_0_r, set_requests_same.
  - pose proof (H 0%nat ltac:(lia)) as H0. rewrite Nat.add_0_r in H0.
    assert (get_url_loop net n ms (set_requests (S (requests z)) z)
            = (EmptyString, set_requests (requests z + S n)%nat z)) as Hrec.
    { rewrite IH.
      - simpl. by rewrite Nat.add_succ_r.
      - intros j Hj. simpl. rewrite <- Nat.add_succ_r. apply H. lia. }
    destruct (net (requests z) ms) as [status content|]; [|done].
    simpl in H0. apply andb_prop in H0 as [H1 H2].
    apply negb_true_iff in H1, H2. by rewrite H1, H2.
Qed.

Lemma mark_bounds_same max_count count ms z :
  opts (mark_bounds max_count count ms z) = opts z
  /\ stations (mark_bounds max_count count ms z) = stations z
  /\ programs (mark_bounds max_count count ms z) = programs z
  /\ schedule (mark_bounds max_count count ms z) = schedule z
  /\ requests (mark_bounds max_count count ms z) = requests z
  /\ grid_files (mark_bounds max_count count ms z) = grid_files z.
Proof. unfold mark_bounds. by repeat case_match. Qed.

Lemma process_bucket_keeps max_count count ms z :
  well_formed z ->
  well_formed (process_bucket json_grid json_overview net
                 max_count count ms z).2
  /\ opts (process_bucket json_grid json_overview net
             max_count count ms z).2 = opts z.
Proof.
  intros Hwf. unfold process_bucket. cbv zeta.
  destruct (mark_bounds_same max_count count ms z)
    as (Ho & Hst & Hp & Hsc & _).
  set (zb := mark_bounds max_count count ms z) in *.
  assert (well_formed zb) as Hb.
  { apply (well_formed_mono z); try done; [by rewrite Ho|].
    intros k. by rewrite Hp. }
  destruct (need_fetch _ _ _).
  - unfold get_url.
    destruct (get_url_loop_state (Z.to_nat (retries (opts zb))) ms zb)
      as [m Hm].
    destruct (get_url_loop net _ ms zb) as [rs zu]. simpl in Hm. subst zu.
    destruct (Str.nonempty rs); cbn [snd].
    + split.
      * apply well_formed_parse_and_evict.
        by apply (well_formed_mono zb).
      * by rewrite (proj2 (frame_parse_and_evict _ _ ms _)).
    + split; [by apply (well_formed_mono zb)|done].
  - cbn [snd]. split.
    + by apply well_formed_parse_and_evict.
    + by rewrite (proj2 (frame_parse_and_evict _ _ ms _)).
Qed.

Lemma process_prefix_keeps max_count counts : forall ms z ms' z',
  process_prefix json_grid json_overview net
    max_count counts ms z = Some (ms', z') ->
  well_formed z -> well_formed z' /\ opts z' = opts z.
Proof.
  induction counts as [|count counts IH]; intros ms z ms' z' E Hwf;
    cbn [process_prefix] in E.
  - by injection E as <- <-.
  - destruct (process_bucket_keeps max_count count ms z Hwf) as [Hw Ho].
    destruct (process_bucket _ _ _ _ _ _ _) as [go zb].
    destruct go; [|done]. cbn [snd] in *.
    destruct (IH _ _ _ _ E Hw) as [Hw' Ho']. split; [done|congruence].
Qed.

Lemma process_loop_prefix max_count pre rest : forall ms z ms' z',
  process_prefix json_grid json_overview net
    max_count pre ms z = Some (ms', z') ->
  process_loop json_grid json_overview net
    max_count (pre ++ rest) ms z
  = process_loop json_grid json_overview net
      max_count rest ms' z'.
Proof.
  induction pre as [|count pre IH]; intros ms z ms' z' E;
    cbn [process_prefix app process_loop] in *.
  - by injection E as <- <-.
  - destruct (process_bucket _ _ _ _ _ _ _) as [go zb].
    destruct go; [|done]. by apply IH.
Qed.

(** The pass of a bucket whose fetch exhausts the retries: the loop
    stops, and only the request count and the bounds of the run
    differ from the state before the pass. *)
Lemma process_loop_break max_count count rest ms z :
  need_fetch (opts z) (cached ms z) (curday_of count) = true ->
  (forall j, (j < Z.to_nat (retries (opts z)))%nat ->
     retryable (net (requests z + j)%nat ms) = true) ->
  process_loop json_grid json_overview net
    max_count (count :: rest) ms z
  = set_requests (requests z + Z.to_nat (retries (opts z)))%nat
      (mark_bounds max_count count ms z).
Proof.
  intros Hf Hretry. cbn [process_loop]. unfold process_bucket. cbv zeta.
  destruct (mark_bounds_same max_count count ms z)
    as (Ho & _ & _ & _ & Hr & Hg).
  set (zb := mark_bounds max_count count ms z) in *.
  assert (cached ms zb = cached ms z) as Hc by (unfold cached; by rewrite Hg).
  rewrite Ho, Hc, Hf. unfold get_url.
  rewrite get_url_loop_exhausted.
  - simpl. by rewrite Ho, Hr.
  - intros j Hj. rewrite Hr. apply Hretry. by rewrite <- Ho.
Qed.

Lemma sorted_r_ext {A} (le le' : A -> A -> result bool) l :
  (forall a b, le a b = le' a b) -> sorted_r le l = sorted_r le' l.
Proof.
  intros Hle. unfold sorted_r. induction l as [|x l IH]; cbn [foldr]; [done|].
  rewrite IH. clear IH.
  destruct (foldr _ _ l) as [l'|]; cbn [rbind]; [|done]. induction l' as [|y l' IH]; simpl; [done|].
  rewrite Hle. destruct (le' x y) as [[]|]; simpl; [done| |done].
  by rewrite IH.
Qed.

Lemma sorted_stations_ext z z' keys :
  stations z' = stations z ->
  sorted_stations z' keys = sorted_stations z keys.
Proof.
  intros Hst. apply sorted_r_ext. intros a b. unfold sort_chan.
  by rewrite Hst.
Qed.

Lemma station_to_channel_ext z z' s :
  opts z' = opts z -> stations z' = stations z ->
  station_to_channel z' s = station_to_channel z s.
Proof. intros Ho Hst. unfold station_to_channel. by rewrite Ho, Hst. Qed.

Lemma programmes_loop_ext z z' keys : forall d out,
  opts z' = opts z -> stations z' = stations z -> programs z' = programs z ->
  programmes_loop z' keys d out = programmes_loop z keys d out.
Proof.
  induction keys as [|s rest IH]; intros d out Ho Hst Hp; [done|].
  cbn [programmes_loop].
  destruct (dget s d) as [a|]; [|done]. cbn [subscript rbind].
  rewrite Hp.
  assert (forall e,
    (channel <~ station_to_channel z' (a_station a) ;;
     p <~ subscript (programs z !! a_program a) ;;
     _ <~ episode_nums (a_program a) p ;;
     programmes_loop z' rest d
       (out ++ [mkProgramme (time a) e channel (a_program a) (title p)
                  (default [] (sorted_genres <$> genres p))]))
    = (channel <~ station_to_channel z (a_station a) ;;
       p <~ subscript (programs z !! a_program a) ;;
       _ <~ episode_nums (a_program a) p ;;
       programmes_loop z rest d
         (out ++ [mkProgramme (time a) e channel (a_program a) (title p)
                    (default [] (sorted_genres <$> genres p))]))) as Hemit.
  { intros e. rewrite (station_to_channel_ext z z') by done.
    destruct (station_to_channel z (a_station a)); [|done]. cbn [rbind].
    destruct (programs z !! a_program a) as [p|]; [|done].
    cbn [subscript rbind].
    destruct (episode_nums (a_program a) p); [|done]. cbn [rbind].
    by apply IH. }
  destruct rest as [|nxt rest'], (endtime a) as [e|];
    cbn [rbind]; try apply Hemit.
  - by apply IH.
  - destruct (dget nxt d) as [b|]; [|done]. cbn [subscript rbind].
    apply Hemit.
Qed.

Lemma print_programmes_stations_ext z z' order : forall sch out,
  opts z' = opts z -> stations z' = stations z -> programs z' = programs z ->
  print_programmes_stations z' order sch out
  = print_programmes_stations z order sch out.
Proof.
  induction order as [|station order IH]; intros sch out Ho Hst Hp; [done|].
  cbn [print_programmes_stations].
  destruct (dget station sch) as [d|]; [|done]. cbn [subscript rbind].
  unfold print_programmes_station.
  rewrite (programmes_loop_ext z z') by done.
  destruct (programmes_loop z _ d []) as [r|]; [|done]. cbn [rbind].
  by apply IH.
Qed.

Lemma write_output_file_ext fuel z z' :
  outputXTVD (opts z) = false ->
  opts z' = opts z -> stations z' = stations z ->
  programs z' = programs z -> schedule z' = schedule z ->
  write_output_file fuel z' = write_output_file fuel z.
Proof.
  intros Hx Ho Hst Hp Hsc.
  unfold write_output_file. rewrite Ho, Hx.
  unfold print_channels, print_programmes. rewrite Hst, Hsc.
  rewrite !(sorted_stations_ext z z') by done.
  destruct (sorted_stations z (dkeys (stations z))) as [order|]; [|done].
  cbn [rbind].
  assert (foldr (fun key acc => l <~ acc ;;
                   c <~ station_to_channel z' key ;; Ok (c :: l)) (Ok []) order
          = foldr (fun key acc => l <~ acc ;;
                     c <~ station_to_channel z key ;; Ok (c :: l)) (Ok []) order)
    as ->.
  { induction order as [|k order IH]; cbn [foldr]; [done|].
    rewrite IH. by rewrite (station_to_channel_ext z z'). }
  destruct (foldr _ _ order) as [cs|]; [|done]. cbn [lift obind].
  destruct (sorted_stations z (dkeys (schedule z))) as [order'|]; [|done].
  cbn [rbind]. by rewrite (print_programmes_stations_ext z z').
Qed.

(** The default document after exhausted retries.  When the fetch of a
    bucket exhausts the retries (every reply asks for another try), the
    bucket loop stops: [retries] requests are sent for that bucket and
    none after, and the stations, programs and airings are those
    accumulated from the buckets before it.  The run goes on to write
    the default document from them, provided that the season and the
    episode of the programs accumulated are numbers for [int]. *)
Theorem retries_exhausted_partial_output (fuel : nat) (ms : Z) (z : zap)
    (pre : list Z) (count : Z) (rest : list Z) (ms_k : Z) (z_k : zap) :
  well_formed z -> outputXTVD (opts z) = false ->
  let z1 := set_opts (process_options (opts z)) z in
  bucket_counts (opts z1) = pre ++ count :: rest ->
  process_prefix json_grid json_overview net
    (max_count_of (opts z1)) pre ms z1 = Some (ms_k, z_k) ->
  episodes_numeric z_k ->
  need_fetch (opts z_k) (cached ms_k z_k) (curday_of count) = true ->
  (forall j, (j < Z.to_nat (retries (opts z_k)))%nat ->
     retryable (net (requests z_k + j)%nat ms_k) = true) ->
  let z_end := process_data json_grid json_overview net ms z1 in
  stations z_end = stations z_k /\ programs z_end = programs z_k
  /\ schedule z_end = schedule z_k
  /\ requests z_end = (requests z_k + Z.to_nat (retries (opts z_k)))%nat
  /\ exists doc,
       run json_grid json_overview net fuel ms z = Done doc
       /\ write_output_file fuel z_k = Done doc.
Proof.
  intros Hwf Hx z1 Hsplit Hpre Hnum Hf Hretry z_end.
  assert (well_formed z1) as Hwf1.
  { apply (well_formed_mono z); try done. }
  destruct (process_prefix_keeps _ _ _ _ _ _ Hpre Hwf1) as [Hwfk Hok].
  assert (z_end = set_requests
                    (requests z_k + Z.to_nat (retries (opts z_k)))%nat
                    (mark_bounds (max_count_of (opts z1)) count ms_k z_k))
    as Hend.
  { subst z_end. unfold process_data. rewrite Hsplit.
    rewrite (process_loop_prefix _ _ _ _ _ _ _ Hpre).
    by apply process_loop_break. }
  destruct (mark_bounds_same (max_count_of (opts z1)) count ms_k z_k)
    as (Ho & Hst & Hp & Hsc & _).
  assert (stations z_end = stations z_k /\ programs z_end = programs z_k
          /\ schedule z_end = schedule z_k /\ opts z_end = opts z_k)
    as (Est & Ep & Esc & Eo).
  { rewrite Hend.
    split; [exact Hst|]. split; [exact Hp|]. split; [exact Hsc|exact Ho]. }
  split; [done|]. split; [done|]. split; [done|].
  split; [by rewrite Hend|].
  assert (outputXTVD (opts z_k) = false) as Hxk.
  { rewrite Hok. subst z1. simpl. exact Hx. }
  destruct (write_output_file_ok fuel z_k Hwfk Hnum Hxk)
    as (cs & r & _ & _ & Hdoc).
  exists (Xmltv cs r.2). split; [|done].
  unfold run. fold z1. fold z_end.
  by rewrite (write_output_file_ext fuel z_k z_end).
Qed.

End retry_facts.

Lemma retries_exhausted_partial_output_witness :
  let z := zap_with_file default_options 1000 "two-airings" in
  let z1 := set_opts (process_options (opts z)) z in
  let z_k := (process_bucket sample_json_grid no_overview_json net_down 56 0 1000 z1).2 in
  well_formed z /\ outputXTVD (opts z) = false
  /\ process_prefix sample_json_grid no_overview_json
       net_down (max_count_of (opts z1)) [0] 1000 z1 = Some (10801000, z_k)
  /\ need_fetch (opts z_k) (cached 10801000 z_k) (curday_of 1) = true
  /\ run sample_json_grid no_overview_json net_down 0 1000 z
     = Done (Xmltv ["I5.123.gracenote.com"]
               [mkProgramme 100000 300000 "I5.123.gracenote.com"
                  "EP012345670001" (Some "News") []]).
Proof.
  intros z z1 z_k.
  assert (Hwf : well_formed z).
  { split; simpl.
    - intros cs d Hd. by apply elem_of_nil in Hd.
    - intros cs st Hst. by apply elem_of_nil in Hst. }
  assert (Hx : outputXTVD (opts z) = false) by reflexivity.
  assert (Hsplit : bucket_counts (opts z1)
                   = [0] ++ 1 :: (Z.of_nat <$> seq 2 54))
    by (vm_compute; reflexivity).
  assert (Hpre : process_prefix sample_json_grid no_overview_json net_down (max_count_of (opts z1)) [0]
                   1000 z1 = Some (10801000, z_k))
    by (vm_compute; reflexivity).
  assert (Hf : need_fetch (opts z_k) (cached 10801000 z_k) (curday_of 1)
               = true) by (vm_compute; reflexivity).
  assert (Hretry : forall j, (j < Z.to_nat (retries (opts z_k)))%nat ->
            retryable (net_down (requests z_k + j)%nat 10801000) = true)
    by (intros; reflexivity).
  assert (Hnum : episodes_numeric z_k).
  { apply episodes_numeric_dec. apply (bool_decide_unpack _).
    vm_compute. exact I. }
  split; [exact Hwf|]. split; [exact Hx|]. split; [exact Hpre|].
  split; [exact Hf|].
  destruct (retries_exhausted_partial_output sample_json_grid
              no_overview_json net_down 0 1000 z
              [0] 1 (Z.of_nat <$> seq 2 54) 10801000 z_k
              Hwf Hx Hsplit Hpre Hnum Hf Hretry)
    as (_ & _ & _ & _ & doc & Hrun & Hdoc).
  rewrite Hrun, <- Hdoc. vm_compute. reflexivity.
Defined.

(** C7, which the code does not meet for the alternate document.  The
    provider answers no request of the first bucket: the loop stops
    after [retries] requests with the end of the run never noted, since
    [XTVD_endTime] is set on the last pass only, and the header of the
    alternate document raises [TypeError] on formatting it.  The run is
    aborted and no document is written.  For the default document the
    claim holds when the episode numbers can be written, see
    [retries_exhausted_partial_output]. *)
Theorem xtvd_run_aborts_when_retries_exhausted (fuel : nat) :
  let z := initial_zap xtvd_options in
  let z_end := process_data sample_json_grid no_overview_json net_down 1000
                 (set_opts (process_options (opts z)) z) in
  requests z_end = 3%nat
  /\ XTVD_startTime z_end = Some 1000 /\ XTVD_endTime z_end = None
  /\ run sample_json_grid no_overview_json net_down fuel 1000 z
     = Raised TypeError.
Proof.
  intros z z_end. repeat split; vm_compute; reflexivity.
Qed.

(** ** The timestamp parser on sample strings *)

(** Values of [str2time1] on well-formed and malformed strings: single
    digit fields, a space before the day, either case of the letters,
    dates that do not exist, fields out of range, text before or after
    the timestamp. *)
Example str2time1_samples :
  str2time1 <$>
    ["2024-1-1T0:0:0Z"; "2024-13-01T00:00:00Z"; "2024-02-30T00:00:00Z";
     "0000-01-01T00:00:00Z"; "0001-01-01T00:00:00Z"; "2024-01-01T24:00:00Z";
     "2024-01-01T23:60:00Z"; "2024-01-01T23:59:60Z"; "2024-01-01T23:59:61Z";
     "2024-01-01T23:59:62Z"; "2024-01-01 00:00:00Z"; " 2024-01-01T00:00:00Z";
     "2024-01-01T00:00:00Z "; "2024-01-01T00:00:00"; "20240-01-01T00:00:00Z";
     "1969-12-31T23:59:59Z"; "9999-12-31T23:59:59Z"; "2024-01-32T00:00:00Z";
     "2024-00-10T00:00:00Z"; "2024-10-00T00:00:00Z"; "2024-1- 5T00:00:00Z";
     "2024-01-011T00:00:00Z"; "2024-012-01T00:00:00Z"; "2024-01-01T001:00:00Z";
     "2024-01-01T00:00:007Z"; "1900-02-29T00:00:00Z"; "2000-02-29T12:34:56Z";
     "2100-02-29T00:00:00Z"; "2024-12-31t23:59:59z"; "2024-01-01T7:8:9Z";
     "2024-1-10T00:00:00Z"; "2024-10-1T00:00:00Z"; "2024-01-01T00:00:00ZZ";
     "2024-01-01T00:00:0Z"]
  = [1704067200; 0; 0; 0; -62135596800; 0; 0; 0; 0; 0; 0; 0; 0; 0; 0; -1;
     253402300799; 0; 0; 0; 1704412800; 0; 0; 0; 0; 0; 951827696; 0;
     1735689599; 1704092889; 1704844800; 1727740800; 0; 1704067200].
Proof. vm_compute. reflexivity. Qed.

(** ** The grid parser against the field merges *)

Section keeps_more.
Context {A : Type} (f : program -> option A).
Hypothesis f_empty : f empty_program = None.

Lemma keeps_grid_genres gs : forall i cp cp' ps,
  (forall g j p, f (genre_set g j p) = f p) ->
  keeps_field f cp' ps (grid_genres gs i cp ps).
Proof.
  induction gs as [|g gs IH]; intros i cp cp' ps Hg; cbn [grid_genres].
  - apply keeps_field_refl.
  - eapply keeps_field_trans; [|by apply IH]. by apply keeps_upd_program.
Qed.

Lemma keeps_set_original_air_date cp cp' sch ps :
  (forall v p, f (set_originalAirDate v p) = f p) ->
  keeps_field f cp' ps (set_original_air_date cp sch ps).
Proof.
  intros Hg. unfold set_original_air_date.
  repeat case_match; try apply keeps_field_refl; by apply keeps_upd_program.
Qed.

Lemma keeps_parse_overview cp cp' t ps :
  (forall k n j p, f (credit_set k n j p) = f p) ->
  (forall n c p, f (role_set n c p) = f p) ->
  (forall v p, f (set_genres v p) = f p) ->
  (forall v p, f (set_imageUrl v p) = f p) ->
  (forall v p, f (set_description v p) = f p) ->
  (forall v p, f (set_originalAirDate v p) = f p) ->
  keeps_field f cp' ps (parse_overview cp t ps).
Proof.
  intros Hc Hr Hg Hi Hd Ho. unfold parse_overview.
  eapply keeps_field_trans; [by apply keeps_overview_head|].
  apply keeps_try_steps. forall_steps; intros s s'.
  - by apply keeps_overview_image.
  - by apply keeps_overview_description.
  - by apply keeps_overview_originalAirDate.
Qed.

End keeps_more.

Section grid_facts.
Variable json_overview : string -> option overview.

Lemma keeps_rating_post_json_overview cp cp' sid z :
  keeps_field rating cp' (programs z)
    (programs (post_json_overview json_overview cp sid z)).
Proof.
  unfold post_json_overview.
  repeat case_match; simpl; try apply keeps_field_refl;
    by apply keeps_parse_overview.
Qed.

(** The rating that one pass over a grid event leaves for the program
    of the event is the one that the observation [GridObs] leaves: the
    statements of the pass other than the one of lines 1051-1053 do not
    touch the rating. *)
Lemma parse_event_rating cs e z :
  let cp := j_id (e_program e) in
  Str.nonempty cp = true ->
  field_at rating cp (programs (parse_event json_overview cs e z))
  = field_at rating cp
      (merge_rating cp (programs z)
         (GridObs (j_title (e_program e)) (e_rating e))).
Proof.
  intros cp Hid. unfold parse_event. fold cp. rewrite Hid. cbn [negb].
  assert (forall steps,
            Forall (fun g => forall s,
                      keeps_field rating cp (programs s) (programs (g s)))
                   steps ->
            forall s, keeps_field rating cp (programs s)
                        (programs (run_steps steps s))) as Hkeep.
  { intros steps. apply (run_steps_rel
      (fun s s' => keeps_field rating cp (programs s) (programs s'))).
    - intros s. apply keeps_field_refl.
    - intros a b c. apply keeps_field_trans. }
  change (event_steps json_overview cs e)
    with (take 12 (event_steps json_overview cs e)
          ++ [on_programs (grid_rating (e_rating e) cp)]
          ++ drop 13 (event_steps json_overview cs e)).
  rewrite !run_steps_app.
  set (z12 := run_steps (take 12 _) z).
  assert (keeps_field rating cp (programs z) (programs z12)) as [K12 _].
  { apply Hkeep. cbn [take event_steps grid_steps app].
    unfold grid_description.
    forall_steps; intros s; repeat case_match; simpl;
      try apply keeps_field_refl;
      first [ by apply keeps_upd_program
            | by apply keeps_grid_field
            | by apply keeps_grid_genres ]. }
  set (z13 := run_steps [_] z12).
  assert (keeps_field rating cp (programs z13)
            (programs (run_steps (drop 13 (event_steps json_overview cs e))
                         z13))) as [K20 _].
  { apply Hkeep. cbn [drop event_steps grid_steps app].
    forall_steps; intros s; repeat case_match; simpl;
      try apply keeps_field_refl;
      first [ by apply keeps_rating_post_json_overview
            | by apply keeps_set_original_air_date
            | by apply keeps_upd_program ]. }
  rewrite K20. clearbody z12. subst z13. unfold run_steps. simpl.
  unfold grid_rating, grid_field.
  destruct (Str.nonempty (e_rating e)).
  - unfold upd_program. by rewrite !field_at_insert.
  - rewrite K12. symmetry.
    by apply (keeps_upd_program rating).
Qed.

End grid_facts.

(** Two grid events of one program with descriptions of 20 and then 10
    characters: the description of 10 characters stays. *)
Example grid_descriptions_last_wins :
  field_at description "EP012345670001"
    (programs (parse_channels no_overview_json grid_two_descriptions
                 (initial_zap default_options)))
  = Some "ten chars.".
Proof. vm_compute. reflexivity. Qed.

(** The same events with the details requested and an overview file in
    the cache directory: the backfill from the first airing stores its
    start, 100000, and the enrichment replaces it by the later date of
    the overview; the second airing, later still, leaves it. *)
Example grid_air_date_replaced :
  let z := set_detail_files {["EP012345670001" := "overview"]}
             (initial_zap details_options) in
  field_at originalAirDate "EP012345670001"
    (programs (parse_channels sample_json_overview grid_two_descriptions z))
  = Some 1577836800000.
Proof. vm_compute. reflexivity. Qed.

(** * Properties of the further parts *)

(** ** Text helpers *)

Lemma chars_app a b : chars (a +:+ b) = chars a ++ chars b.
Proof.
  induction a as [|c a IH]; [done|].
  change (c :: chars (a +:+ b) = c :: (chars a ++ chars b)). by rewrite IH.
Qed.

Lemma append_nil_r (s : string) : s +:+ EmptyString = s.
Proof.
  induction s as [|c s IH]; [done|].
  change (String c (s +:+ EmptyString) = String c s). by rewrite IH.
Qed.

Lemma append_assoc (a b c : string) : (a +:+ b) +:+ c = a +:+ (b +:+ c).
Proof.
  induction a as [|x a IH]; [done|].
  change (String x ((a +:+ b) +:+ c) = String x (a +:+ (b +:+ c))).
  by rewrite IH.
Qed.

Lemma expand_app f a b : expand f (a +:+ b) = expand f a +:+ expand f b.
Proof.
  induction a as [|c a IH]; [done|].
  change (f c +:+ expand f (a +:+ b) = (f c +:+ expand f a) +:+ expand f b).
  by rewrite IH, append_assoc.
Qed.

Lemma expand_expand f g s :
  expand g (expand f s) = expand (fun c => expand g (f c)) s.
Proof.
  induction s as [|c s IH]; [done|]. cbn [expand]. by rewrite expand_app, IH.
Qed.

Lemma expand_ext f g s : (forall c, f c = g c) -> expand f s = expand g s.
Proof.
  intros E. induction s as [|c s IH]; [done|]. cbn [expand]. by rewrite E, IH.
Qed.

Lemma expand_single s : expand (fun c => String c EmptyString) s = s.
Proof.
  induction s as [|c s IH]; [done|].
  change (String c (expand (fun c => String c EmptyString) s) = String c s).
  by rewrite IH.
Qed.

(** A function that acts on each character by itself; such functions
    compose. *)
Lemma charwise_expand f s :
  expand f s = expand (fun c => expand f (String c EmptyString)) s.
Proof.
  apply expand_ext. intros c. cbn [expand]. by rewrite append_nil_r.
Qed.

Lemma charwise_if (b : bool) (F : string -> string) s :
  (forall s, F s = expand (fun c => F (String c EmptyString)) s) ->
  (if b then F s else s)
  = expand (fun c => if b then F (String c EmptyString)
                     else String c EmptyString) s.
Proof. intros HF. destruct b; [apply HF|]. by rewrite expand_single. Qed.

Lemma charwise_comp (F G : string -> string) s :
  (forall s, F s = expand (fun c => F (String c EmptyString)) s) ->
  (forall s, G s = expand (fun c => G (String c EmptyString)) s) ->
  G (F s) = expand (fun c => G (F (String c EmptyString))) s.
Proof.
  intros HF HG. rewrite HF, HG, expand_expand.
  apply expand_ext. intros c. by rewrite <- HG.
Qed.

Lemma charwise_stage (b : bool) c by_ s :
  (if b then replace_char c by_ s else s)
  = expand (fun a => if b then replace_char c by_ (String a EmptyString)
                     else String a EmptyString) s.
Proof. apply (charwise_if b (replace_char c by_)). apply charwise_expand. Qed.

(** The replacements of [enc] act on each character by itself. *)
Lemma escape_expand o t :
  escape o t = expand (fun c => escape o (String c EmptyString)) t.
Proof.
  pose (S1 := fun t => if selected o "amp"
                       then replace_char amp_char "&amp;" t else t).
  pose (S2 := fun t => if selected o "quot"
                       then replace_char quot_char "&quot;" t else t).
  pose (S3 := fun t => if selected o "apos"
                       then replace_char apos_char "&apos;" t else t).
  pose (S4 := fun t => if selected o "lt"
                       then replace_char lt_char "&lt;" t else t).
  pose (S5 := fun t => if selected o "gt"
                       then replace_char gt_char "&gt;" t else t).
  pose (S6 := fun t => if encodeEntities o then expand entity_char t else t).
  assert (H1 : forall s, S1 s = expand (fun c => S1 (String c EmptyString)) s)
    by (intros s; apply charwise_stage).
  assert (H2 : forall s, S2 s = expand (fun c => S2 (String c EmptyString)) s)
    by (intros s; apply charwise_stage).
  assert (H3 : forall s, S3 s = expand (fun c => S3 (String c EmptyString)) s)
    by (intros s; apply charwise_stage).
  assert (H4 : forall s, S4 s = expand (fun c => S4 (String c EmptyString)) s)
    by (intros s; apply charwise_stage).
  assert (H5 : forall s, S5 s = expand (fun c => S5 (String c EmptyString)) s)
    by (intros s; apply charwise_stage).
  assert (H6 : forall s, S6 s = expand (fun c => S6 (String c EmptyString)) s).
  { intros s. apply (charwise_if _ (expand entity_char)). apply charwise_expand. }
  exact (charwise_comp (fun t => S5 (S4 (S3 (S2 (S1 t))))) S6 t
           (fun s => charwise_comp (fun t => S4 (S3 (S2 (S1 t)))) S5 s
              (fun s => charwise_comp (fun t => S3 (S2 (S1 t))) S4 s
                 (fun s => charwise_comp (fun t => S2 (S1 t)) S3 s
                    (fun s => charwise_comp S1 S2 s H1 H2) H3) H4) H5) H6).
Qed.

(** What the replacements make of one character, when every kind of
    markup character is replaced, is read back as that character. *)
Lemma unescape_escape_char (u e : bool) (c : ascii) (rest : string) :
  unescape_go None (escape (mkEncOptions u None e) (String c EmptyString)
                    +:+ rest)
  = String c <$> unescape_go None rest.
Proof.
  destruct c as [[] [] [] [] [] [] [] []]; destruct e; reflexivity.
Qed.

Lemma unescape_escape (u e : bool) (s : string) :
  unescape (escape (mkEncOptions u None e) s) = Some s.
Proof.
  unfold unescape. rewrite escape_expand.
  induction s as [|c s IH]; [done|].
  cbn [expand]. rewrite unescape_escape_char, IH. done.
Qed.

Lemma utf8_back_char (c : ascii) (rest : string) :
  utf8_back None (utf8_char c +:+ rest) = String c (utf8_back None rest).
Proof. destruct c as [[] [] [] [] [] [] [] []]; reflexivity. Qed.

Lemma utf8_back_expand (s : string) : utf8_back None (expand utf8_char s) = s.
Proof.
  induction s as [|c s IH]; [done|].
  cbn [expand]. by rewrite utf8_back_char, IH.
Qed.

(** X1.  Round trip of the escaping.  When every kind of markup
    character is replaced (no selection is given), a reader that
    resolves the five named entities and the decimal character
    references gets back from [enc] the text that went in, stripped and,
    unless the document is UTF-8, in the bytes of its UTF-8 form; this
    holds with and without the character references of
    [encodeEntities]. *)
Theorem enc_unescape (u e : bool) (t : string) :
  unescape (enc (mkEncOptions u None e) (Some t))
  = Some (recode (mkEncOptions u None e) t).
Proof. unfold enc. apply unescape_escape. Qed.

(** X2.  The escaping loses nothing but the white space around the
    text: when every kind of markup character is replaced, two texts
    with the same result of [enc] are equal once stripped. *)
Theorem enc_injective (u e : bool) (a b : string) :
  enc (mkEncOptions u None e) (Some a) = enc (mkEncOptions u None e) (Some b) ->
  strip a = strip b.
Proof.
  unfold enc. intros E.
  assert (Some (recode (mkEncOptions u None e) a)
          = Some (recode (mkEncOptions u None e) b)) as E'.
  { by rewrite <- !(unescape_escape u e), E. }
  injection E' as E'. unfold recode in E'. cbn [utf8] in E'.
  destruct u; [done|].
  by rewrite <- (utf8_back_expand (strip a)), E', utf8_back_expand.
Qed.

Lemma enc_injective_witness :
  enc (mkEncOptions false None false) (Some " a<b ")
  = enc (mkEncOptions false None false) (Some "a<b")
  /\ strip " a<b " = strip "a<b".
Proof.
  assert (E : enc (mkEncOptions false None false) (Some " a<b ")
              = enc (mkEncOptions false None false) (Some "a<b"))
    by reflexivity.
  split; [exact E|].
  exact (enc_injective false false " a<b " "a<b" E).
Defined.

Lemma Forall_chars_expand (P : ascii -> Prop) f s :
  (forall c, Forall P (chars (f c))) -> Forall P (chars (expand f s)).
Proof.
  intros Hf. induction s as [|c s IH]; [apply Forall_nil_2|].
  cbn [expand]. rewrite chars_app. apply Forall_app. by split.
Qed.

Lemma entity_char_ascii (c : ascii) :
  Forall (fun a => Str.code a <= 127) (chars (entity_char c)).
Proof.
  destruct c as [[] [] [] [] [] [] [] []];
    apply (bool_decide_unpack _); vm_compute; exact I.
Qed.

(** X3.  With [encodeEntities] set, whatever the other options and the
    text, [enc] returns characters below 128 only. *)
Theorem enc_entities_ascii (u : bool) (sel : option string)
    (t : option string) :
  Forall (fun c => Str.code c <= 127) (chars (enc (mkEncOptions u sel true) t)).
Proof.
  destruct t as [t|]; [|apply Forall_nil_2].
  unfold enc, escape. cbn [encodeEntities].
  apply Forall_chars_expand, entity_char_ascii.
Qed.

Lemma not_elem_of_chars_expand (c : ascii) f s :
  (forall a, a ∈ chars s -> c ∉ chars (f a)) -> c ∉ chars (expand f s).
Proof.
  induction s as [|a s IH]; intros Hf; [apply not_elem_of_nil|].
  cbn [expand]. rewrite chars_app. apply not_elem_of_app. split.
  - apply Hf. left.
  - apply IH. intros a' Ha'. apply Hf. by right.
Qed.

Lemma chars_single (a : ascii) : chars (String a EmptyString) = [a].
Proof. done. Qed.

(** A replacement does not bring in a character that its text lacks,
    and it removes the character it replaces. *)
Lemma stage_keeps (c : ascii) (b : bool) a by_ s :
  c ∉ chars by_ -> c ∉ chars s ->
  c ∉ chars (if b then replace_char a by_ s else s).
Proof.
  intros Hby Hs. destruct b; [|done].
  apply not_elem_of_chars_expand. intros x Hx.
  destruct (Ascii.eqb x a); [done|].
  rewrite chars_single. apply not_elem_of_cons. split; [|apply not_elem_of_nil].
  intros ->. done.
Qed.

Lemma stage_kills (c : ascii) by_ s :
  c ∉ chars by_ -> c ∉ chars (replace_char c by_ s).
Proof.
  intros Hby. apply not_elem_of_chars_expand. intros x Hx.
  destruct (Ascii.eqb x c) eqn:E; [done|].
  rewrite chars_single. apply not_elem_of_cons. split; [|apply not_elem_of_nil].
  intros ->. by rewrite Ascii.eqb_refl in E.
Qed.

Lemma entity_char_keeps (c a : ascii) :
  c ∈ [quot_char; apos_char; lt_char; gt_char] -> a ≠ c ->
  c ∉ chars (entity_char a).
Proof.
  intros Hc Ha.
  assert (bool_decide (a = c) || bool_decide (c ∉ chars (entity_char a)) = true)
    as H.
  { repeat (apply elem_of_cons in Hc as [->|Hc]);
      [..|by apply elem_of_nil in Hc];
      destruct a as [[] [] [] [] [] [] [] []]; vm_compute; reflexivity. }
  apply orb_true_iff in H as [H|H].
  - by apply bool_decide_eq_true_1 in H.
  - by apply bool_decide_eq_true_1 in H.
Qed.

Lemma last_keeps (c : ascii) (b : bool) s :
  c ∈ [quot_char; apos_char; lt_char; gt_char] -> c ∉ chars s ->
  c ∉ chars (if b then expand entity_char s else s).
Proof.
  intros Hc Hs. destruct b; [|done].
  apply not_elem_of_chars_expand. intros a Ha.
  apply entity_char_keeps; [done|]. by intros ->.
Qed.

(** X4.  A markup character whose kind is selected for replacement (all
    kinds are while no selection is given) does not occur in what [enc]
    returns: no quotation mark, apostrophe, or angle bracket is left in
    the text. *)
Theorem enc_markup_free (o : enc_options) (t : option string)
    (nm : string) (c : ascii) :
  (nm, c) ∈ [("quot", quot_char); ("apos", apos_char);
             ("lt", lt_char); ("gt", gt_char)] ->
  selected o nm = true ->
  c ∉ chars (enc o t).
Proof.
  intros Hin Hsel. destruct t as [t|]; [|apply not_elem_of_nil].
  unfold enc. generalize (recode o t). intros s.
  assert (Hc : c ∈ [quot_char; apos_char; lt_char; gt_char]).
  { apply (list_elem_of_fmap_2 snd) in Hin. exact Hin. }
  pose (S1 := fun t => if selected o "amp"
                       then replace_char amp_char "&amp;" t else t).
  pose (S2 := fun t => if selected o "quot"
                       then replace_char quot_char "&quot;" t else t).
  pose (S3 := fun t => if selected o "apos"
                       then replace_char apos_char "&apos;" t else t).
  pose (S4 := fun t => if selected o "lt"
                       then replace_char lt_char "&lt;" t else t).
  pose (S5 := fun t => if selected o "gt"
                       then replace_char gt_char "&gt;" t else t).
  change (c ∉ chars (if encodeEntities o
                     then expand entity_char (S5 (S4 (S3 (S2 (S1 s)))))
                     else S5 (S4 (S3 (S2 (S1 s)))))).
  apply last_keeps; [done|].
  repeat (apply elem_of_cons in Hin as [Hin|Hin]);
    [..|by apply elem_of_nil in Hin]; injection Hin as -> ->.
  - subst S5 S4 S3. cbv beta.
    do 3 (apply stage_keeps; [by apply (bool_decide_unpack _); vm_compute|]).
    subst S2. cbv beta. rewrite Hsel.
    apply stage_kills. by apply (bool_decide_unpack _); vm_compute.
  - subst S5 S4. cbv beta.
    do 2 (apply stage_keeps; [by apply (bool_decide_unpack _); vm_compute|]).
    subst S3. cbv beta. rewrite Hsel.
    apply stage_kills. by apply (bool_decide_unpack _); vm_compute.
  - subst S5. cbv beta.
    apply stage_keeps; [by apply (bool_decide_unpack _); vm_compute|].
    subst S4. cbv beta. rewrite Hsel.
    apply stage_kills. by apply (bool_decide_unpack _); vm_compute.
  - subst S5. cbv beta. rewrite Hsel.
    apply stage_kills. by apply (bool_decide_unpack _); vm_compute.
Qed.

Lemma enc_markup_free_witness :
  ("lt", lt_char) ∈ [("quot", quot_char); ("apos", apos_char);
                     ("lt", lt_char); ("gt", gt_char)]
  /\ selected (mkEncOptions true (Some "lt gt") false) "lt" = true
  /\ (lt_char ∉ chars (enc (mkEncOptions true (Some "lt gt") false)
                         (Some "a<b & c"))).
Proof.
  assert (H1 : ("lt", lt_char) ∈ [("quot", quot_char); ("apos", apos_char);
                                  ("lt", lt_char); ("gt", gt_char)]).
  { do 2 apply list_elem_of_further. apply list_elem_of_here. }
  assert (H2 : selected (mkEncOptions true (Some "lt gt") false) "lt" = true)
    by reflexivity.
  split; [exact H1|]. split; [exact H2|].
  exact (enc_markup_free (mkEncOptions true (Some "lt gt") false)
           (Some "a<b & c") "lt" lt_char H1 H2).
Defined.

(** ** The cache directory *)

Lemma rev_app_append (s acc : string) :
  String.rev_app s acc = String.rev s +:+ acc.
Proof.
  unfold String.rev. revert acc.
  induction s as [|c s IH]; intros acc; [done|].
  cbn [String.rev_app]. rewrite IH, (IH (String c EmptyString)).
  by rewrite append_assoc.
Qed.

Lemma rev_append (a b : string) :
  String.rev (a +:+ b) = String.rev b +:+ String.rev a.
Proof.
  induction a as [|c a IH].
  - by rewrite append_nil_r.
  - change (String.rev_app (a +:+ b) (String c EmptyString)
            = String.rev b +:+ String.rev_app a (String c EmptyString)).
    rewrite !rev_app_append, IH. by rewrite append_assoc.
Qed.

Lemma endswith_js_gz (s : string) :
  endswith ".html" (s +:+ ".js.gz") = false
  /\ endswith ".js" (s +:+ ".js.gz") = false.
Proof. unfold endswith. rewrite rev_append. split; reflexivity. Qed.

(** X5.  The cleaning of the cache directory passes no file to
    [os.unlink] that the program itself writes there: the files of the
    buckets, of the overview payloads and of the detail payloads are
    named [....js.gz], and the cleaning takes only names that end in
    [.html] or [.js], however old the files are. *)
Theorem clean_old_cache_files_keeps_cache (stale : string -> Z -> bool)
    (days : Z) (listing : list string) (ms : Z) (prefix cp : string) :
  (grid_file_name ms ∉ clean_old_cache_files stale days listing)
  /\ (overview_file_name cp ∉ clean_old_cache_files stale days listing)
  /\ (detail_file_name prefix cp ∉ clean_old_cache_files stale days listing).
Proof.
  assert (forall s, s +:+ ".js.gz" ∉ clean_old_cache_files stale days listing)
    as H.
  { intros s Hin. apply list_elem_of_In, filter_In in Hin as [_ Hin].
    destruct (endswith_js_gz s) as [E1 E2]. by rewrite E1, E2 in Hin. }
  split; [apply H|]. split.
  - unfold overview_file_name. rewrite <- append_assoc. apply H.
  - unfold detail_file_name. rewrite <- append_assoc. apply H.
Qed.

(** ** The bucket loop: requests, bounds of the run, a complete cache *)

Section run_facts.
Variable json_grid : string -> option (list json_channel).
Variable json_overview : string -> option overview.
Variable net : nat -> Z -> response.
Variable login_net : nat -> Session.login_reply.
Variable favorites_net : nat -> Session.favorites_reply.

Lemma get_url_loop_bound n ms : forall z,
  (requests z <= requests (get_url_loop net n ms z).2 <= requests z + n)%nat.
Proof.
  induction n as [|n IH]; intros z; cbn [get_url_loop].
  - simpl. lia.
  - specialize (IH (set_requests (S (requests z)) z)). cbn [requests set_requests] in IH.
    repeat case_match; cbn [snd requests set_requests]; lia.
Qed.

Lemma get_url_loop_same n ms : forall z,
  (get_url_loop net n ms z).2
  = set_requests (requests (get_url_loop net n ms z).2) z.
Proof.
  intros z. destruct (get_url_loop_state net n ms z) as [m Hm].
  rewrite Hm. by destruct z.
Qed.

(** What a pass of the loop leaves of the state it starts from. *)
Lemma parse_and_evict_frame ms z :
  let z' := parse_and_evict json_grid json_overview ms z in
  opts z' = opts z /\ requests z' = requests z
  /\ XTVD_startTime z' = XTVD_startTime z /\ XTVD_endTime z' = XTVD_endTime z
  /\ (forall ms', ms' ≠ ms -> grid_files z' !! ms' = grid_files z !! ms').
Proof.
  unfold parse_and_evict.
  pose proof (frame_parse_json json_grid json_overview ms z)
    as (Ho & _ & Hr & Hg & _ & Hs & He).
  set (z1 := parse_json _ _ ms z) in *. cbv zeta.
  repeat split; repeat case_match; simpl;
    rewrite ?Ho, ?Hr, ?Hs, ?He, ?Hg; try done;
    intros ms' Hne; rewrite ?lookup_delete_ne by done; by rewrite ?Hg.
Qed.

Lemma mark_bounds_files max_count count ms z :
  opts (mark_bounds max_count count ms z) = opts z
  /\ requests (mark_bounds max_count count ms z) = requests z
  /\ grid_files (mark_bounds max_count count ms z) = grid_files z.
Proof. unfold mark_bounds. by repeat case_match. Qed.

Lemma process_bucket_frame max_count count ms z :
  let r := process_bucket json_grid json_overview net max_count count ms z in
  opts r.2 = opts z
  /\ (requests z <= requests r.2
      <= requests z + Z.to_nat (retries (opts z)))%nat
  /\ XTVD_startTime r.2 = XTVD_startTime (mark_bounds max_count count ms z)
  /\ XTVD_endTime r.2 = XTVD_endTime (mark_bounds max_count count ms z)
  /\ (forall ms', ms' ≠ ms -> grid_files r.2 !! ms' = grid_files z !! ms').
Proof.
  unfold process_bucket. cbv zeta.
  destruct (mark_bounds_files max_count count ms z) as (Ho & Hr & Hg).
  set (zb := mark_bounds max_count count ms z) in *.
  destruct (need_fetch _ _ _).
  - unfold get_url.
    pose proof (get_url_loop_bound (Z.to_nat (retries (opts zb))) ms zb) as Hb.
    pose proof (get_url_loop_same (Z.to_nat (retries (opts zb))) ms zb) as Hs.
    destruct (get_url_loop net _ ms zb) as [rs zu]. cbn [snd] in Hb, Hs.
    assert (opts zu = opts zb /\ XTVD_startTime zu = XTVD_startTime zb
            /\ XTVD_endTime zu = XTVD_endTime zb
            /\ grid_files zu = grid_files zb) as (Hou & Hsu & Heu & Hgu).
    { rewrite Hs. by destruct zb. }
    rewrite Ho, Hr in Hb.
    destruct (Str.nonempty rs); cbn [snd].
    + match goal with
      | |- context [parse_and_evict _ _ ms ?zz] =>
          pose proof (parse_and_evict_frame ms zz) as (Ho' & Hr' & Hs' & He' & Hg')
      end.
      rewrite Ho', Hr', Hs', He'. cbn [opts requests XTVD_startTime XTVD_endTime set_grid_files].
      repeat split;
        first [ congruence | lia
              | intros ms' Hne; rewrite Hg' by done;
                cbn [grid_files set_grid_files];
                rewrite lookup_insert_ne by done; by rewrite Hgu, Hg ].
    + repeat split;
        first [ congruence | lia | intros ms' _; by rewrite Hgu, Hg ].
  - cbn [snd].
    pose proof (parse_and_evict_frame ms zb) as (Ho' & Hr' & Hs' & He' & Hg').
    rewrite Ho', Hr', Hs', He'.
    repeat split;
      first [ congruence | lia
            | intros ms' Hne; rewrite Hg' by done; by rewrite Hg ].
Qed.

Lemma process_loop_requests max_count counts : forall ms z,
  (requests (process_loop json_grid json_overview net max_count counts ms z)
   <= requests z + length counts * Z.to_nat (retries (opts z)))%nat.
Proof.
  induction counts as [|count counts IH]; intros ms z; cbn [process_loop].
  - simpl. lia.
  - pose proof (process_bucket_frame max_count count ms z) as (Ho & Hr & _).
    destruct (process_bucket _ _ _ _ _ _ _) as [go zb]. cbn [snd] in *.
    destruct go.
    + specialize (IH (ms + gridHours * 3600 * 1000) zb).
      rewrite Ho in IH. cbn [length]. lia.
    + cbn [length]. lia.
Qed.

(** X6.  A run sends at most [retries] requests for each bucket, and
    [process_options] caps [retries] at 20: with [days] days of eight
    buckets each, the bucket loop sends at most
    [8 * days * min(retries, 20)] requests. *)
Theorem process_data_requests_bound (ms : Z) (z : zap) :
  let z0 := set_opts (process_options (opts z)) z in
  (requests (process_data json_grid json_overview net ms z0)
   <= requests z
      + Z.to_nat (8 * days (opts z))
        * Z.to_nat (Z.min (retries (opts z)) 20))%nat.
Proof.
  intros z0. unfold process_data.
  pose proof (process_loop_requests (max_count_of (opts z0))
                (bucket_counts (opts z0)) ms z0) as H.
  assert (length (bucket_counts (opts z0)) = Z.to_nat (8 * days (opts z)))
    as Hlen.
  { unfold bucket_counts. rewrite length_fmap, length_seq.
    unfold max_count_of. subst z0. cbn [opts set_opts process_options days].
    change (24 / gridHours) with 8. f_equal. lia. }
  assert (retries (opts z0) = Z.min (retries (opts z)) 20) as Hret.
  { subst z0. cbn [opts set_opts process_options retries].
    destruct (Z.ltb_spec 20 (retries (opts z))); lia. }
  rewrite Hlen, Hret in H. exact H.
Qed.

Lemma process_prefix_app max_count l1 l2 : forall ms z,
  process_prefix json_grid json_overview net max_count (l1 ++ l2) ms z
  = match process_prefix json_grid json_overview net max_count l1 ms z with
    | Some (ms1, z1) =>
        process_prefix json_grid json_overview net max_count l2 ms1 z1
    | None => None
    end.
Proof.
  induction l1 as [|count l1 IH]; intros ms z; cbn [app process_prefix].
  - done.
  - destruct (process_bucket _ _ _ _ _ _ _) as [go zb].
    destruct go; [apply IH|done].
Qed.

(** Passes other than the first leave the start of the run alone, and
    passes other than the last leave its end alone. *)
Lemma process_prefix_start max_count counts : forall ms z ms' z',
  Forall (fun count => count ≠ 0) counts ->
  process_prefix json_grid json_overview net max_count counts ms z
  = Some (ms', z') ->
  XTVD_startTime z' = XTVD_startTime z
  /\ ms' = ms + Z.of_nat (length counts) * 10800000.
Proof.
  induction counts as [|count counts IH]; intros ms z ms' z' Hne E;
    cbn [process_prefix] in E.
  - injection E as <- <-. split; [done|]. simpl. lia.
  - apply Forall_cons in Hne as [Hc Hne].
    pose proof (process_bucket_frame max_count count ms z)
      as (_ & _ & Hs & _).
    destruct (process_bucket _ _ _ _ _ _ _) as [go zb]. cbn [snd] in Hs.
    destruct go; [|done].
    destruct (IH _ _ _ _ Hne E) as [Hs' Hms]. split.
    + rewrite Hs', Hs. unfold mark_bounds.
      apply Z.eqb_neq in Hc. rewrite Hc. by case_match.
    + rewrite Hms. change gridHours with 3. cbn [length]. lia.
Qed.

Lemma process_prefix_end max_count counts : forall ms z ms' z',
  Forall (fun count => count ≠ max_count - 1) counts ->
  process_prefix json_grid json_overview net max_count counts ms z
  = Some (ms', z') ->
  XTVD_endTime z' = XTVD_endTime z.
Proof.
  induction counts as [|count counts IH]; intros ms z ms' z' Hne E;
    cbn [process_prefix] in E.
  - by injection E as <- <-.
  - apply Forall_cons in Hne as [Hc Hne].
    pose proof (process_bucket_frame max_count count ms z)
      as (_ & _ & _ & He & _).
    destruct (process_bucket _ _ _ _ _ _ _) as [go zb]. cbn [snd] in He.
    destruct go; [|done].
    rewrite (IH _ _ _ _ Hne E), He. unfold mark_bounds.
    apply Z.eqb_neq in Hc. rewrite Hc. by case_match.
Qed.

Lemma bucket_counts_split (n : nat) :
  (2 <= n)%nat ->
  Z.of_nat <$> seq 0 n
  = [0] ++ (Z.of_nat <$> seq 1 (n - 2)) ++ [Z.of_nat n - 1].
Proof.
  intros Hn.
  replace n with (1 + ((n - 2) + 1))%nat at 1 by lia.
  rewrite seq_app, fmap_app. cbn [seq fmap list_fmap]. f_equal.
  rewrite seq_app, fmap_app. f_equal. cbn [seq fmap list_fmap].
  f_equal. lia.
Qed.

(** X7.  The bounds of a run that no pass has left early.  For one day
    or more, the loop notes the start of the first bucket as the start
    of the run and the last millisecond of the last bucket as its end:
    the two are [days] days less one millisecond apart. *)
Theorem run_bounds (ms ms' : Z) (z z' : zap) :
  1 <= days (opts z) ->
  process_prefix json_grid json_overview net (max_count_of (opts z))
    (bucket_counts (opts z)) ms z = Some (ms', z') ->
  process_data json_grid json_overview net ms z = z'
  /\ XTVD_startTime z' = Some ms
  /\ XTVD_endTime z' = Some (ms + days (opts z) * 86400000 - 1).
Proof.
  intros Hd E. split.
  { unfold process_data.
    rewrite <- (app_nil_r (bucket_counts (opts z))).
    by rewrite (process_loop_prefix _ _ _ _ _ _ _ _ _ _ E). }
  unfold bucket_counts, max_count_of in E.
  change (24 / gridHours) with 8 in E.
  set (n := Z.to_nat (days (opts z) * 8)) in *.
  assert (Z.of_nat n = days (opts z) * 8) as Hn by (subst n; lia).
  rewrite bucket_counts_split in E by lia.
  cbn [app process_prefix] in E.
  pose proof (process_bucket_frame (days (opts z) * 8) 0 ms z)
    as (_ & _ & Hs0 & _).
  destruct (process_bucket _ _ _ _ 0 ms z) as [go z0]. cbn [snd] in Hs0.
  destruct go; [|done].
  rewrite process_prefix_app in E. cbn [process_prefix] in E.
  destruct (process_prefix json_grid json_overview net _
              (Z.of_nat <$> seq 1 (n - 2)) _ z0)
    as [[ms1 z1]|] eqn:E1; [|done].
  apply process_prefix_start in E1 as [Hs1 Hms1].
  2:{ apply Forall_fmap, Forall_forall. intros i Hi.
      apply elem_of_seq in Hi. simpl. lia. }
  rewrite length_fmap, length_seq in Hms1.
  pose proof (process_bucket_frame (days (opts z) * 8) (Z.of_nat n - 1) ms1 z1)
    as (_ & _ & Hs2 & He2 & _).
  destruct (process_bucket _ _ _ _ (Z.of_nat n - 1) ms1 z1) as [go z2].
  cbn [snd] in Hs2, He2. destruct go; [|done].
  injection E as <- <-.
  unfold mark_bounds in *.
  rewrite Z.eqb_refl in Hs0.
  assert ((Z.of_nat n - 1 =? 0) = false) as Hz by (apply Z.eqb_neq; lia).
  assert ((Z.of_nat n - 1 =? days (opts z) * 8 - 1) = true) as Hl
    by (apply Z.eqb_eq; lia).
  rewrite Hz, Hl in Hs2, He2. split.
  - rewrite Hs2. cbn [XTVD_startTime set_XTVD_endTime]. rewrite Hs1, Hs0. done.
  - rewrite He2. cbn [XTVD_endTime set_XTVD_endTime]. f_equal.
    rewrite Hms1. change gridHours with 3. lia.
Qed.

Lemma max_count_of_process_options o :
  max_count_of (process_options o) = days o * 8.
Proof. reflexivity. Qed.

(** Outside every no-cache window, a bucket whose file is in the cache
    directory is not fetched. *)
Lemma need_fetch_cached (o : options) (a : Z) ms z :
  opts z = process_options o ->
  ncdays o <= 0 -> ncsdays o <= 0 -> ncmday o <= 0 ->
  0 <= a < 8 * days o ->
  cached ms z = true ->
  need_fetch (opts z) (cached ms z) (curday_of a) = false.
Proof.
  intros Ho Hn1 Hn2 Hn3 Ha Hc.
  unfold need_fetch. rewrite Ho, Hc.
  unfold process_options. cbn [ncdays ncsdays ncmday].
  unfold curday_of. change (24 / gridHours) with 8.
  assert (0 <= a / 8 < days o) as Hq.
  { split; [apply Z.div_pos; lia|].
    apply Z.div_lt_upper_bound; lia. }
  cbn [negb orb].
  rewrite !orb_false_iff, Z.ltb_ge, Z.leb_gt, Z.eqb_neq. lia.
Qed.

Lemma process_bucket_unforced max_count count ms z :
  need_fetch (opts z) (cached ms z) (curday_of count) = false ->
  process_bucket json_grid json_overview net max_count count ms z
  = (true, parse_and_evict json_grid json_overview ms
             (mark_bounds max_count count ms z)).
Proof.
  intros Hf. unfold process_bucket. cbv zeta.
  destruct (mark_bounds_files max_count count ms z) as (Ho & Hr & Hg).
  assert (cached ms (mark_bounds max_count count ms z) = cached ms z) as Hc
    by (unfold cached; by rewrite Hg).
  by rewrite Ho, Hc, Hf.
Qed.

(** Over cached buckets the loop with the login runs as the loop of
    Section [Pipeline] does, when no pass reaches [get_z_token] or the
    login has nothing to do. *)
Lemma session_loop_cached (o : options) max_count (ms0 : Z) len :
  forall (a : nat) c,
  opts (Session.state c) = process_options o ->
  ncdays o <= 0 -> ncsdays o <= 0 -> ncmday o <= 0 ->
  Z.of_nat (a + len) <= 8 * days o ->
  (forall i, Z.of_nat a <= i < Z.of_nat (a + len) ->
     cached (ms0 + i * 10800000) (Session.state c) = true) ->
  Session.calm c ->
  exists z',
    process_prefix json_grid json_overview net max_count
      (Z.of_nat <$> seq a len) (ms0 + Z.of_nat a * 10800000) (Session.state c)
    = Some (ms0 + Z.of_nat (a + len) * 10800000, z')
    /\ requests z' = requests (Session.state c)
    /\ Session.process_loop json_grid json_overview net login_net
         favorites_net max_count (Z.of_nat <$> seq a len)
         (ms0 + Z.of_nat a * 10800000) c
       = (None, Session.set_state z' c).
Proof.
  induction len as [|len IH]; intros a c Ho Hn1 Hn2 Hn3 Hlen Hc Hcalm.
  - exists (Session.state c).
    cbn [seq fmap list_fmap process_prefix Session.process_loop].
    rewrite Nat.add_0_r. by destruct c.
  - cbn [seq fmap list_fmap process_prefix Session.process_loop].
    set (ms := ms0 + Z.of_nat a * 10800000).
    assert (need_fetch (opts (Session.state c)) (cached ms (Session.state c))
              (curday_of (Z.of_nat a)) = false) as Hf.
    { apply (need_fetch_cached o); try done; [lia|]. subst ms. apply Hc. lia. }
    rewrite (session_process_bucket_unforced json_grid json_overview net
               login_net favorites_net max_count (Z.of_nat a) ms c Hf).
    rewrite (process_bucket_unforced max_count (Z.of_nat a) ms _ Hf).
    destruct (mark_bounds_files max_count (Z.of_nat a) ms (Session.state c))
      as (Hmo & Hmr & Hmg).
    rewrite parse_and_evict_calm by (by apply calm_set_state).
    unfold Session.on_state. cbn [Session.state Session.set_state].
    set (zb := parse_and_evict json_grid json_overview ms
                 (mark_bounds max_count (Z.of_nat a) ms (Session.state c))).
    pose proof (parse_and_evict_frame ms
                  (mark_bounds max_count (Z.of_nat a) ms (Session.state c)))
      as (Ho' & Hr' & _ & _ & Hg').
    fold zb in Ho', Hr', Hg'.
    destruct (IH (S a) (Session.set_state zb c)) as (z' & E & Hr2 & Es);
      try done.
    + cbn [Session.state Session.set_state]. congruence.
    + lia.
    + intros i Hi. cbn [Session.state Session.set_state]. unfold cached in *.
      rewrite Hg' by (subst ms; lia). rewrite Hmg. apply Hc. lia.
    + apply calm_set_state; [congruence|done].
    + cbn [Session.state Session.set_state] in E, Hr2.
      exists z'.
      replace (ms + gridHours * 3600 * 1000)
        with (ms0 + Z.of_nat (S a) * 10800000)
        by (subst ms; change gridHours with 3; lia).
      split; [|split].
      * rewrite E. do 2 f_equal. lia.
      * congruence.
      * exact Es.
Qed.

(** X8.  A run over a complete cache.  When no no-cache window is set
    (none of [ncdays], [ncsdays] and [ncmday] is positive), the file of
    every bucket of the run is in the cache directory, and the details
    are not asked for or the login has nothing to do (a token is held,
    or no password is given), then no pass leaves the bucket loop early
    and the loop sends no request, neither for the grid nor on behalf
    of the login.  With option [a], or without a password, nothing is
    sent ahead of the loop either. *)
Theorem cached_run_sends_nothing (o : options) (ms : Z)
    (c : Session.client) :
  opts (Session.state c) = process_options o ->
  ncdays o <= 0 -> ncsdays o <= 0 -> ncmday o <= 0 ->
  (forall i, 0 <= i < 8 * days o ->
     cached (ms + i * 10800000) (Session.state c) = true) ->
  Session.calm c ->
  let r := Session.bucket_loop json_grid json_overview net login_net
             favorites_net ms c in
  (exists ms',
     process_prefix json_grid json_overview net
       (max_count_of (opts (Session.state c)))
       (bucket_counts (opts (Session.state c))) ms (Session.state c)
     = Some (ms', Session.state r.2))
  /\ r.1 = None
  /\ requests (Session.state r.2) = requests (Session.state c)
  /\ Session.posts r.2 = Session.posts c
  /\ (allChan o = true
      \/ Str.nonempty (Session.userEmail c)
         && Str.nonempty (Session.password c) = false ->
      Session.process_data json_grid json_overview net login_net
        favorites_net ms c = r).
Proof.
  intros Ho Hn1 Hn2 Hn3 Hc Hcalm r.
  assert (exists ms' z',
            process_prefix json_grid json_overview net
              (max_count_of (opts (Session.state c)))
              (bucket_counts (opts (Session.state c))) ms (Session.state c)
            = Some (ms', z')
            /\ requests z' = requests (Session.state c)
            /\ r = (None, Session.set_state z' c)) as (ms' & z' & E & Hr & Er).
  { subst r. unfold Session.bucket_loop, bucket_counts.
    rewrite Ho, max_count_of_process_options.
    destruct (decide (days o < 0)) as [Hneg|Hpos].
    { exists ms, (Session.state c).
      replace (Z.to_nat (days o * 8)) with 0%nat by lia.
      cbn [seq fmap list_fmap process_prefix Session.process_loop].
      by destruct c. }
    destruct (session_loop_cached o (days o * 8) ms
                (Z.to_nat (days o * 8)) 0%nat c Ho Hn1 Hn2 Hn3)
      as (z' & E & Hr & Es); [lia| |done|].
    - intros i Hi. apply Hc. lia.
    - rewrite Z.add_0_r in E, Es. eauto 10. }
  rewrite Er. cbn [fst snd Session.state Session.set_state Session.posts].
  split; [by exists ms'|]. split; [done|]. split; [done|]. split; [done|].
  intros Hq. rewrite <- Er. unfold Session.process_data. fold r.
  rewrite Ho. unfold process_options at 1. cbn [allChan].
  destruct (allChan o); [done|]. destruct Hq as [Hq|Hq]; [done|].
  unfold Session.login. by rewrite Hq.
Qed.

End run_facts.

Lemma run_bounds_witness :
  let o := mkOptions 1 1 0 (-1) 3 false false false false false false false
             false false false in
  let net := fun (n : nat) (ms : Z) => Reply 200 "{}" in
  let z := initial_zap o in
  1 <= days (opts z)
  /\ XTVD_startTime (process_data (fun _ => None) no_overview_json net 1000 z)
     = Some 1000
  /\ XTVD_endTime (process_data (fun _ => None) no_overview_json net 1000 z)
     = Some (1000 + 1 * 86400000 - 1).
Proof.
  intros o net z.
  assert (H1 : 1 <= days (opts z)) by (vm_compute; discriminate).
  assert (exists r, process_prefix (fun _ => None) no_overview_json net
                      (max_count_of (opts z)) (bucket_counts (opts z)) 1000 z
                    = Some r) as [[ms' z'] E].
  { eexists. vm_compute. reflexivity. }
  destruct (run_bounds (fun _ => None) no_overview_json net 1000 ms' z z' H1 E)
    as (Hp & Hs & He).
  split; [exact H1|]. rewrite Hp. split; [exact Hs|exact He].
Defined.

Lemma cached_run_sends_nothing_witness :
  let o := mkOptions 1 0 0 (-1) 3 true false false false false false false
             false true false in
  let files : gmap Z string :=
    list_to_map
      ((fun i => (1000 + i * 10800000, "two-descriptions")) <$> seqZ 0 8) in
  let c := client_without_password
             (set_grid_files files (initial_zap (process_options o))) in
  let r := Session.process_data details_json_grid no_overview_json net_down
             login_granted no_favorites 1000 c in
  Session.calm c
  /\ r.1 = None
  /\ requests (Session.state r.2) = 0%nat
  /\ Session.posts r.2 = 0%nat.
Proof.
  intros o files c r.
  assert (Ho : opts (Session.state c) = process_options o) by reflexivity.
  assert (Hc : forall i, 0 <= i < 8 * days o ->
                 cached (1000 + i * 10800000) (Session.state c) = true).
  { intros i Hi. change (days o) with 1 in Hi.
    assert (i = 0 \/ i = 1 \/ i = 2 \/ i = 3 \/ i = 4 \/ i = 5 \/ i = 6 \/ i = 7)
      as Hcases by lia.
    destruct Hcases as [->|[->|[->|[->|[->|[->|[->| ->]]]]]]];
      vm_compute; reflexivity. }
  assert (Hcalm : Session.calm c) by (right; right; reflexivity).
  destruct (cached_run_sends_nothing details_json_grid no_overview_json
              net_down login_granted no_favorites
              o 1000 c Ho ltac:(simpl; lia) ltac:(simpl; lia)
              ltac:(simpl; lia) Hc Hcalm)
    as (_ & Hn & Hr & Hp & Hd).
  split; [exact Hcalm|]. subst r. rewrite (Hd (or_introl eq_refl)).
  split; [exact Hn|]. split; [exact Hr|exact Hp].
Defined.

(** ** The stations *)

Lemma same_stations_refl z : same_stations z z.
Proof. by repeat split. Qed.

Lemma same_stations_trans z1 z2 z3 :
  same_stations z1 z2 -> same_stations z2 z3 -> same_stations z1 z3.
Proof. intros (?&?&?&?) (?&?&?&?). repeat split; congruence. Qed.

Section station_facts.
Variable json_grid : string -> option (list json_channel).
Variable json_overview : string -> option overview.
Variable net : nat -> Z -> response.

Lemma same_stations_post_json_overview cp sid z :
  same_stations z (post_json_overview json_overview cp sid z).
Proof. unfold post_json_overview. repeat case_match; by repeat split. Qed.

Lemma same_stations_event_steps cs e :
  Forall (fun f => forall z, same_stations z (f z))
    (event_steps json_overview cs e).
Proof.
  unfold event_steps, grid_steps. cbn [app]. forall_steps; intros z;
    repeat case_match; try apply same_stations_post_json_overview;
    by repeat split.
Qed.

Lemma same_stations_parse_event cs e z :
  same_stations z (parse_event json_overview cs e z).
Proof.
  unfold parse_event. case_match; [apply same_stations_refl|].
  apply run_steps_rel;
    [apply same_stations_refl | apply same_stations_trans
     | apply same_stations_event_steps].
Qed.

Lemma same_stations_parse_events cs es z :
  same_stations z (foldl (fun z e => parse_event json_overview cs e z) z es).
Proof.
  apply (foldl_rel same_stations);
    [apply same_stations_refl | apply same_stations_trans
     | intros; apply same_stations_parse_event].
Qed.

(** A property of the stations that a new station keeps is kept by the
    parser of a payload and by the bucket loop. *)
Section kept.
Variable P : zap -> Prop.
Hypothesis P_same : forall z z', same_stations z z' -> P z -> P z'.
Hypothesis P_add : forall s z starred starred',
  channel_filter (opts z) (zapFavorites z) starred (c_channelId s)
  = Some starred' ->
  dmem (c_channelNo s +:+ "." +:+ c_channelId s) (stations z) = false ->
  P z -> P (add_station s z).

Lemma kept_parse_channel s z starred :
  P z -> P (parse_channel json_overview s (z, starred)).1.
Proof.
  intros HP. rewrite parse_channel_eq.
  destruct (channel_filter _ _ _ _) as [starred'|] eqn:Ef; [|done].
  cbn [fst]. cbv zeta.
  eapply P_same; [apply same_stations_parse_events|].
  destruct (dmem _ _) eqn:Em; [done|]. by apply (P_add s z starred starred').
Qed.

Lemma kept_parse_channels channels : forall z starred,
  P z ->
  P (foldl (fun acc s => parse_channel json_overview s acc)
       (z, starred) channels).1.
Proof.
  induction channels as [|s channels IH]; intros z starred HP; cbn [foldl].
  - done.
  - pose proof (kept_parse_channel s z starred HP) as H.
    destruct (parse_channel json_overview s (z, starred)) as [z' starred'].
    by apply IH.
Qed.

Lemma kept_parse_json ms z :
  P z -> P (parse_json json_grid json_overview ms z).
Proof.
  intros HP. unfold parse_json, parse_channels. case_match; [|done].
  by apply kept_parse_channels.
Qed.

Lemma kept_parse_and_evict ms z :
  P z -> P (parse_and_evict json_grid json_overview ms z).
Proof.
  intros HP. unfold parse_and_evict. cbv zeta.
  apply (P_same (parse_json json_grid json_overview ms z));
    [|by apply kept_parse_json].
  repeat case_match; by repeat split.
Qed.

Lemma kept_process_bucket max_count count ms z :
  P z -> P (process_bucket json_grid json_overview net max_count count ms z).2.
Proof.
  intros HP. unfold process_bucket. cbv zeta.
  assert (P (mark_bounds max_count count ms z)) as Hb.
  { apply (P_same z); [|done]. unfold mark_bounds.
    repeat case_match; by repeat split. }
  set (zb := mark_bounds max_count count ms z) in *.
  destruct (need_fetch _ _ _); cbn [snd]; [|by apply kept_parse_and_evict].
  unfold get_url.
  pose proof (get_url_loop_same net (Z.to_nat (retries (opts zb))) ms zb) as Hs.
  destruct (get_url_loop net _ ms zb) as [rs zu]. cbn [snd] in Hs.
  assert (P zu) as Hu.
  { apply (P_same zb); [|done]. rewrite Hs. by repeat split. }
  destruct (Str.nonempty rs); cbn [snd]; [|done].
  apply kept_parse_and_evict. apply (P_same zu); [|done]. by repeat split.
Qed.

Lemma kept_process_loop max_count counts : forall ms z,
  P z -> P (process_loop json_grid json_overview net max_count counts ms z).
Proof.
  induction counts as [|count counts IH]; intros ms z HP; cbn [process_loop].
  - done.
  - pose proof (kept_process_bucket max_count count ms z HP) as H.
    destruct (process_bucket _ _ _ _ _ _ _) as [go zb]. cbn [snd] in H.
    destruct go; [by apply IH|done].
Qed.

Lemma kept_process_data ms z :
  P z -> P (process_data json_grid json_overview net ms z).
Proof. apply kept_process_loop. Qed.

End kept.

(** X9.  The first appearance of a station decides its entry: whatever
    the buckets of a run bring, a station that is stored keeps its
    name, its number, its display order and its logo. *)
Theorem station_first_seen_wins (ms : Z) (z : zap) (cs : string)
    (st : station) :
  dget cs (stations z) = Some st ->
  dget cs (stations (process_data json_grid json_overview net ms z)) = Some st.
Proof.
  intros H.
  apply (kept_process_data (fun z' => dget cs (stations z') = Some st));
    [| |done].
  - intros z1 z2 (_ & _ & Hst & _) H1. by rewrite Hst.
  - intros s z1 starred starred' _ Hm H1.
    unfold add_station. cbn [stations set_coNum set_stations].
    rewrite dget_dset_ne; [done|].
    intros <-. unfold dmem in Hm. by rewrite H1 in Hm.
Qed.

(** X10.  With favorites in place and without [allChan], a run stores
    no station but those of the favorites: a station found after the
    run was there before it, or its id is a favorite. *)
Theorem stations_from_favorites (ms : Z) (z : zap) (cs : string)
    (st : station) :
  allChan (opts z) = false -> zapFavorites z ≠ ∅ ->
  dget cs (stations (process_data json_grid json_overview net ms z)) = Some st ->
  dget cs (stations z) = Some st \/ stnNum st ∈ zapFavorites z.
Proof.
  intros Ha Hf.
  assert (let z' := process_data json_grid json_overview net ms z in
          opts z' = opts z /\ zapFavorites z' = zapFavorites z
          /\ forall cs st, dget cs (stations z') = Some st ->
               dget cs (stations z) = Some st \/ stnNum st ∈ zapFavorites z)
    as (_ & _ & H); [|apply H].
  apply (kept_process_data
           (fun z' => opts z' = opts z /\ zapFavorites z' = zapFavorites z
              /\ forall cs st, dget cs (stations z') = Some st ->
                   dget cs (stations z) = Some st
                   \/ stnNum st ∈ zapFavorites z)).
  - intros z1 z2 (Ho & Hfa & Hst & _) (Ho1 & Hf1 & H1).
    rewrite Ho, Hfa, Hst. done.
  - intros s z1 starred starred' Hcf Hm (Ho1 & Hf1 & H1).
    split; [done|]. split; [done|].
    intros cs' st'. unfold add_station. cbn [stations set_coNum set_stations].
    destruct (decide (c_channelNo s +:+ "." +:+ c_channelId s = cs'))
      as [<-|Hne].
    + rewrite dget_dset_eq. intros [= <-]. right.
      unfold new_station. cbn [stnNum].
      unfold channel_filter in Hcf. rewrite Ho1, Hf1, Ha in Hcf.
      destruct (Str.nonempty (c_channelId s)); [|done]. cbn [negb] in Hcf.
      rewrite bool_decide_eq_false_2 in Hcf by done. cbn [negb andb] in Hcf.
      destruct (bool_decide (c_channelId s ∈ zapFavorites z)) eqn:E; [|done].
      by apply bool_decide_eq_true_1 in E.
    + rewrite dget_dset_ne by done. apply H1.
  - by repeat split; auto.
Qed.

Lemma dset_absent {K V} `{EqDecision K} (k : K) (v : V) (d : list (K * V)) :
  dget k d = None -> dset k v d = d ++ [(k, v)].
Proof.
  induction d as [|[k' v'] d IH]; simpl; [done|].
  destruct (decide (k = k')); [done|]. intros H. by rewrite IH.
Qed.

Lemma orders_below_mono b b' sts :
  b <= b' -> orders_below b sts -> orders_below b' sts.
Proof.
  intros Hb. induction sts as [|st sts IH]; [done|].
  intros (Hrest & n & Ho & Hn & Hall). split; [by apply IH|].
  exists n. repeat split; [done|lia|done].
Qed.

Lemma orders_below_snoc b sts st :
  order st = OrdNum b -> orders_below b sts ->
  orders_below (b + 1) (sts ++ [st]).
Proof.
  intros Ho. induction sts as [|st' sts IH].
  - intros _. split; [done|]. exists b. repeat split; [done|lia|].
    apply Forall_nil_2.
  - intros (Hrest & n & Ho' & Hn & Hall). split; [by apply IH|].
    exists n. repeat split; [done|lia|].
    apply Forall_app. split; [done|].
    apply Forall_cons_2; [|apply Forall_nil_2]. by exists b.
Qed.

(** Stations whose display orders grow along the dictionary are
    written in the order of the dictionary. *)
Lemma sorted_stations_counted z (l : list (string * station)) :
  (forall k st, (k, st) ∈ l -> dget k (stations z) = Some st) ->
  orders_below (coNum z) l.*2 ->
  sorted_stations z l.*1 = Ok l.*1.
Proof.
  unfold sorted_stations, sorted_r.
  induction l as [|[k st] l IH]; intros Hget Hord; [done|].
  cbn [fmap list_fmap fst snd foldr] in *.
  destruct Hord as (Hrest & n & Ho & Hn & Hall).
  rewrite IH; [|intros; apply Hget; by right|done].
  cbn [rbind].
  destruct l as [|[k2 st2] l]; [done|].
  cbn [fmap list_fmap fst snd insert_sorted_r].
  apply Forall_cons in Hall as [(m & Hm & Hnm) _]. cbn [snd] in Hm.
  unfold sort_chan.
  rewrite (Hget k2 st2) by (right; left).
  rewrite (Hget k st) by left.
  cbn [rbind subscript]. rewrite Hm, Ho. cbn [cmp_order rbind].
  assert ((m <? n) = false) as -> by (apply Z.ltb_ge; lia).
  assert ((n <? m) = true) as -> by (apply Z.ltb_lt; lia).
  reflexivity.
Qed.

Lemma print_channels_order z (keys : list string) :
  sorted_stations z (dkeys (stations z)) = Ok keys ->
  (forall k, k ∈ keys -> is_Some (dget k (stations z))) ->
  exists cs, print_channels z = Ok cs
    /\ Forall2 (fun k c => station_to_channel z k = Ok c) keys cs.
Proof.
  intros E Hk. unfold print_channels. rewrite E. cbn [rbind].
  clear E. induction keys as [|k keys IH]; cbn [foldr].
  - exists []. split; [done|]. apply Forall2_nil_2.
  - destruct IH as (cs & -> & Hall); [intros; apply Hk; by right|].
    cbn [rbind].
    destruct (station_to_channel_present z k) as [c Ec]; [apply Hk; left|].
    rewrite Ec. cbn [rbind]. exists (c :: cs). split; [done|].
    by apply Forall2_cons_2.
Qed.

(** X11.  With [retainOrder], a run that starts with the display orders
    given by the station counter (as in a fresh object, which has no
    station) writes the channels in the order in which the stations
    were first seen: the order of the station dictionary. *)
Theorem retain_order_first_seen (ms : Z) (z : zap) :
  retainOrder (opts z) = true -> counted_orders z ->
  let z' := process_data json_grid json_overview net ms z in
  sorted_stations z' (dkeys (stations z')) = Ok (dkeys (stations z'))
  /\ exists cs, print_channels z' = Ok cs
       /\ Forall2 (fun k c => station_to_channel z' k = Ok c)
            (dkeys (stations z')) cs.
Proof.
  intros Hr Hc z'.
  assert (opts z' = opts z /\ counted_orders z') as [_ [Hnd Hord]].
  { apply (kept_process_data
             (fun z' => opts z' = opts z /\ counted_orders z')); [| |done].
    - intros z1 z2 (Ho & _ & Hst & Hco) (Ho1 & H1).
      split; [congruence|]. unfold counted_orders. by rewrite Hst, Hco.
    - intros s z1 starred starred' _ Hm (Ho1 & Hnd1 & Hord1).
      split; [done|]. unfold counted_orders, add_station.
      cbn [stations coNum set_coNum set_stations].
      assert (dget (c_channelNo s +:+ "." +:+ c_channelId s) (stations z1)
              = None) as Hnone.
      { unfold dmem in Hm. by destruct (dget _ _). }
      rewrite (dset_absent _ _ _ Hnone). unfold dkeys, dvalues.
      rewrite !fmap_app. cbn [fmap list_fmap fst snd]. split.
      + apply NoDup_app. split; [done|]. split.
        * intros k Hk ->%list_elem_of_singleton.
          by apply dget_None_keys in Hnone.
        * apply NoDup_singleton.
      + apply orders_below_snoc; [|done].
        unfold new_station. cbn [order]. by rewrite Ho1, Hr. }
  assert (sorted_stations z' (dkeys (stations z')) = Ok (dkeys (stations z')))
    as E.
  { apply sorted_stations_counted; [|done].
    intros k st Hin. by apply dget_elem_NoDup. }
  split; [exact E|].
  apply print_channels_order; [exact E|].
  intros k Hk. by apply dget_is_Some_keys.
Qed.

End station_facts.

Lemma station_first_seen_wins_witness :
  let o := mkOptions 1 1 0 (-1) 3 true false false false false false false
             false false false in
  let st := mkStation "123" "OLD" "5" (OrdStr "5") None in
  let z := set_stations [("5.123", st)] (zap_with_file o 1000 "two-airings") in
  dget "5.123" (stations z) = Some st
  /\ dget "5.123"
       (stations (process_data sample_json_grid no_overview_json net_down
                    1000 z)) = Some st.
Proof.
  intros o st z.
  assert (H : dget "5.123" (stations z) = Some st) by reflexivity.
  split; [exact H|].
  exact (station_first_seen_wins sample_json_grid no_overview_json net_down
           1000 z "5.123" st H).
Defined.

Lemma stations_from_favorites_witness :
  let o := mkOptions 1 1 0 (-1) 3 false false false false false false false
             false false false in
  let z := mkZap o {["123"]} [] ∅ [] 0 false false ∅ {[1000 := "two-airings"]}
             ∅ 0%nat None None in
  let st := mkStation "123" "ABC" "5" (OrdStr "5") None in
  allChan (opts z) = false /\ zapFavorites z ≠ ∅
  /\ dget "5.123"
       (stations (process_data sample_json_grid no_overview_json net_down
                    1000 z)) = Some st
  /\ (dget "5.123" (stations z) = Some st \/ stnNum st ∈ zapFavorites z).
Proof.
  intros o z st.
  assert (H1 : allChan (opts z) = false) by reflexivity.
  assert (H2 : zapFavorites z ≠ ∅).
  { intros E. change (({["123"]} : gset string) = ∅) in E.
    assert (("123" : string) ∈ ({["123"]} : gset string)) as Hin
      by (by apply elem_of_singleton_2).
    rewrite E in Hin. by apply not_elem_of_empty in Hin. }
  assert (H3 : dget "5.123"
                 (stations (process_data sample_json_grid no_overview_json
                              net_down 1000 z)) = Some st)
    by (vm_compute; reflexivity).
  split; [exact H1|]. split; [exact H2|]. split; [exact H3|].
  exact (stations_from_favorites sample_json_grid no_overview_json net_down
           1000 z "5.123" st H1 H2 H3).
Defined.

Lemma retain_order_first_seen_witness :
  let o := mkOptions 1 1 0 (-1) 3 true true false false false false false
             false false false in
  let z := zap_with_file o 1000 "two-airings" in
  let z' := process_data sample_json_grid no_overview_json net_down 1000 z in
  retainOrder (opts z) = true /\ counted_orders z
  /\ sorted_stations z' (dkeys (stations z')) = Ok (dkeys (stations z')).
Proof.
  intros o z z'.
  assert (H1 : retainOrder (opts z) = true) by reflexivity.
  assert (H2 : counted_orders z).
  { split; [apply NoDup_nil_2|exact I]. }
  split; [exact H1|]. split; [exact H2|].
  exact (proj1 (retain_order_first_seen sample_json_grid no_overview_json
                  net_down 1000 z H1 H2)).
Defined.

(** ** The original air date taken from airings *)

Lemma set_original_air_date_step cp sch ps :
  is_episode_show_movie cp = true -> 10 <= Str.len cp ->
  Str.slice 10 14 cp ≠ "0000" ->
  field_at originalAirDate cp (set_original_air_date cp sch ps)
  = Some (match field_at originalAirDate cp ps with
          | Some old => Z.min old sch
          | None => sch
          end).
Proof.
  intros Hk Hl Hs. unfold set_original_air_date.
  rewrite Hk. cbn [negb orb].
  destruct (Z.ltb_spec (Str.len cp) 10) as [|_]; [lia|]. cbn [orb].
  destruct (String.eqb_spec (Str.slice 10 14 cp) "0000") as [|_]; [done|].
  fold (field_at originalAirDate cp ps).
  destruct (field_at originalAirDate cp ps) as [old|] eqn:E.
  - destruct (Z.ltb_spec sch old).
    + unfold upd_program. rewrite field_at_insert. simpl. f_equal. lia.
    + rewrite E. f_equal. lia.
  - unfold upd_program. by rewrite field_at_insert.
Qed.

Lemma backfill_fold cp starts : forall ps,
  is_episode_show_movie cp = true -> 10 <= Str.len cp ->
  Str.slice 10 14 cp ≠ "0000" ->
  field_at originalAirDate cp
    (foldl (fun ps sch => set_original_air_date cp sch ps) ps starts)
  = foldl (fun o sch => Some (match o with
                              | Some old => Z.min old sch
                              | None => sch
                              end))
      (field_at originalAirDate cp ps) starts.
Proof.
  induction starts as [|sch starts IH]; intros ps Hk Hl Hs; cbn [foldl].
  - done.
  - rewrite IH by done. by rewrite set_original_air_date_step.
Qed.

Lemma fold_min_spec starts : forall (o : option Z),
  o ≠ None \/ starts ≠ [] ->
  exists m,
    foldl (fun o sch => Some (match o with
                              | Some old => Z.min old sch
                              | None => sch
                              end)) o starts = Some m
    /\ Forall (fun sch => m <= sch) starts
    /\ (forall old, o = Some old -> m <= old)
    /\ (m ∈ starts \/ o = Some m).
Proof.
  induction starts as [|sch starts IH]; intros o Hne; cbn [foldl].
  - destruct o as [old|]; [|by destruct Hne].
    exists old. split; [done|]. split; [apply Forall_nil_2|].
    split; [by intros ? [= <-]|by right].
  - destruct (IH (Some (match o with
                        | Some old => Z.min old sch
                        | None => sch
                        end))) as (m & E & Hall & Hold & Hin); [by left|].
    exists m. split; [exact E|].
    specialize (Hold _ eq_refl). split; [|split].
    + apply Forall_cons_2; [|done]. destruct o; lia.
    + intros old ->. lia.
    + destruct Hin as [Hin|[= Hm]]; [left; by right|].
      destruct o as [old|].
      * destruct (Z.min_spec old sch) as [[_ Hmin]|[_ Hmin]];
          rewrite Hmin in Hm; subst m; [by right|left; left].
      * subst m. left. left.
Qed.

(** X12.  The backfill of the original air date keeps the earliest
    value.  For a program id of a movie, show or episode, of ten
    characters or more and not of a generic episode, the date stored
    after the starts of any number of airings flagged new or live is
    the least of these starts and of the date stored before. *)
Theorem backfill_earliest_start (cp : string) (starts : list Z)
    (ps : gmap string program) :
  is_episode_show_movie cp = true -> 10 <= Str.len cp ->
  Str.slice 10 14 cp ≠ "0000" -> starts ≠ [] ->
  exists m,
    field_at originalAirDate cp
      (foldl (fun ps sch => set_original_air_date cp sch ps) ps starts)
    = Some m
    /\ Forall (fun sch => m <= sch) starts
    /\ (forall old, field_at originalAirDate cp ps = Some old -> m <= old)
    /\ (m ∈ starts \/ field_at originalAirDate cp ps = Some m).
Proof.
  intros Hk Hl Hs Hne. rewrite backfill_fold by done.
  apply fold_min_spec. by right.
Qed.

Lemma backfill_earliest_start_witness :
  exists m,
    field_at originalAirDate "EP012345670001"
      (foldl (fun ps sch => set_original_air_date "EP012345670001" sch ps)
         ∅ [300; 100; 200]) = Some m
    /\ Forall (fun sch => m <= sch) [300; 100; 200].
Proof.
  destruct (backfill_earliest_start "EP012345670001" [300; 100; 200] ∅
              eq_refl ltac:(vm_compute; discriminate)
              ltac:(vm_compute; discriminate) ltac:(discriminate))
    as (m & E & Hall & _).
  exists m. split; [exact E|exact Hall].
Defined.

(** ** The genres of the series *)

Lemma dget_app_None {K V} `{EqDecision K} (k : K) (d1 d2 : list (K * V)) :
  dget k (d1 ++ d2) = None -> dget k d1 = None.
Proof.
  induction d1 as [|[k' v'] d1 IH]; simpl; [done|].
  by destruct (decide (k = k')).
Qed.

(** The genres of the series go to the end of the dictionary, in the
    order of the payload, with ranks that count up from [i]. *)
Lemma add_series_genres_app sgs : forall i gh,
  add_series_genres sgs i gh
  = gh ++ zip (new_genres sgs (dkeys gh))
              (seqZ i (Z.of_nat (length (new_genres sgs (dkeys gh))))).
Proof.
  induction sgs as [|sg sgs IH]; intros i gh;
    cbn [add_series_genres new_genres].
  - by rewrite app_nil_r.
  - cbv zeta. unfold dmem.
    destruct (dget (Str.lower sg) gh) as [v|] eqn:E.
    + rewrite bool_decide_eq_true_2
        by (apply dget_is_Some_keys; by eexists).
      apply IH.
    + rewrite bool_decide_eq_false_2.
      2:{ intros Hin. apply dget_is_Some_keys in Hin as [v Hv]. congruence. }
      rewrite IH, (dset_absent _ _ _ E).
      assert (dkeys (gh ++ [(Str.lower sg, i)]) = dkeys gh ++ [Str.lower sg])
        as -> by (unfold dkeys; by rewrite fmap_app).
      cbn [length]. rewrite Nat2Z.inj_succ, (seqZ_cons i) by lia.
      cbn [zip zip_with]. rewrite <- app_assoc. cbn [app].
      replace (Z.succ i) with (i + 1) by lia.
      by replace (Z.pred (Z.succ (Z.of_nat (length
                (new_genres sgs (dkeys gh ++ [Str.lower sg]))))))
        with (Z.of_nat (length (new_genres sgs (dkeys gh ++ [Str.lower sg]))))
        by lia.
Qed.

Lemma foldr_max_ge (v0 : Z) (vs : list Z) (v : Z) :
  v ∈ v0 :: vs -> v <= foldr Z.max v0 vs.
Proof.
  induction vs as [|v1 vs IH]; cbn [foldr].
  - intros Hin. apply list_elem_of_singleton in Hin. lia.
  - intros Hin. apply elem_of_cons in Hin as [Hin|Hin].
    + assert (v <= foldr Z.max v0 vs) by (apply IH; subst; left). lia.
    + apply elem_of_cons in Hin as [Hin|Hin]; [lia|].
      assert (v <= foldr Z.max v0 vs) by (apply IH; by right). lia.
Qed.

Lemma max_rank_ge (gh : pydict string Z) v :
  v ∈ dvalues gh -> v <= max_rank gh.
Proof.
  unfold max_rank. destruct (dvalues gh) as [|v0 vs].
  - by intros ?%elem_of_nil.
  - apply foldr_max_ge.
Qed.

Lemma insert_sorted_app {A} (le : A -> A -> bool) x (l added : list A) :
  match added with
  | [] => True
  | y :: _ => le x y = true
  end ->
  insert_sorted le x (l ++ added) = insert_sorted le x l ++ added.
Proof.
  intros Hle. induction l as [|y l IH]; cbn [app insert_sorted].
  - destruct added as [|y added]; [done|]. cbn [insert_sorted]. by rewrite Hle.
  - destruct (le x y); [done|]. by rewrite IH.
Qed.

(** Genres whose ranks count up are sorted as they are, and they stay
    behind genres of lower rank. *)
Lemma sorted_counted (added : list (string * Z)) i :
  added.*2 = seqZ i (Z.of_nat (length added)) ->
  sorted genre_le added = added.
Proof.
  revert i. induction added as [|[g r] added IH]; intros i Hr; [done|].
  cbn [fmap list_fmap snd length] in Hr.
  rewrite Nat2Z.inj_succ, seqZ_cons in Hr by lia.
  injection Hr as -> Hr.
  replace (Z.pred (Z.succ (Z.of_nat (length added))))
    with (Z.of_nat (length added)) in Hr by lia.
  unfold sorted in *. cbn [foldr]. rewrite (IH _ Hr).
  destruct added as [|[g' r'] added]; [done|].
  cbn [fmap list_fmap snd length] in Hr.
  rewrite Nat2Z.inj_succ, seqZ_cons in Hr by lia.
  injection Hr as -> _.
  cbn [insert_sorted]. unfold genre_le. cbn [fst snd].
  assert ((i <? Z.succ i) = true) as -> by (apply Z.ltb_lt; lia). done.
Qed.

Lemma sorted_behind (gh added : list (string * Z)) i :
  Forall (fun v => v < i) gh.*2 ->
  added.*2 = seqZ i (Z.of_nat (length added)) ->
  sorted genre_le (gh ++ added) = sorted genre_le gh ++ added.
Proof.
  intros Hlt Hr. induction gh as [|[g r] gh IH].
  - by apply (sorted_counted added i).
  - cbn [fmap list_fmap snd] in Hlt. apply Forall_cons in Hlt as [Hri Hlt].
    unfold sorted in *. cbn [app foldr]. rewrite (IH Hlt).
    apply insert_sorted_app.
    destruct added as [|[g' r'] added]; [done|].
    cbn [fmap list_fmap snd length] in Hr.
    rewrite Nat2Z.inj_succ, seqZ_cons in Hr by lia.
    injection Hr as -> _. unfold genre_le. cbn [fst snd].
    assert ((r <? i) = true) as -> by (apply Z.ltb_lt; lia). done.
Qed.

(** X13.  The genres that the enrichment takes from the series are
    written after the genres the program has.  For a program with a
    genre dictionary and a payload that names genres, the dictionary
    after the enrichment is the old one followed by the names of the
    payload, in lower case and in the order of the payload, without
    those the program had and without repeats; their ranks count up
    from a rank above every rank in use.  So the order by rank and name
    lists the genres of the program first and then the new genres in
    the order of the payload. *)
Theorem series_genres_written_last (cp : string) (t : overview)
    (ps : gmap string program) (p : program) (gh : pydict string Z) :
  ps !! cp = Some p -> genres p = Some gh ->
  seriesGenres t ≠ EmptyString ->
  let names := new_genres (split_bar (seriesGenres t)) (dkeys gh) in
  let i := if max_rank gh =? 0 then 2 else max_rank gh + 1 in
  let added := zip names (seqZ i (Z.of_nat (length names))) in
  field_at genres cp (parse_overview cp t ps) = Some (gh ++ added)
  /\ Forall (fun v => v < i) (dvalues gh)
  /\ sorted_genres (gh ++ added) = sorted_genres gh ++ names.
Proof.
  intros E Hg Hne names i added.
  assert (field_at genres cp (parse_overview cp t ps)
          = field_at genres cp (overview_genres cp t ps)) as K.
  { unfold parse_overview.
    assert (keeps_field genres cp (overview_genres cp t ps)
              (try_steps [overview_image cp t; overview_description cp t;
                          overview_originalAirDate cp t]
                 (overview_crew (crew t) 1 cp
                    (overview_cast (cast t) 1 cp (overview_genres cp t ps)))))
      as [K _]; [|exact K].
    eapply keeps_field_trans; [by apply keeps_overview_cast|].
    eapply keeps_field_trans; [by apply keeps_overview_crew|].
    apply keeps_try_steps. forall_steps; intros s s'.
    - by apply keeps_overview_image.
    - by apply keeps_overview_description.
    - by apply keeps_overview_originalAirDate. }
  assert (Hlen : length (seqZ i (Z.of_nat (length names))) = length names)
    by (rewrite length_seqZ; lia).
  assert (Hlt : Forall (fun v => v < i) (dvalues gh)).
  { apply Forall_forall. intros v Hv.
    pose proof (max_rank_ge gh v Hv). subst i.
    destruct (Z.eqb_spec (max_rank gh) 0); lia. }
  split; [|split; [exact Hlt|]].
  - rewrite K. unfold overview_genres. rewrite E, Hg.
    assert (Str.nonempty (seriesGenres t) = true) as ->
      by (by destruct (seriesGenres t)).
    cbv zeta. rewrite field_at_insert. cbn [genres set_genres].
    by rewrite add_series_genres_app.
  - unfold sorted_genres. rewrite (sorted_behind gh added i).
    + rewrite fmap_app. subst added. by rewrite fst_zip by lia.
    + exact Hlt.
    + subst added. rewrite snd_zip by lia. by rewrite length_zip_with, Hlen, Nat.min_id.
Qed.

Lemma series_genres_written_last_witness :
  let p := set_genres [("news", 1); ("family", 1)] empty_program in
  let t := mkOverview "Drama|News|Crime|drama" [] [] "" ""
             (mkUpcoming "" "") [] in
  field_at genres "SH0123456789" (parse_overview "SH0123456789" t
                                    {["SH0123456789" := p]})
  = Some [("news", 1); ("family", 1); ("drama", 2); ("crime", 3)]
  /\ sorted_genres [("news", 1); ("family", 1); ("drama", 2); ("crime", 3)]
     = ["family"; "news"; "drama"; "crime"].
Proof.
  intros p t.
  assert (Hne : seriesGenres t ≠ EmptyString) by discriminate.
  destruct (series_genres_written_last "SH0123456789" t
              {["SH0123456789" := p]} p [("news", 1); ("family", 1)]
              (lookup_singleton_eq _ _) eq_refl Hne)
    as (E & _ & Hs).
  split; [exact E|exact Hs].
Defined.

(** X14.  The enrichment gives no genre to a program that has none: the
    genres of the series are put in a dictionary of their own, which is
    dropped, when the program has no entry or its entry has no genre
    dictionary. *)
Theorem series_genres_need_genres (cp : string) (t : overview)
    (ps : gmap string program) :
  field_at genres cp ps = None ->
  field_at genres cp (parse_overview cp t ps) = None.
Proof.
  intros Hn.
  assert (keeps_field genres cp ps (overview_genres cp t ps)) as K1.
  { unfold overview_genres.
    destruct (Str.nonempty (seriesGenres t)); [|apply keeps_field_refl].
    unfold field_at in Hn.
    destruct (ps !! cp) as [p|] eqn:E; [|apply keeps_field_refl].
    cbn in Hn. rewrite Hn. apply keeps_field_refl. }
  assert (keeps_field genres cp (overview_genres cp t ps)
            (parse_overview cp t ps)) as K2.
  { unfold parse_overview.
    eapply keeps_field_trans; [by apply keeps_overview_cast|].
    eapply keeps_field_trans; [by apply keeps_overview_crew|].
    apply keeps_try_steps. forall_steps; intros s s'.
    - by apply keeps_overview_image.
    - by apply keeps_overview_description.
    - by apply keeps_overview_originalAirDate. }
  destruct (keeps_field_trans _ _ _ _ _ K1 K2) as [K _]. by rewrite K.
Qed.

Lemma series_genres_need_genres_witness :
  let t := mkOverview "Drama|News" [] [] "" "" (mkUpcoming "" "") [] in
  let ps : gmap string program :=
    {["SH0123456789" := set_title "A show" empty_program]} in
  field_at genres "SH0123456789" ps = None
  /\ field_at genres "SH0123456789" (parse_overview "SH0123456789" t ps) = None.
Proof.
  intros t ps.
  assert (H : field_at genres "SH0123456789" ps = None) by reflexivity.
  split; [exact H|].
  exact (series_genres_need_genres "SH0123456789" t ps H).
Defined.

(** ** The largest photo of a detail payload *)

(** A photo counts when its area is not zero and it has a url. *)
Lemma biggest_photo_fold (photos : list (Z * Z * string)) :
  forall (h : pydict Z string),
  let h' := foldl (fun (h : pydict Z string) ph =>
                     let '(w, hgt, u) := ph in
                     if negb (w * hgt =? 0) && Str.nonempty u
                     then dset (w * hgt) u h else h) h photos in
  (forall k u, dget k h' = Some u ->
     dget k h = Some u
     \/ exists w hgt, (w, hgt, u) ∈ photos /\ k = w * hgt /\ k ≠ 0
          /\ u ≠ EmptyString)
  /\ (forall k, is_Some (dget k h) -> is_Some (dget k h'))
  /\ (forall w hgt u, (w, hgt, u) ∈ photos -> w * hgt ≠ 0 ->
        u ≠ EmptyString -> is_Some (dget (w * hgt) h')).
Proof.
  induction photos as [|[[w hgt] u] photos IH]; intros h; cbn [foldl].
  - split; [by left|]. split; [done|]. by intros w hgt u ?%elem_of_nil.
  - cbv zeta in IH.
    set (h1 := if negb (w * hgt =? 0) && Str.nonempty u
               then dset (w * hgt) u h else h).
    destruct (IH h1) as (H1 & H2 & H3).
    assert (forall k u', dget k h1 = Some u' ->
              dget k h = Some u'
              \/ (k = w * hgt /\ u' = u /\ k ≠ 0 /\ u ≠ EmptyString)) as Hh1.
    { intros k u' Hk. subst h1.
      destruct (Z.eqb_spec (w * hgt) 0) as [|Hw]; cbn [negb andb] in Hk;
        [by left|].
      destruct u as [|c u]; cbn [Str.nonempty] in Hk; [by left|].
      rewrite dget_dset in Hk.
      destruct (decide (w * hgt = k)) as [<-|]; [|by left].
      injection Hk as <-. by right. }
    assert (forall k, is_Some (dget k h) -> is_Some (dget k h1)) as Hmono.
    { intros k Hk. subst h1. case_match; [|done]. by apply dget_dset_is_Some. }
    split; [|split].
    + intros k u' Hk. destruct (H1 k u' Hk) as [Hk1|(w' & hgt' & Hin & ?)].
      * destruct (Hh1 k u' Hk1) as [?|(-> & -> & ? & ?)]; [by left|].
        right. exists w, hgt. split; [left|done].
      * right. exists w', hgt'. split; [by right|done].
    + intros k Hk. by apply H2, Hmono.
    + intros w' hgt' u' Hin Hw Hu.
      apply elem_of_cons in Hin as [[= -> -> ->]|Hin]; [|by apply (H3 w' hgt' u')].
      apply H2. subst h1.
      apply Z.eqb_neq in Hw. rewrite Hw. cbn [negb andb].
      destruct u as [|c u]; [done|]. cbn [Str.nonempty].
      rewrite dget_dset_eq. by eexists.
Qed.

Lemma foldr_max_elem (v0 : Z) (vs : list Z) : foldr Z.max v0 vs ∈ v0 :: vs.
Proof.
  induction vs as [|v1 vs IH]; cbn [foldr]; [left|].
  destruct (Z.max_spec v1 (foldr Z.max v0 vs)) as [[_ ->]|[_ ->]].
  - apply elem_of_cons in IH as [->|IH]; [left|right; by right].
  - right. left.
Qed.

(** X15.  The image taken from a detail payload is that of a photo of
    the largest area, among the photos with a url and an area other
    than zero; without such a photo no image is taken. *)
Theorem biggest_photo_largest (photos : list (Z * Z * string)) :
  match biggest_photo photos with
  | Some u =>
      exists w hgt, (w, hgt, u) ∈ photos /\ w * hgt ≠ 0 /\ u ≠ EmptyString
        /\ forall w' hgt' u', (w', hgt', u') ∈ photos -> w' * hgt' ≠ 0 ->
             u' ≠ EmptyString -> w' * hgt' <= w * hgt
  | None =>
      forall w hgt u, (w, hgt, u) ∈ photos ->
        w * hgt = 0 \/ u = EmptyString
  end.
Proof.
  unfold biggest_photo. cbv zeta.
  destruct (biggest_photo_fold photos []) as (H1 & _ & H3). cbv zeta in H1, H3.
  match goal with
  | |- context [dkeys ?x] => set (phash := x) in *
  end.
  destruct (dkeys phash) as [|k ks] eqn:Ek.
  - intros w hgt u Hin.
    destruct (Z.eq_dec (w * hgt) 0) as [|Hw]; [by left|].
    destruct (decide (u = EmptyString)) as [|Hu]; [by right|].
    apply (H3 w hgt u Hin Hw) in Hu. apply dget_is_Some_keys in Hu.
    rewrite Ek in Hu. by apply elem_of_nil in Hu.
  - pose proof (foldr_max_elem k ks) as Hmax. rewrite <- Ek in Hmax.
    apply dget_is_Some_keys in Hmax as [u Eu]. rewrite Eu.
    destruct (H1 _ _ Eu) as [?|(w & hgt & Hin & Hk & Hne & Hu)]; [done|].
    exists w, hgt. split; [done|]. rewrite <- Hk. split; [done|].
    split; [done|]. intros w' hgt' u' Hin' Hw' Hu'.
    apply foldr_max_ge. rewrite <- Ek. apply dget_is_Some_keys.
    by apply (H3 w' hgt' u').
Qed.

(** ** What the renderers can rely on *)

Section wf_run.
Variable json_grid : string -> option (list json_channel).
Variable json_overview : string -> option overview.
Variable net : nat -> Z -> response.

(** X16.  The bucket loop keeps the stores consistent, whatever the
    payloads and wherever it stops: after it the station of every
    schedule and of every airing is a stored station and the program of
    every airing is a stored program, so that the lookups
    [self.stations[...]] and [self.programs[p]] of the renderers find
    their keys; and the display orders of the stations are all numbers
    or all strings, so that [sort_chan] never compares a number with a
    string. *)
Theorem process_data_well_formed (ms : Z) (z : zap) :
  well_formed z ->
  well_formed (process_data json_grid json_overview net ms z).
Proof.
  unfold process_data.
  generalize (max_count_of (opts z)) (bucket_counts (opts z)).
  intros max_count counts. revert ms z.
  induction counts as [|count counts IH]; intros ms z Hwf; cbn [process_loop].
  - done.
  - destruct (process_bucket_keeps json_grid json_overview net
                max_count count ms z Hwf) as [Hw _].
    destruct (process_bucket _ _ _ _ _ _ _) as [go zb]. cbn [snd] in Hw.
    destruct go; [by apply IH|done].
Qed.

End wf_run.

Lemma process_data_well_formed_witness :
  let o := mkOptions 1 1 0 (-1) 3 true false false false false false false
             false false false in
  let z := zap_with_file o 1000 "two-airings" in
  well_formed z
  /\ well_formed (process_data sample_json_grid no_overview_json net_down
                    1000 z).
Proof.
  intros o z.
  assert (H : well_formed z).
  { split.
    - intros cs d Hin. by apply elem_of_nil in Hin.
    - intros cs st Hin. by apply elem_of_nil in Hin. }
  split; [exact H|].
  exact (process_data_well_formed sample_json_grid no_overview_json net_down
           1000 z H).
Defined.

(** ** Timestamps as text *)

Lemma doy2md_spec (leap : bool) (n : Z) :
  0 <= n < 365 + (if leap then 1 else 0) ->
  1 <= (Calendar.doy2md leap n).1 <= 12
  /\ 1 <= (Calendar.doy2md leap n).2
       <= Calendar.days_in_month_of leap (Calendar.doy2md leap n).1
  /\ Calendar.days_before_month_of leap (Calendar.doy2md leap n).1
     + (Calendar.doy2md leap n).2 = n + 1.
Proof.
  intros Hn.
  assert (Forall (fun n =>
            1 <= (Calendar.doy2md leap n).1 <= 12
            /\ 1 <= (Calendar.doy2md leap n).2
                 <= Calendar.days_in_month_of leap (Calendar.doy2md leap n).1
            /\ Calendar.days_before_month_of leap (Calendar.doy2md leap n).1
               + (Calendar.doy2md leap n).2 = n + 1)
            (seqZ 0 (365 + (if leap then 1 else 0)))) as H.
  { destruct leap; apply (bool_decide_unpack _); vm_compute; exact I. }
  rewrite Forall_forall in H. apply H. apply elem_of_seqZ. lia.
Qed.

Lemma days_in_month_of_leap y m :
  Time.days_in_month y m = Calendar.days_in_month_of (Time.is_leap y) m.
Proof. reflexivity. Qed.

Lemma days_before_month_of_leap y m :
  Time.days_before_month y m
  = Calendar.days_before_month_of (Time.is_leap y) m.
Proof. reflexivity. Qed.

(** The date that [ord2ymd] finds for an ordinal is a date of the
    calendar, and it is the date with that ordinal. *)
Lemma ord2ymd_spec (n : Z) :
  1 <= n ->
  exists y m d,
    Calendar.ord2ymd n = (y, m, d)
    /\ 1 <= y /\ 1 <= m <= 12 /\ 1 <= d <= Time.days_in_month y m
    /\ Time.ymd2ord y m d = n.
Proof.
  intros Hn. unfold Calendar.ord2ymd. cbv zeta.
  set (a := n - 1).
  assert (0 <= a) as Ha by (subst a; lia).
  pose proof (Z.div_mod a 146097 ltac:(lia)) as E400.
  pose proof (Z.mod_pos_bound a 146097 ltac:(lia)) as B400.
  pose proof (Z.div_pos a 146097 Ha ltac:(lia)) as P400.
  set (n400 := a / 146097) in *. set (r400 := a mod 146097) in *.
  pose proof (Z.div_mod r400 36524 ltac:(lia)) as E100.
  pose proof (Z.mod_pos_bound r400 36524 ltac:(lia)) as B100.
  set (n100 := r400 / 36524) in *. set (r100 := r400 mod 36524) in *.
  pose proof (Z.div_mod r100 1461 ltac:(lia)) as E4.
  pose proof (Z.mod_pos_bound r100 1461 ltac:(lia)) as B4.
  set (n4 := r100 / 1461) in *. set (r4 := r100 mod 1461) in *.
  pose proof (Z.div_mod r4 365 ltac:(lia)) as E1.
  pose proof (Z.mod_pos_bound r4 365 ltac:(lia)) as B1.
  set (n1 := r4 / 365) in *. set (r1 := r4 mod 365) in *.
  assert (0 <= n100 <= 4 /\ 0 <= n4 <= 24 /\ 0 <= n1 <= 4) as (R100 & R4 & R1)
    by lia.
  clearbody n400 r400 n100 r100 n4 r4 n1 r1.
  destruct (Z.eqb_spec n1 4) as [H14|H14]; cbn [orb].
  { (* the last day of a cycle of four years *)
    exists (n400 * 400 + 1 + n100 * 100 + n4 * 4 + n1 - 1), 12, 31.
    set (Y := n400 * 400 + 1 + n100 * 100 + n4 * 4 + n1 - 1).
    assert (Time.is_leap Y = true) as HL.
    { unfold Time.is_leap. apply andb_true_iff. split.
      - apply Z.eqb_eq. subst Y. Z.div_mod_to_equations. lia.
      - apply orb_true_iff. left. apply negb_true_iff, Z.eqb_neq.
        subst Y. Z.div_mod_to_equations. lia. }
    split; [done|]. split; [subst Y; lia|]. split; [lia|].
    split; [done|].
    unfold Time.ymd2ord. rewrite days_before_month_of_leap, HL.
    change (Calendar.days_before_month_of true 12) with 335.
    unfold Time.days_before_year. subst Y a. Z.div_mod_to_equations. lia. }
  destruct (Z.eqb_spec n100 4) as [H1004|H1004].
  { (* the last day of a cycle of four hundred years *)
    exists (n400 * 400 + 1 + n100 * 100 + n4 * 4 + n1 - 1), 12, 31.
    set (Y := n400 * 400 + 1 + n100 * 100 + n4 * 4 + n1 - 1).
    assert (Time.is_leap Y = true) as HL.
    { unfold Time.is_leap. apply andb_true_iff. split.
      - apply Z.eqb_eq. subst Y. Z.div_mod_to_equations. lia.
      - apply orb_true_iff. right. apply Z.eqb_eq.
        subst Y. Z.div_mod_to_equations. lia. }
    split; [done|]. split; [subst Y; lia|]. split; [lia|].
    split; [done|].
    unfold Time.ymd2ord. rewrite days_before_month_of_leap, HL.
    change (Calendar.days_before_month_of true 12) with 335.
    unfold Time.days_before_year. subst Y a. Z.div_mod_to_equations. lia. }
  set (Y := n400 * 400 + 1 + n100 * 100 + n4 * 4 + n1).
  set (leapyear := (n1 =? 3) && (negb (n4 =? 24) || (n100 =? 3))).
  assert (Time.is_leap Y = leapyear) as HL.
  { unfold Time.is_leap. subst leapyear Y.
    destruct (Z.eqb_spec n1 3) as [H13|H13]; cbn [andb].
    - destruct (Z.eqb_spec n4 24) as [H424|H424]; cbn [negb orb].
      + destruct (Z.eqb_spec n100 3) as [H1003|H1003].
        * apply andb_true_iff. split.
          { apply Z.eqb_eq. Z.div_mod_to_equations. lia. }
          apply orb_true_iff. right. apply Z.eqb_eq.
          Z.div_mod_to_equations. lia.
        * apply andb_false_iff. right. apply orb_false_iff. split.
          { apply negb_false_iff, Z.eqb_eq. Z.div_mod_to_equations. lia. }
          apply Z.eqb_neq. Z.div_mod_to_equations. lia.
      + apply andb_true_iff. split.
        { apply Z.eqb_eq. Z.div_mod_to_equations. lia. }
        apply orb_true_iff. left. apply negb_true_iff, Z.eqb_neq.
        Z.div_mod_to_equations. lia.
    - apply andb_false_iff. left. apply Z.eqb_neq.
      Z.div_mod_to_equations. lia. }
  destruct (doy2md_spec leapyear r1) as (Hm & Hd & Hsum);
    [destruct leapyear; lia|].
  destruct (Calendar.doy2md leapyear r1) as [month day_]. cbn [fst snd] in *.
  exists Y, month, day_. split; [done|]. split; [subst Y; lia|].
  split; [done|]. split.
  { by rewrite days_in_month_of_leap, HL. }
  unfold Time.ymd2ord. rewrite days_before_month_of_leap, HL.
  unfold Time.days_before_year. subst Y a. Z.div_mod_to_equations. lia.
Qed.

Lemma code_chr (z : Z) : 0 <= z < 256 -> Str.code (Str.chr z) = z.
Proof.
  intros Hz. unfold Str.code, Str.chr.
  rewrite nat_ascii_embedding by lia. lia.
Qed.

Lemma digit_char (d : Z) :
  0 <= d <= 9 ->
  Str.is_digit (Str.chr (48 + d)) = true /\ Time.dval (Str.chr (48 + d)) = d.
Proof.
  intros Hd. unfold Str.is_digit, Time.dval. rewrite code_chr by lia.
  split; [|lia]. apply andb_true_iff. split; apply Z.leb_le; lia.
Qed.

Lemma two_digits_pad2 (ok : Z -> Z -> bool) (n : Z) (rest : string) :
  0 <= n <= 99 -> ok (n / 10) (n mod 10) = true ->
  Time.two_digits ok (Calendar.pad2 n +:+ rest) = [(n, rest)].
Proof.
  intros Hn Hok.
  assert (0 <= n / 10 <= 9 /\ 0 <= n mod 10 <= 9) as [Ha Hb]
    by (Z.div_mod_to_equations; lia).
  destruct (digit_char _ Ha) as [Da Va]. destruct (digit_char _ Hb) as [Db Vb].
  change (Calendar.pad2 n +:+ rest)
    with (String (Str.chr (48 + n / 10))
            (String (Str.chr (48 + n mod 10)) rest)).
  cbn [Time.two_digits]. rewrite Da, Db, Va, Vb, Hok. cbn [andb].
  do 2 f_equal. Z.div_mod_to_equations. lia.
Qed.

Lemma decimal_four_digits (y : Z) :
  1000 <= y <= 9999 ->
  decimal y = Calendar.pad2 (y / 100) +:+ Calendar.pad2 (y mod 100).
Proof.
  intros Hy.
  assert (Forall (fun y => decimal y
                           = Calendar.pad2 (y / 100) +:+ Calendar.pad2 (y mod 100))
            (seqZ 1000 9000)) as H.
  { apply (bool_decide_unpack _). vm_compute. exact I. }
  rewrite Forall_forall in H. apply H. apply elem_of_seqZ. lia.
Qed.

(** The first way in which a parser matches. *)
Lemma pbind_head {A B} (p : Time.parser A) (k : A -> Time.parser B) s a r b r' tl :
  p s = (a, r) :: tl ->
  (exists tl', k a r = (b, r') :: tl') ->
  exists tl', Time.pbind p k s = (b, r') :: tl'.
Proof.
  intros Hp [tl' Hk]. unfold Time.pbind. rewrite Hp.
  cbn [mbind list_bind]. rewrite Hk. by eexists.
Qed.

Lemma palt_head {A} (p q : Time.parser A) s a r :
  p s = [(a, r)] -> exists tl, Time.palt p q s = (a, r) :: tl.
Proof. intros Hp. unfold Time.palt. rewrite Hp. by eexists. Qed.

Lemma lit_head (c : ascii) (rest : string) :
  Time.lit c (String c rest) = [(tt, rest)].
Proof. cbn [Time.lit]. by rewrite decide_True. Qed.

(** The text that [strftime_xtvd] writes for a date of the years 1000
    to 9999 is matched by the expression of [str2time1], field by
    field. *)
Lemma fmt_seconds_strftime (dt : Time.datetime) :
  1000 <= Time.year dt <= 9999 -> 1 <= Time.month dt <= 12 ->
  1 <= Time.day dt <= 31 -> 0 <= Time.hour dt <= 23 ->
  0 <= Time.minute dt <= 59 -> 0 <= Time.second dt <= 59 ->
  exists tl,
    Time.fmt_seconds (Calendar.strftime_xtvd dt) = (dt, EmptyString) :: tl.
Proof.
  destruct dt as [y m d h mi s]. cbn [Time.year Time.month Time.day Time.hour
    Time.minute Time.second]. intros Hy Hm Hd Hh Hmi Hs.
  unfold Calendar.strftime_xtvd. cbn [Time.year Time.month Time.day Time.hour
    Time.minute Time.second].
  rewrite (decimal_four_digits y Hy), !append_assoc.
  unfold Time.fmt_seconds.
  (* the year *)
  eapply pbind_head.
  { unfold Time.p_Y, Time.pbind.
    rewrite (two_digits_pad2 _ (y / 100)); [|Z.div_mod_to_equations; lia|done].
    cbn [mbind list_bind]. rewrite (two_digits_pad2 _ (y mod 100));
      [|Z.div_mod_to_equations; lia|done].
    cbn [mbind list_bind app Time.pret].
    replace (100 * (y / 100) + y mod 100) with y
      by (Z.div_mod_to_equations; lia). reflexivity. }
  eapply pbind_head; [apply lit_head|].
  (* the month *)
  assert (exists tl, Time.p_m (Calendar.pad2 m +:+ "-" +:+ Calendar.pad2 d
                       +:+ "T" +:+ Calendar.pad2 h +:+ ":" +:+ Calendar.pad2 mi
                       +:+ ":" +:+ Calendar.pad2 s +:+ "Z")
                     = (m, "-" +:+ Calendar.pad2 d
                       +:+ "T" +:+ Calendar.pad2 h +:+ ":" +:+ Calendar.pad2 mi
                       +:+ ":" +:+ Calendar.pad2 s +:+ "Z") :: tl) as [tl1 E1].
  { apply palt_head, two_digits_pad2; [lia|].
    apply orb_true_iff.
    destruct (Z.leb_spec 10 m); [left|right]; apply andb_true_iff; split;
      first [apply Z.eqb_eq | apply Z.leb_le]; Z.div_mod_to_equations; lia. }
  eapply pbind_head; [exact E1|].
  eapply pbind_head; [apply lit_head|].
  (* the day *)
  assert (exists tl, Time.p_d (Calendar.pad2 d
                       +:+ "T" +:+ Calendar.pad2 h +:+ ":" +:+ Calendar.pad2 mi
                       +:+ ":" +:+ Calendar.pad2 s +:+ "Z")
                     = (d, "T" +:+ Calendar.pad2 h +:+ ":" +:+ Calendar.pad2 mi
                       +:+ ":" +:+ Calendar.pad2 s +:+ "Z") :: tl) as [tl2 E2].
  { apply palt_head, two_digits_pad2; [lia|].
    rewrite !orb_true_iff, !andb_true_iff, !Z.eqb_eq, !Z.leb_le.
    Z.div_mod_to_equations. lia. }
  eapply pbind_head; [exact E2|].
  eapply pbind_head; [apply lit_head|].
  (* the hour *)
  assert (exists tl, Time.p_H (Calendar.pad2 h +:+ ":" +:+ Calendar.pad2 mi
                       +:+ ":" +:+ Calendar.pad2 s +:+ "Z")
                     = (h, ":" +:+ Calendar.pad2 mi
                       +:+ ":" +:+ Calendar.pad2 s +:+ "Z") :: tl) as [tl3 E3].
  { apply palt_head, two_digits_pad2; [lia|].
    rewrite !orb_true_iff, !andb_true_iff, !Z.eqb_eq, !Z.leb_le.
    Z.div_mod_to_equations. lia. }
  eapply pbind_head; [exact E3|].
  eapply pbind_head; [apply lit_head|].
  (* the minute *)
  assert (exists tl, Time.p_M (Calendar.pad2 mi
                       +:+ ":" +:+ Calendar.pad2 s +:+ "Z")
                     = (mi, ":" +:+ Calendar.pad2 s +:+ "Z") :: tl) as [tl4 E4].
  { apply palt_head, two_digits_pad2; [lia|].
    rewrite Z.leb_le. Z.div_mod_to_equations. lia. }
  eapply pbind_head; [exact E4|].
  eapply pbind_head; [apply lit_head|].
  (* the second *)
  assert (exists tl, Time.p_S (Calendar.pad2 s +:+ "Z")
                     = (s, "Z") :: tl) as [tl5 E5].
  { apply palt_head, two_digits_pad2; [lia|].
    rewrite !orb_true_iff, !andb_true_iff, !Z.eqb_eq, !Z.leb_le.
    Z.div_mod_to_equations. lia. }
  eapply pbind_head; [exact E5|].
  eapply pbind_head; [apply lit_head|].
  by eexists.
Qed.

Lemma month_days_bound (leap : bool) (m : Z) :
  1 <= m <= 12 ->
  Calendar.days_in_month_of leap m <= 31
  /\ Calendar.days_before_month_of leap m + Calendar.days_in_month_of leap m
     <= 365 + (if leap then 1 else 0).
Proof.
  intros Hm.
  assert (Forall (fun m =>
            Calendar.days_in_month_of leap m <= 31
            /\ Calendar.days_before_month_of leap m
               + Calendar.days_in_month_of leap m
               <= 365 + (if leap then 1 else 0)) (seqZ 1 12)) as H.
  { destruct leap; apply (bool_decide_unpack _); vm_compute; exact I. }
  rewrite Forall_forall in H. apply H. apply elem_of_seqZ. lia.
Qed.

Lemma days_before_year_succ (y : Z) :
  Time.days_before_year (y + 1)
  = Time.days_before_year y + 365 + (if Time.is_leap y then 1 else 0).
Proof.
  unfold Time.days_before_year, Time.is_leap.
  destruct (Z.eqb_spec (y mod 4) 0) as [H4|H4]; cbn [andb].
  - destruct (Z.eqb_spec (y mod 100) 0) as [H100|H100]; cbn [negb orb].
    + destruct (Z.eqb_spec (y mod 400) 0) as [H400|H400];
        Z.div_mod_to_equations; lia.
    + Z.div_mod_to_equations; lia.
  - Z.div_mod_to_equations; lia.
Qed.

Lemma days_before_year_mono (y y' : Z) :
  y <= y' -> Time.days_before_year y <= Time.days_before_year y'.
Proof. unfold Time.days_before_year. intros H. Z.div_mod_to_equations. lia. Qed.

(** The ordinal of a date lies in the year of the date. *)
Lemma ymd2ord_in_year (y m d : Z) :
  1 <= m <= 12 -> 1 <= d <= Time.days_in_month y m ->
  Time.days_before_year y < Time.ymd2ord y m d
  <= Time.days_before_year (y + 1).
Proof.
  intros Hm Hd. rewrite days_before_year_succ. unfold Time.ymd2ord.
  rewrite days_in_month_of_leap in Hd. rewrite days_before_month_of_leap.
  destruct (month_days_bound (Time.is_leap y) m Hm) as [_ Hb].
  assert (0 <= Calendar.days_before_month_of (Time.is_leap y) m) as Hpos.
  { assert (Forall (fun m => forall leap,
                      0 <= Calendar.days_before_month_of leap m)
              (seqZ 1 12)) as H.
    { repeat (apply Forall_cons_2; [intros []; by vm_compute|]).
      apply Forall_nil_2. }
    rewrite Forall_forall in H. apply H. apply elem_of_seqZ. lia. }
  lia.
Qed.

Section conv_facts.
Variable utcoffset : Z -> Z.

(** X17.  Round trip of the timestamps of the alternate document.
    [conv_time_xtvd] writes the local wall clock of a millisecond with
    the letter Z after it, and [str2time1], which reads such a text as
    UTC, gives back the second of the local wall clock: the second of
    the timestamp moved by the offset of the local time zone, and that
    second itself when the offset is zero.  This holds for every
    timestamp that [datetime] can hold and whose local wall clock is in
    the years 1000 to 9999. *)
Theorem str2time1_conv_time_xtvd (t : Z) :
  Calendar.min_seconds <= t / 1000 <= Calendar.max_seconds ->
  -30610224000 <= t / 1000 + utcoffset (t / 1000) <= Calendar.max_seconds ->
  exists text,
    conv_time_xtvd utcoffset t = Some text
    /\ str2time1 text = t / 1000 + utcoffset (t / 1000).
Proof.
  intros Hs Hl. unfold conv_time_xtvd. cbv zeta.
  set (secs := t / 1000) in *. set (local := secs + utcoffset secs) in *.
  clearbody local.
  assert ((Calendar.min_seconds <=? secs) && (secs <=? Calendar.max_seconds)
          && (Calendar.min_seconds <=? local)
          && (local <=? Calendar.max_seconds) = true) as ->.
  { rewrite !andb_true_iff, !Z.leb_le. unfold Calendar.min_seconds in *.
    unfold Calendar.max_seconds in *. lia. }
  eexists. split; [done|].
  unfold Calendar.max_seconds in Hl.
  unfold Calendar.fields.
  destruct (ord2ymd_spec (local / 86400 + 719163)) as (y & m & d & -> & Hy & Hm & Hd & Ho).
  { Z.div_mod_to_equations. lia. }
  pose proof (ymd2ord_in_year y m d Hm Hd) as Hin. rewrite Ho in Hin.
  assert (1000 <= y <= 9999) as Hyr.
  { split.
    - destruct (Z.le_gt_cases 1000 y) as [|Hlt]; [done|].
      pose proof (days_before_year_mono (y + 1) 1000 ltac:(lia)) as Hmono.
      change (Time.days_before_year 1000) with 364877 in Hmono.
      Z.div_mod_to_equations. lia.
    - destruct (Z.le_gt_cases y 9999) as [|Hgt]; [done|].
      pose proof (days_before_year_mono 10000 y ltac:(lia)) as Hmono.
      change (Time.days_before_year 10000) with 3652059 in Hmono.
      Z.div_mod_to_equations. lia. }
  destruct (month_days_bound (Time.is_leap y) m Hm) as [Hd31 _].
  rewrite <- days_in_month_of_leap in Hd31.
  set (rem := local mod 86400).
  assert (0 <= rem < 86400) as Hrem by (subst rem; apply Z.mod_pos_bound; lia).
  set (dt := Time.mkDatetime y m d (rem / 3600) (rem mod 3600 / 60) (rem mod 60)).
  destruct (fmt_seconds_strftime dt) as [tl E];
    cbn [dt Time.year Time.month Time.day Time.hour Time.minute Time.second];
    try lia; try (Z.div_mod_to_equations; lia).
  unfold str2time1, Time.strptime. rewrite E. cbn [Str.nonempty].
  assert (Time.valid dt = true) as ->.
  { unfold Time.valid. cbn [dt Time.year Time.month Time.day Time.second].
    rewrite !andb_true_iff, !Z.leb_le. split; [split|]; [lia|lia|].
    Z.div_mod_to_equations. lia. }
  unfold Time.timestamp.
  cbn [dt Time.year Time.month Time.day Time.hour Time.minute Time.second].
  rewrite Ho. subst rem. Z.div_mod_to_equations. lia.
Qed.

End conv_facts.

Lemma str2time1_conv_time_xtvd_witness :
  exists text,
    conv_time_xtvd (fun _ => 3600) 1700000000123 = Some text
    /\ str2time1 text = 1700000000 + 3600.
Proof.
  destruct (str2time1_conv_time_xtvd (fun _ => 3600) 1700000000123
              ltac:(vm_compute; split; discriminate)
              ltac:(vm_compute; split; discriminate)) as (text & E1 & E2).
  exists text. split; [exact E1|exact E2].
Defined.

(** ** The order of the channels *)

Lemma string_compare_refl (s : string) : String.compare s s = Eq.
Proof.
  induction s as [|c s IH]; [done|]. cbn [String.compare].
  unfold Ascii.compare. by rewrite N.compare_refl.
Qed.

Lemma string_compare_trans (s1 : string) : forall s2 s3,
  String.compare s1 s2 = Lt -> String.compare s2 s3 = Lt ->
  String.compare s1 s3 = Lt.
Proof.
  induction s1 as [|c1 s1 IH]; intros [|c2 s2] [|c3 s3]; cbn [String.compare];
    try done.
  unfold Ascii.compare.
  destruct (N_of_ascii c1 ?= N_of_ascii c2)%N eqn:E12; [|intros _|done].
  - apply N.compare_eq_iff in E12. rewrite E12.
    destruct (N_of_ascii c2 ?= N_of_ascii c3)%N; [apply IH|done..].
  - destruct (N_of_ascii c2 ?= N_of_ascii c3)%N eqn:E23; [intros _|intros _|done].
    + apply N.compare_eq_iff in E23. by rewrite <- E23, E12.
    + apply N.compare_lt_iff in E12, E23.
      assert ((N_of_ascii c1 ?= N_of_ascii c3)%N = Lt) as ->; [|done].
      apply N.compare_lt_iff. by etrans.
Qed.

Lemma ltb_compare (a b : string) : Str.ltb a b = true <-> String.compare a b = Lt.
Proof. unfold Str.ltb, String.ltb. by destruct (String.compare a b). Qed.

Lemma ltb_irrefl (a : string) : Str.ltb a a = false.
Proof. unfold Str.ltb, String.ltb. by rewrite string_compare_refl. Qed.

Lemma ltb_asym (a b : string) : Str.ltb a b = true -> Str.ltb b a = false.
Proof.
  unfold Str.ltb, String.ltb. rewrite (String.compare_antisym b a).
  by destruct (String.compare a b).
Qed.

Lemma ltb_trans (a b c : string) :
  Str.ltb a b = true -> Str.ltb b c = true -> Str.ltb a c = true.
Proof. rewrite !ltb_compare. apply string_compare_trans. Qed.

Lemma ltb_eq (a b : string) :
  Str.ltb a b = false -> Str.ltb b a = false -> a = b.
Proof.
  unfold Str.ltb, String.ltb. rewrite (String.compare_antisym b a).
  destruct (String.compare a b) eqn:E; try done.
  intros _ _. by apply String.compare_eq_iff.
Qed.

(** The comparison of two stations, read as an order on their display
    orders and then on their station numbers. *)
Lemma cmp3_le (lt gt : bool) : cmp3 lt gt <= 0 <-> (gt = true -> lt = true).
Proof. unfold cmp3. destruct lt, gt; split; try done; try lia. Qed.

Lemma chan_le_spec z a b sa sb :
  dget a (stations z) = Some sa -> dget b (stations z) = Some sb ->
  chan_le z a b <->
  match order sa, order sb with
  | OrdNum x, OrdNum y => x < y \/ (x = y /\ Str.ltb (stnNum sb) (stnNum sa) = false)
  | OrdStr x, OrdStr y =>
      Str.ltb x y = true
      \/ (x = y /\ Str.ltb (stnNum sb) (stnNum sa) = false)
  | _, _ => False
  end.
Proof.
  intros Ea Eb. unfold chan_le, sort_chan. rewrite Ea, Eb. cbn [subscript rbind].
  destruct (order sa) as [x|x], (order sb) as [y|y]; cbn [cmp_order rbind].
  - destruct (Z.ltb_spec x y) as [Hxy|Hxy], (Z.ltb_spec y x) as [Hyx|Hyx];
      try lia.
    + change (cmp3 true false =? 0) with false. cbv iota.
      split; [by left|]. intros _. exists (-1). by split.
    + change (cmp3 false true =? 0) with false. cbv iota.
      split; [intros (c & [= <-] & Hc); by vm_compute in Hc
             |intros [?|[-> _]]; lia].
    + change (cmp3 false false =? 0) with true. cbv iota.
      assert (x = y) as -> by lia. split.
      * intros (c & [= <-] & Hc). right. split; [done|].
        pose proof (proj1 (cmp3_le _ _) Hc) as Hc'.
        destruct (Str.ltb (stnNum sb) (stnNum sa)) eqn:E; [|done].
        specialize (Hc' eq_refl). by rewrite (ltb_asym _ _ E) in Hc'.
      * intros [?|[_ H]]; [lia|]. eexists. split; [done|].
        apply cmp3_le. by rewrite H.
  - split; [by intros (c & ? & _)|done].
  - split; [by intros (c & ? & _)|done].
  - destruct (Str.ltb x y) eqn:Hxy, (Str.ltb y x) eqn:Hyx.
    + by rewrite (ltb_asym _ _ Hxy) in Hyx.
    + change (cmp3 true false =? 0) with false. cbv iota.
      split; [by left|]. intros _. exists (-1). by split.
    + change (cmp3 false true =? 0) with false. cbv iota.
      split; [intros (c & [= <-] & Hc); by vm_compute in Hc|].
      intros [?|[-> _]]; [done|]. by rewrite ltb_irrefl in Hyx.
    + change (cmp3 false false =? 0) with true. cbv iota.
      assert (x = y) as -> by (by apply ltb_eq). split.
      * intros (c & [= <-] & Hc). right. split; [done|].
        pose proof (proj1 (cmp3_le _ _) Hc) as Hc'.
        destruct (Str.ltb (stnNum sb) (stnNum sa)) eqn:E; [|done].
        specialize (Hc' eq_refl). by rewrite (ltb_asym _ _ E) in Hc'.
      * intros [?|[_ H]]; [done|]. eexists. split; [done|].
        apply cmp3_le. by rewrite H.
Qed.

Lemma sort_chan_flip z a b c :
  sort_chan z b a = Ok c -> sort_chan z a b = Ok (- c).
Proof.
  unfold sort_chan.
  destruct (dget b (stations z)) as [sb|]; [|done].
  destruct (dget a (stations z)) as [sa|]; [|done].
  cbn [subscript rbind].
  destruct (order sb) as [y|y], (order sa) as [x|x]; cbn [cmp_order rbind];
    try done.
  - destruct (y <? x), (x <? y); cbn; intros [= <-]; try done.
    + unfold cmp3. repeat case_match; f_equal; lia.
    + unfold cmp3. repeat case_match; f_equal; lia.
  - destruct (Str.ltb y x), (Str.ltb x y); cbn; intros [= <-]; try done.
    + unfold cmp3. repeat case_match; f_equal; lia.
    + unfold cmp3. repeat case_match; f_equal; lia.
Qed.

Lemma chan_le_stations z a b :
  chan_le z a b ->
  exists sa sb, dget a (stations z) = Some sa /\ dget b (stations z) = Some sb.
Proof.
  intros (c & E & _). unfold sort_chan in E.
  destruct (dget a (stations z)) as [sa|]; [|done].
  destruct (dget b (stations z)) as [sb|]; [|done]. by eauto.
Qed.

Lemma not_ltb_trans (a b c : string) :
  Str.ltb b a = false -> Str.ltb c b = false -> Str.ltb c a = false.
Proof.
  intros Hba Hcb. destruct (Str.ltb c a) eqn:Hca; [|done].
  destruct (Str.ltb a b) eqn:Hab.
  - by rewrite (ltb_trans _ _ _ Hca Hab) in Hcb.
  - assert (a = b) as -> by (by apply ltb_eq). by rewrite Hca in Hcb.
Qed.

Lemma chan_le_trans z a b c :
  chan_le z a b -> chan_le z b c -> chan_le z a c.
Proof.
  intros Hab Hbc.
  destruct (chan_le_stations _ _ _ Hab) as (sa & sb & Ea & Eb).
  destruct (chan_le_stations _ _ _ Hbc) as (sb' & sc & Eb' & Ec).
  rewrite Eb in Eb'. injection Eb' as <-.
  rewrite (chan_le_spec z a b sa sb Ea Eb) in Hab.
  rewrite (chan_le_spec z b c sb sc Eb Ec) in Hbc.
  rewrite (chan_le_spec z a c sa sc Ea Ec).
  destruct (order sa) as [x|x], (order sb) as [y|y], (order sc) as [w|w];
    try done.
  - destruct Hab as [?|[-> Hab]], Hbc as [?|[-> Hbc]]; try (left; lia).
    right. split; [done|]. by apply (not_ltb_trans _ (stnNum sb)).
  - destruct Hab as [Hxy|[-> Hab]], Hbc as [Hyw|[-> Hbc]].
    + left. by apply (ltb_trans _ y).
    + by left.
    + by left.
    + right. split; [done|]. by apply (not_ltb_trans _ (stnNum sb)).
Qed.

Lemma ascending_nil {A} (R : A -> A -> Prop) : ascending R [].
Proof. intros i j a b _ H. by rewrite lookup_nil in H. Qed.

Lemma ascending_cons {A} (R : A -> A -> Prop) x l :
  ascending R (x :: l) <-> Forall (R x) l /\ ascending R l.
Proof.
  split.
  - intros H. split.
    + apply Forall_lookup. intros j b Hb. apply (H 0%nat (S j)); [lia|done..].
    + intros i j a b Hij Ha Hb. apply (H (S i) (S j)); [lia|done..].
  - intros [Hall Hasc] i j a b Hij Ha Hb.
    destruct j as [|j]; [lia|]. cbn in Hb.
    destruct i as [|i].
    + injection Ha as <-. rewrite Forall_lookup in Hall. by apply (Hall j).
    + cbn in Ha. apply (Hasc i j); [lia|done..].
Qed.

Lemma insert_sorted_r_elem {A} (le : A -> A -> result bool) x l :
  forall l', insert_sorted_r le x l = Ok l' ->
  forall b, b ∈ l' -> b = x \/ b ∈ l.
Proof.
  induction l as [|y l IH]; intros l'; cbn [insert_sorted_r].
  - intros [= <-] b Hb. apply list_elem_of_singleton in Hb. by left.
  - destruct (le x y) as [[]|]; cbn [rbind]; [| |done].
    + intros [= <-] b Hb. apply elem_of_cons in Hb as [->|Hb]; [by left|].
      by right.
    + destruct (insert_sorted_r le x l) as [l''|]; cbn [rbind]; [|done].
      intros [= <-] b Hb. apply elem_of_cons in Hb as [->|Hb].
      * right. left.
      * destruct (IH l'' eq_refl b Hb) as [->|Hin]; [by left|].
        right. by right.
Qed.

(** Insertion keeps a list in order when the test tells the order of
    the two elements it is asked about. *)
Lemma insert_sorted_r_ascending {A} (R : A -> A -> Prop)
    (le : A -> A -> result bool) x l :
  (forall a b c, R a b -> R b c -> R a c) ->
  (forall y, y ∈ l -> le x y = Ok true -> R x y) ->
  (forall y, y ∈ l -> le x y = Ok false -> R y x) ->
  ascending R l ->
  forall l', insert_sorted_r le x l = Ok l' -> ascending R l'.
Proof.
  intros Htrans. induction l as [|y l IH]; intros Ht Hf Hasc l';
    cbn [insert_sorted_r].
  - intros [= <-]. apply ascending_cons. split; [apply Forall_nil_2|done].
  - destruct (le x y) as [[]|] eqn:E; cbn [rbind]; [| |done].
    + intros [= <-]. apply ascending_cons. split; [|done].
      assert (R x y) as Hxy by (apply Ht; [left|done]).
      apply ascending_cons in Hasc as [Hall _].
      apply Forall_cons_2; [done|].
      eapply Forall_impl; [exact Hall|]. intros b Hb. by apply (Htrans _ y).
    + destruct (insert_sorted_r le x l) as [l''|] eqn:E'; cbn [rbind]; [|done].
      intros [= <-].
      apply ascending_cons in Hasc as [Hall Hasc].
      apply ascending_cons. split.
      * apply Forall_forall. intros b Hb.
        destruct (insert_sorted_r_elem le x l l'' E' b Hb) as [->|Hin].
        -- apply Hf; [left|done].
        -- rewrite Forall_forall in Hall. by apply Hall.
      * apply (IH ltac:(intros; apply Ht; [by right|done])
                  ltac:(intros; apply Hf; [by right|done]) Hasc). done.
Qed.

Lemma sorted_r_ascending {A} (R : A -> A -> Prop)
    (le : A -> A -> result bool) l :
  (forall a b c, R a b -> R b c -> R a c) ->
  (forall x y, x ∈ l -> y ∈ l -> le x y = Ok true -> R x y) ->
  (forall x y, x ∈ l -> y ∈ l -> le x y = Ok false -> R y x) ->
  forall l', sorted_r le l = Ok l' -> ascending R l' /\ (forall b, b ∈ l' -> b ∈ l).
Proof.
  intros Htrans. unfold sorted_r.
  induction l as [|x l IH]; intros Ht Hf l'; cbn [foldr].
  - intros [= <-]. split; [apply ascending_nil|done].
  - destruct (foldr _ (Ok []) l) as [l1|] eqn:E1; cbn [rbind]; [|done].
    intros E.
    destruct (IH ltac:(intros; apply Ht; [by right..|done])
                 ltac:(intros; apply Hf; [by right..|done]) l1 eq_refl)
      as [Hasc Hsub].
    split.
    + apply (insert_sorted_r_ascending R le x l1); try done.
      * intros y Hy. apply Ht; [left|right; by apply Hsub].
      * intros y Hy. apply Hf; [left|right; by apply Hsub].
    + intros b Hb.
      destruct (insert_sorted_r_elem le x l1 l' E b Hb) as [->|Hin]; [left|].
      right. by apply Hsub.
Qed.

(** X18.  The channels are written in ascending order.  With stores
    as the parsers keep them, [print_channels] writes one channel for
    every station, and of any two channels the one written first is not
    after the other by [sort_chan]: its display order is lower, or the
    display orders are equal and its station number is not greater.  A
    display order that is a channel number is compared as a string. *)
Theorem channels_sorted (z : zap) :
  well_formed z ->
  exists l cs,
    sorted_stations z (dkeys (stations z)) = Ok l
    /\ l ≡ₚ dkeys (stations z)
    /\ ascending (chan_le z) l
    /\ print_channels z = Ok cs
    /\ Forall2 (fun k c => station_to_channel z k = Ok c) l cs.
Proof.
  intros Hwf.
  destruct (sorted_stations_ok z (dkeys (stations z)) Hwf) as (l & E & Hp).
  { intros k Hk. by apply dget_is_Some_keys. }
  exists l.
  destruct (print_channels_order z l E) as (cs & Ec & Hall).
  { intros k Hk. apply dget_is_Some_keys. by rewrite <- Hp. }
  exists cs. split; [done|]. split; [done|]. split; [|done].
  unfold sorted_stations in E.
  apply (sorted_r_ascending (chan_le z)) in E as [Hasc _]; [done|..].
  - intros a b c. apply chan_le_trans.
  - intros x y _ _ Hle.
    destruct (sort_chan z y x) as [c|] eqn:Ec'; cbn [rbind] in Hle; [|done].
    injection Hle as Hle. apply negb_true_iff, Z.ltb_ge in Hle.
    exists (- c). split; [by apply sort_chan_flip|lia].
  - intros x y _ _ Hle.
    destruct (sort_chan z y x) as [c|] eqn:Ec'; cbn [rbind] in Hle; [|done].
    injection Hle as Hle. apply negb_false_iff, Z.ltb_lt in Hle.
    exists c. split; [done|lia].
Qed.

Lemma channels_sorted_witness :
  let z := set_stations
             [("9.111", mkStation "111" "NINE" "9" (OrdStr "9") None);
              ("10.222", mkStation "222" "TEN" "10" (OrdStr "10") None)]
             (initial_zap default_options) in
  well_formed z
  /\ sorted_stations z (dkeys (stations z)) = Ok ["10.222"; "9.111"]
  /\ ascending (chan_le z) ["10.222"; "9.111"].
Proof.
  intros z.
  assert (H : well_formed z).
  { split.
    - intros cs d Hin. by apply elem_of_nil in Hin.
    - intros cs st Hin.
      repeat (apply elem_of_cons in Hin as [[= -> ->]|Hin]; [reflexivity|]).
      by apply elem_of_nil in Hin. }
  destruct (channels_sorted z H) as (l & cs & E & _ & Hasc & _).
  assert (l = ["10.222"; "9.111"]) as ->.
  { vm_compute in E. by injection E as <-. }
  split; [exact H|]. split; [exact E|exact Hasc].
Defined.

(** ** A fetched payload *)

Section fetch_facts.
Variable json_grid : string -> option (list json_channel).
Variable json_overview : string -> option overview.
Variable net : nat -> Z -> response.



End fetch_facts.


(** ** The configuration file *)

Lemma rstrip_cons (c : ascii) (s : string) :
  is_space c = false -> rstrip (String c s) = String c (rstrip s).
Proof.
  intros Hc. cbn [rstrip]. rewrite Hc. by destruct (rstrip s).
Qed.

Lemma star_stop (cls : ascii -> bool) (k : string -> option string)
    (c : ascii) (s : string) :
  cls c = false -> star cls k (String c s) = k (String c s).
Proof. intros Hc. cbn [star]. by rewrite Hc. Qed.

Lemma lit_ci_self (l r : string) : lit_ci l (l +:+ r) = Some r.
Proof.
  induction l as [|a l IH]; [done|].
  change (String a l +:+ r) with (String a (l +:+ r)).
  cbn [lit_ci]. by rewrite decide_True.
Qed.

(** An expression that asks for another name fails on the line. *)
Lemma re_match_other (k : string) (tail : list item) (a : ascii) (l : string) :
  is_space a = false -> lit_ci k (String a l) = None ->
  re_match (Star is_space :: Lit k :: tail) (String a l) = None.
Proof.
  intros Ha Hk. cbn [re_match]. rewrite star_stop by done.
  by rewrite Hk.
Qed.

Lemma re_match_name (k : string) (tail : list item) (a : ascii) (l r : string) :
  is_space a = false -> k = String a l ->
  re_match (Star is_space :: Lit k :: tail) (k +:+ r) = re_match tail r.
Proof.
  intros Ha ->. cbn [re_match].
  change (String a l +:+ r) with (String a (l +:+ r)).
  rewrite star_stop by done.
  change (String a (l +:+ r)) with (String a l +:+ r).
  by rewrite lit_ci_self.
Qed.

(** What follows the name: the equals sign and a value that starts with
    a visible character. *)
Lemma re_match_value (cls : ascii -> bool) (c : ascii) (w : string) :
  cls "="%char = false -> is_space c = false ->
  exists g, re_match [Star cls; Lit "="; Star is_space; Group dot]
              (String "="%char (String c w)) = Some g.
Proof.
  intros Hcls Hc. cbn [re_match]. rewrite star_stop by done.
  cbn [lit_ci]. rewrite decide_True by done.
  rewrite star_stop by done. cbn [take_while].
  assert (dot c = true) as ->; [|by eexists].
  unfold dot. apply negb_true_iff, Z.eqb_neq. intros E.
  unfold is_space in Hc. rewrite E in Hc. discriminate.
Qed.

Lemma first_rule_skip (p : list item) (a : action)
    (rules : list (list item * action)) (line : string) :
  re_match p line = None ->
  first_rule ((p, a) :: rules) line = first_rule rules line.
Proof. intros H. cbn [first_rule]. by rewrite H. Qed.

Lemma first_rule_here (p : list item) (a : action)
    (rules : list (list item * action)) (line g : string) :
  re_match p line = Some g ->
  first_rule ((p, a) :: rules) line = Some (a, g).
Proof. intros H. cbn [first_rule]. by rewrite H. Qed.

Lemma text_setting_matches (key : string) (a : ascii) (l : string)
    (c : ascii) (w : string) :
  key = String a l -> is_space a = false -> is_space c = false ->
  (exists g, re_match (text_setting key)
               (key +:+ String "="%char (String c w)) = Some g)
  /\ (exists g, re_match (loose_setting key)
                  (key +:+ String "="%char (String c w)) = Some g).
Proof.
  intros Hk Ha Hc. unfold text_setting, loose_setting.
  rewrite !(re_match_name key _ a l) by done.
  split; by apply re_match_value.
Qed.

Lemma first_rule_rtrim (key : string) (c : ascii) (w : string) :
  key ∈ rtrim_settings -> is_space c = false ->
  exists g, first_rule config_rules (key +:+ String "="%char (String c w))
            = Some (Rtrim, g).
Proof.
  intros Hkey Hc. unfold rtrim_settings in Hkey. unfold config_rules.
  repeat (apply elem_of_cons in Hkey as [->|Hkey]);
    [..|by apply elem_of_nil in Hkey];
    repeat (rewrite first_rule_skip
              by (unfold number_setting, text_setting, loose_setting;
                  apply re_match_other; reflexivity));
    match goal with
    | |- context [first_rule ((_ ?key, _) :: _) _] =>
        destruct (text_setting_matches key _ _ c w eq_refl eq_refl Hc)
          as [[g1 Hg1] [g2 Hg2]]
    end;
    first [ exists g1; apply first_rule_here, Hg1
          | exists g2; apply first_rule_here, Hg2 ].
Qed.

Lemma before_hash_cons (a : ascii) (s : string) :
  Ascii.eqb a "#" = false -> before_hash (String a s) = String a (before_hash s).
Proof. intros Ha. cbn [before_hash]. by rewrite Ha. Qed.

Lemma lstrip_kept (a : ascii) (s : string) :
  is_space a = false -> lstrip (String a s) = String a s.
Proof. intros Ha. cbn [lstrip]. by rewrite Ha. Qed.

Lemma strip_line (key : string) (c : ascii) (w : string) :
  forallb kept_char (chars key) = true -> kept_char c = true ->
  exists w', strip (before_hash (key +:+ String "="%char (String c w)))
             = key +:+ String "="%char (String c w').
Proof.
  intros Hkey Hc. exists (rstrip (before_hash w)).
  apply andb_true_iff in Hc as [Hc1 Hc2].
  apply negb_true_iff in Hc1, Hc2.
  assert (Hb : before_hash (key +:+ String "="%char (String c w))
               = key +:+ String "="%char (String c (before_hash w))).
  { induction key as [|a key IH].
    - change (EmptyString +:+ ?r) with r. by rewrite !before_hash_cons.
    - cbn [chars list_ascii_of_string forallb] in Hkey.
      apply andb_true_iff in Hkey as [Ha Hkey].
      apply andb_true_iff in Ha as [_ Ha]. apply negb_true_iff in Ha.
      change (String a key +:+ ?r) with (String a (key +:+ r)).
      by rewrite before_hash_cons, IH. }
  rewrite Hb. unfold strip.
  assert (Hl : forall r, lstrip (key +:+ String "="%char r)
                         = key +:+ String "="%char r).
  { intros r. destruct key as [|a key]; [done|].
    cbn [chars list_ascii_of_string forallb] in Hkey.
    apply andb_true_iff in Hkey as [Ha _].
    apply andb_true_iff in Ha as [Ha _]. apply negb_true_iff in Ha.
    change (String a key +:+ ?r) with (String a (key +:+ r)).
    by apply lstrip_kept. }
  rewrite Hl. clear Hb Hl.
  induction key as [|a key IH].
  - change (EmptyString +:+ ?r) with r. by rewrite !rstrip_cons.
  - cbn [chars list_ascii_of_string forallb] in Hkey.
    apply andb_true_iff in Hkey as [Ha Hkey].
    apply andb_true_iff in Ha as [Ha _]. apply negb_true_iff in Ha.
    change (String a key +:+ ?r) with (String a (key +:+ r)).
    by rewrite rstrip_cons, IH.
Qed.

Lemma read_config_line_rtrim (key : string) (c : ascii) (w : string)
    (s : settings) :
  key ∈ rtrim_settings -> kept_char c = true ->
  read_config_line (key +:+ String "="%char (String c w)) s
  = inr AttributeError.
Proof.
  intros Hkey Hc.
  assert (Hk : forallb kept_char (chars key) = true).
  { unfold rtrim_settings in Hkey.
    repeat (apply elem_of_cons in Hkey as [->|Hkey]); try reflexivity.
    by apply elem_of_nil in Hkey. }
  destruct (strip_line key c w Hk Hc) as [w' Hw].
  unfold read_config_line. rewrite Hw.
  assert (Str.nonempty (key +:+ String "="%char (String c w')) = true) as ->
    by (by destruct key).
  cbn [negb].
  apply andb_true_iff in Hc as [Hc _]. apply negb_true_iff in Hc.
  destruct (first_rule_rtrim key c w' Hkey Hc) as [g Hg].
  by rewrite Hg.
Qed.

Lemma read_config_lines_app (l1 l2 : list string) (s s1 : settings) :
  read_config_lines l1 s = inl s1 ->
  read_config_lines (l1 ++ l2) s = read_config_lines l2 s1.
Proof.
  revert s. induction l1 as [|l l1 IH]; intros s H; cbn in *.
  - by injection H as ->.
  - destruct (read_config_line l s); [by apply IH|discriminate].
Qed.

(** X20. A line of the configuration file that sets one of the texts
    (user, pass, cache, icon, trailer, lang, outfile, proxy, lineupid,
    lineupname, lineuptype, lineuplocation, postalcode) to a value that
    starts with a visible character other than the number sign ends
    [read_config_file] with [AttributeError], whatever follows it: the
    value is handed to [self.rtrim], which the class does not have. *)
Theorem config_text_setting_raises (key : string) (c : ascii) (w : string)
    (before after : list string) (s s1 : settings) :
  key ∈ rtrim_settings ->
  kept_char c = true ->
  read_config_lines before s = inl s1 ->
  read_config_file
    (Some (before ++ (key +:+ String "="%char (String c w)) :: after)) s
  = ConfigError AttributeError.
Proof.
  intros Hkey Hc Hb. unfold read_config_file.
  rewrite (read_config_lines_app _ _ _ _ Hb). cbn [read_config_lines].
  by rewrite read_config_line_rtrim.
Qed.

Lemma int_of_decimal (n : Z) : int_of (decimal n) = Some n.
Proof.
  unfold int_of, decimal. rewrite NilZero.isi.
  - cbn. by rewrite DecimalZ.of_to.
  - destruct n as [|p|p]; cbn; [discriminate| |discriminate].
    intros E. injection E as E. by apply DecimalPos.Unsigned.to_uint_nonnil in E.
  - destruct n as [|p|p]; cbn; [discriminate|discriminate|].
    intros E. injection E as E. by apply DecimalPos.Unsigned.to_uint_nonnil in E.
Qed.

Lemma uint_digits (d : Decimal.uint) :
  forallb Str.is_digit (chars (NilEmpty.string_of_uint d)) = true.
Proof.
  unfold chars.
  induction d; [done|..];
    cbn [NilEmpty.string_of_uint list_ascii_of_string forallb];
    rewrite IHd; reflexivity.
Qed.

Lemma decimal_digits (n : Z) :
  0 <= n ->
  forallb Str.is_digit (chars (decimal n)) = true /\ decimal n <> EmptyString.
Proof.
  intros Hn. unfold decimal. destruct n as [|p|p]; [done| |lia].
  cbn [Z.to_int NilZero.string_of_int]. unfold NilZero.string_of_uint.
  pose proof (DecimalPos.Unsigned.to_uint_nonnil p) as Hp.
  destruct (Pos.to_uint p) as [|d|d|d|d|d|d|d|d|d|d] eqn:E; [done|..];
    (split; [rewrite <- E at 1; rewrite E; apply uint_digits|discriminate]).
Qed.

Lemma digit_kept (a : ascii) :
  implb (Str.is_digit a) (kept_char a) = true.
Proof. destruct a as [[] [] [] [] [] [] [] []]; reflexivity. Qed.

Lemma space_not_hash (a : ascii) :
  implb (is_space a) (negb (Ascii.eqb a "#")) = true.
Proof. destruct a as [[] [] [] [] [] [] [] []]; reflexivity. Qed.

Lemma strip_plain (x t : string) :
  forallb kept_char (chars x) = true -> forallb is_space (chars t) = true ->
  strip (before_hash (x +:+ t)) = x.
Proof.
  intros Hx Ht.
  assert (Hb : before_hash t = t).
  { induction t as [|a t IH]; [done|].
    cbn [chars list_ascii_of_string forallb] in Ht.
    apply andb_true_iff in Ht as [Ha Ht].
    pose proof (space_not_hash a) as Hh. rewrite Ha in Hh. cbn in Hh.
    apply negb_true_iff in Hh. by rewrite before_hash_cons, IH. }
  assert (Hr : rstrip t = EmptyString).
  { clear Hb. induction t as [|a t IH]; [done|].
    cbn [chars list_ascii_of_string forallb] in Ht.
    apply andb_true_iff in Ht as [Ha Ht].
    cbn [rstrip]. by rewrite IH, Ha. }
  assert (Hl : lstrip t = EmptyString).
  { clear Hb Hr. induction t as [|a t IH]; [done|].
    cbn [chars list_ascii_of_string forallb] in Ht.
    apply andb_true_iff in Ht as [Ha Ht].
    cbn [lstrip]. by rewrite Ha, IH. }
  assert (Hb' : before_hash (x +:+ t) = x +:+ t).
  { clear Hr Hl. induction x as [|a x IH]; [done|].
    cbn [chars list_ascii_of_string forallb] in Hx.
    apply andb_true_iff in Hx as [Ha Hx].
    apply andb_true_iff in Ha as [_ Ha]. apply negb_true_iff in Ha.
    change (String a x +:+ t) with (String a (x +:+ t)).
    by rewrite before_hash_cons, IH. }
  rewrite Hb'. unfold strip. clear Hb Hb'.
  destruct x as [|a x].
  { change (EmptyString +:+ t) with t. by rewrite Hl. }
  change (String a x +:+ t) with (String a (x +:+ t)).
  pose proof Hx as Hx'.
  cbn [chars list_ascii_of_string forallb] in Hx'.
  apply andb_true_iff in Hx' as [Ha _].
  apply andb_true_iff in Ha as [Ha _]. apply negb_true_iff in Ha.
  rewrite lstrip_kept by done. clear Ha Hl.
  change (String a (x +:+ t)) with (String a x +:+ t).
  induction (String a x) as [|b y IH].
  - done.
  - cbn [chars list_ascii_of_string forallb] in Hx.
    apply andb_true_iff in Hx as [Hb Hx].
    apply andb_true_iff in Hb as [Hb _]. apply negb_true_iff in Hb.
    change (String b y +:+ t) with (String b (y +:+ t)).
    by rewrite rstrip_cons, IH.
Qed.

Lemma take_while_all (cls : ascii -> bool) (d : string) :
  forallb cls (chars d) = true -> take_while cls d = d.
Proof.
  induction d as [|a d IH]; [done|]. intros H.
  cbn [chars list_ascii_of_string forallb] in H.
  apply andb_true_iff in H as [Ha H].
  cbn [take_while]. by rewrite Ha, IH.
Qed.

Lemma number_setting_matches (key : string) (a : ascii) (l d : string) :
  key = String a l -> is_space a = false ->
  forallb Str.is_digit (chars d) = true -> d <> EmptyString ->
  re_match (number_setting key) (key +:+ String "="%char d) = Some d.
Proof.
  intros Hk Ha Hd Hne. unfold number_setting.
  rewrite (re_match_name key _ a l) by done.
  cbn [re_match]. rewrite star_stop by done.
  cbn [lit_ci]. rewrite decide_True by done.
  destruct d as [|b d]; [done|].
  assert (is_space b = false) as Hb.
  { cbn [chars list_ascii_of_string forallb] in Hd.
    apply andb_true_iff in Hd as [Hb _].
    pose proof (digit_kept b) as Hk'. rewrite Hb in Hk'. cbn in Hk'.
    apply andb_true_iff in Hk' as [Hk' _]. by apply negb_true_iff in Hk'. }
  rewrite star_stop by done.
  by rewrite take_while_all.
Qed.

Lemma forallb_digit_kept (d : string) :
  forallb Str.is_digit (chars d) = true -> forallb kept_char (chars d) = true.
Proof.
  rewrite !forallb_forall. intros H a Ha.
  pose proof (digit_kept a) as Hk. by rewrite (H a Ha) in Hk.
Qed.

(** X21. A line [name=<n>] of the configuration file, where the name is
    one of start, days, ncdays, ncsdays, ncmday and retries and [n] is
    written in decimal with at most 4300 digits, stores [n] in the
    attribute of that name; white space after the number (the end of
    the line) does not count. *)
Theorem config_number_stored (key : string)
    (setter : Z -> settings -> settings) (n : Z) (t : string) (s : settings) :
  (number_setting key, SetNumber setter) ∈ config_rules ->
  0 <= n -> Str.len (decimal n) <= 4300 ->
  forallb is_space (chars t) = true ->
  read_config_line ((key +:+ String "="%char (decimal n)) +:+ t) s
  = inl (setter n s).
Proof.
  intros Hkey Hn Hlen Ht.
  destruct (decimal_digits n Hn) as [Hd Hne].
  assert (Hline : forallb kept_char (chars key) = true
                  /\ first_rule config_rules
                       (key +:+ String "="%char (decimal n))
                     = Some (SetNumber setter, decimal n)).
  { unfold config_rules in *.
    unfold number_setting, text_setting, loose_setting in Hkey.
    repeat (apply elem_of_cons in Hkey as [E|Hkey];
            [first [discriminate E | injection E as -> ->]|]);
      [..|by apply elem_of_nil in Hkey];
      (split; [reflexivity|]);
      repeat (rewrite first_rule_skip
                by (unfold number_setting; apply re_match_other; reflexivity));
      apply first_rule_here;
      (eapply number_setting_matches; [reflexivity|reflexivity|done|done]). }
  destruct Hline as [Hk Hrule].
  unfold read_config_line. rewrite strip_plain; [|
    rewrite chars_app, forallb_app, Hk;
    change (chars (String "="%char (decimal n)))
      with ("="%char :: chars (decimal n));
    cbn [forallb andb]; rewrite forallb_digit_kept by done; reflexivity
    | done].
  assert (Str.nonempty (key +:+ String "="%char (decimal n)) = true) as ->
    by (by destruct key).
  cbn [negb]. rewrite Hrule.
  assert ((4300 <? Str.len (decimal n)) = false) as -> by (apply Z.ltb_ge; lia).
  by rewrite int_of_decimal.
Qed.

Lemma first_rule_in (rules : list (list item * action)) (line : string)
    (a : action) (g : string) :
  first_rule rules line = Some (a, g) -> exists p, (p, a) ∈ rules.
Proof.
  induction rules as [|[p b] rules IH]; [done|]. cbn [first_rule].
  destruct (re_match p line) as [g'|].
  - intros E. injection E as -> ->. exists p. apply list_elem_of_here.
  - intros E. destruct (IH E) as [q Hq]. exists q.
    by apply list_elem_of_further.
Qed.

Lemma read_config_line_user (line : string) (s s' : settings) :
  read_config_line line s = inl s' -> s_userEmail s' = s_userEmail s.
Proof.
  unfold read_config_line.
  destruct (negb _); [by intros [= ->]|].
  destruct (first_rule config_rules _) as [[[setter| |] g]|] eqn:E;
    [|discriminate| |discriminate].
  - destruct (if 4300 <? Str.len g then None else int_of g) as [n|];
      [|discriminate].
    intros [= <-]. apply first_rule_in in E as [p Hp].
    unfold config_rules in Hp.
    repeat (apply elem_of_cons in Hp as [Hp|Hp];
            [first [discriminate Hp | injection Hp as _ ->; reflexivity]|]).
    by apply elem_of_nil in Hp.
  - intros [= <-]. by destruct (Str.contains _ _).
Qed.

Lemma read_config_lines_user (lines : list string) (s s' : settings) :
  read_config_lines lines s = inl s' -> s_userEmail s' = s_userEmail s.
Proof.
  revert s. induction lines as [|l lines IH]; intros s; cbn [read_config_lines].
  - by intros [= ->].
  - destruct (read_config_line l s) as [s1|e] eqn:E; [|discriminate].
    intros H. rewrite (IH _ H). by apply read_config_line_user in E.
Qed.

(** X22. The configuration file cannot give the user name: when
    [read_config_file] returns, [userEmail] is what it was before the
    file was read (the command line), and it is not empty.  With an
    empty user name the method ends in the help text or in an
    exception. *)
Theorem config_never_sets_user (file : option (list string))
    (s s' : settings) :
  read_config_file file s = Configured s' ->
  s_userEmail s' = s_userEmail s /\ s_userEmail s <> EmptyString.
Proof.
  unfold read_config_file.
  destruct (match file with Some lines => read_config_lines lines s
                          | None => inl s end) as [s1|e] eqn:E;
    [|discriminate].
  assert (Hu : s_userEmail s1 = s_userEmail s).
  { destruct file as [lines|]; [by apply read_config_lines_user in E|].
    by injection E as ->. }
  destruct (Str.nonempty (s_userEmail s1)) eqn:N; [|discriminate].
  intros [= <-]. split; [done|]. rewrite <- Hu. by destruct (s_userEmail s1).
Qed.

Lemma config_text_setting_raises_witness :
  let s := mkSettings 0 7 0 0 (-1) 3 false "" in
  read_config_file
    (Some (["# settings"; "days=3"]
           ++ ("user" +:+ String "="%char (String "a"%char "@b.c")) ::
              ["retries=2"])) s
  = ConfigError AttributeError.
Proof.
  intros s.
  apply (config_text_setting_raises "user" "a"%char "@b.c"
           ["# settings"; "days=3"] ["retries=2"] s (set_s_days 3 s)).
  - unfold rtrim_settings. apply list_elem_of_here.
  - reflexivity.
  - reflexivity.
Defined.

Lemma config_number_stored_witness :
  let s := mkSettings 0 7 0 0 (-1) 3 false "" in
  read_config_line (("ncdays" +:+ String "="%char (decimal 12)) +:+ " ") s
  = inl (set_s_ncdays 12 s).
Proof.
  intros s.
  apply (config_number_stored "ncdays" set_s_ncdays 12 " " s).
  - unfold config_rules.
    apply list_elem_of_further, list_elem_of_further, list_elem_of_here.
  - lia.
  - vm_compute. discriminate.
  - reflexivity.
Defined.

Lemma config_never_sets_user_witness :
  let s := mkSettings 0 7 0 0 (-1) 3 false "me@example.org" in
  s_userEmail (set_s_outputXTVD true (set_s_days 3 s)) = s_userEmail s
  /\ s_userEmail s <> EmptyString.
Proof.
  intros s.
  apply (config_never_sets_user (Some ["days=3"; "outformat=XTVD"]) s).
  reflexivity.
Defined.

(** ** Episode numbers *)

Lemma uint_of_digits (ds : string) :
  forallb Str.is_digit (chars ds) = true ->
  exists u, NilEmpty.uint_of_string ds = Some u
            /\ NilEmpty.string_of_uint u = ds.
Proof.
  induction ds as [|a ds IH]; intros H.
  - by exists Decimal.Nil.
  - cbn [chars list_ascii_of_string forallb] in H.
    apply andb_true_iff in H as [Ha H].
    destruct (IH H) as (u & Eu & Es).
    cbn [NilEmpty.uint_of_string]. rewrite Eu.
    destruct a as [[] [] [] [] [] [] [] []]; try discriminate Ha;
      eexists; (split; [reflexivity|]);
      cbn [NilEmpty.string_of_uint]; by rewrite Es.
Qed.

Lemma zeros_app (m n : nat) : zeros (m + n) = zeros m +:+ zeros n.
Proof.
  induction m as [|m IH]; [done|].
  change (zeros (S m + n)) with (String "0"%char (zeros (m + n))).
  by rewrite IH.
Qed.

Lemma zeros_snoc (k : nat) : zeros (S k) = zeros k +:+ "0".
Proof.
  replace (S k) with (k + 1)%nat by lia. by rewrite zeros_app.
Qed.

Lemma uint_leading_zeros (u : Decimal.uint) :
  exists k, NilEmpty.string_of_uint u
            = zeros k +:+ NilEmpty.string_of_uint (Decimal.nzhead u)
            /\ (u <> Decimal.Nil -> Decimal.nzhead u = Decimal.Nil ->
                (0 < k)%nat).
Proof.
  induction u as [|u IH|u _|u _|u _|u _|u _|u _|u _|u _|u _];
    try (exists 0%nat; split; [reflexivity|intros _ E; discriminate E]).
  - exists 0%nat. split; [reflexivity|]. by intros H.
  - destruct IH as (k & E & _). exists (S k). split; [|lia].
    cbn [NilEmpty.string_of_uint Decimal.nzhead]. rewrite E. reflexivity.
Qed.

Lemma uint_unorm_zeros (u : Decimal.uint) :
  u <> Decimal.Nil ->
  exists k, NilEmpty.string_of_uint u
            = zeros k +:+ NilZero.string_of_uint (Decimal.unorm u).
Proof.
  intros Hu. destruct (uint_leading_zeros u) as (k & E & Hk).
  unfold Decimal.unorm.
  destruct (Decimal.nzhead u) as [|v|v|v|v|v|v|v|v|v|v] eqn:N;
    try (exists k; exact E).
  specialize (Hk Hu eq_refl). destruct k as [|k]; [lia|].
  exists k. rewrite E. cbn [NilEmpty.string_of_uint].
  rewrite append_nil_r. apply zeros_snoc.
Qed.

Lemma decimal_of_uint (u : Decimal.uint) :
  decimal (Z.of_uint u) = NilZero.string_of_uint (Decimal.unorm u).
Proof.
  unfold decimal. change (Z.of_uint u) with (Z.of_int (Decimal.Pos u)).
  by rewrite DecimalZ.to_of.
Qed.

Lemma length_append (a b : string) :
  String.length (a +:+ b) = (String.length a + String.length b)%nat.
Proof.
  induction a as [|c a IH]; [done|].
  change (S (String.length (a +:+ b))
          = S (String.length a + String.length b)).
  by rewrite IH.
Qed.

Lemma length_zeros (k : nat) : String.length (zeros k) = k.
Proof.
  induction k as [|k IH]; [done|].
  change (S (String.length (zeros k)) = S k). by rewrite IH.
Qed.

(** A string of digits is its value in decimal behind some zeros. *)
Lemma digits_decimal (ds : string) :
  forallb Str.is_digit (chars ds) = true -> ds <> EmptyString ->
  exists a k, int_of ds = Some a /\ 0 <= a /\ ds = zeros k +:+ decimal a.
Proof.
  intros Hd Hne. destruct (uint_of_digits ds Hd) as (u & Eu & Es).
  assert (Hu : u <> Decimal.Nil) by (intros ->; by rewrite <- Es in Hne).
  exists (Z.of_uint u). destruct (uint_unorm_zeros u Hu) as (k & Ek).
  exists k. split; [|split].
  - unfold int_of, NilZero.int_of_string.
    destruct ds as [|c ds]; [done|].
    assert (Ascii.eqb c "-" = false) as ->.
    { cbn [chars list_ascii_of_string forallb] in Hd.
      apply andb_true_iff in Hd as [Hc _].
      destruct (Ascii.eqb_spec c "-"%char) as [->|]; [discriminate Hc|done]. }
    unfold NilZero.uint_of_string. by rewrite Eu.
  - unfold Z.of_uint. apply N2Z.is_nonneg.
  - by rewrite decimal_of_uint, <- Ek.
Qed.

Lemma digit_not_int_space (a : ascii) :
  implb (Str.is_digit a)
        (negb (int_space a) && negb (Ascii.eqb a "-") && negb (Ascii.eqb a "+")
         && negb (Ascii.eqb a "_"))
  = true.
Proof. destruct a as [[] [] [] [] [] [] [] []]; reflexivity. Qed.

Lemma digit_plain (a : ascii) :
  Str.is_digit a = true ->
  int_space a = false /\ Ascii.eqb a "-" = false /\ Ascii.eqb a "+" = false
  /\ Ascii.eqb a "_" = false.
Proof.
  intros Ha. pose proof (digit_not_int_space a) as H. rewrite Ha in H.
  cbn [implb] in H. repeat (apply andb_true_iff in H as [H ?]).
  repeat split; by apply negb_true_iff.
Qed.

Lemma rdrop_while_digits (ds : string) :
  forallb Str.is_digit (chars ds) = true -> rdrop_while int_space ds = ds.
Proof.
  induction ds as [|a ds IH]; [done|]. intros H.
  cbn [chars list_ascii_of_string forallb] in H.
  apply andb_true_iff in H as [Ha H].
  destruct (digit_plain a Ha) as (Hs & _).
  cbn [rdrop_while]. rewrite (IH H), Hs. by destruct ds.
Qed.

Lemma literal_digits_digits (ds : string) :
  forallb Str.is_digit (chars ds) = true -> ds <> EmptyString ->
  literal_digits ds = Some ds.
Proof.
  induction ds as [|a ds IH]; [done|]. intros H _.
  cbn [chars list_ascii_of_string forallb] in H.
  apply andb_true_iff in H as [Ha H].
  cbn [literal_digits]. rewrite Ha.
  destruct ds as [|u ds]; [done|].
  assert (Ascii.eqb u "_" = false) as ->.
  { cbn [chars list_ascii_of_string forallb] in H.
    apply andb_true_iff in H as [Hu _]. by destruct (digit_plain u Hu) as (_&_&_&?). }
  by rewrite IH.
Qed.

Lemma py_int_digits (ds : string) :
  digit_string ds -> py_int ds = int_of ds.
Proof.
  intros (Hne & Hd & Hlen). unfold py_int, trim_int.
  destruct ds as [|c ds]; [done|].
  pose proof Hd as Hd'.
  cbn [chars list_ascii_of_string forallb] in Hd'.
  apply andb_true_iff in Hd' as [Hc _].
  destruct (digit_plain c Hc) as (Hs & Hm & Hp & _).
  cbn [drop_while]. rewrite Hs, rdrop_while_digits by done.
  rewrite Hm, Hp. unfold digits_value.
  rewrite literal_digits_digits by done. cbn [mbind option_bind].
  by assert ((4300 <? Str.len (String c ds)) = false) as ->
    by (apply Z.ltb_ge; lia).
Qed.

Lemma format_0d_digits (ds : string) (a : Z) (k : nat) :
  0 <= a -> ds = zeros k +:+ decimal a ->
  format_0d a (Z.max 2 (Str.len ds)) = zfill 2 ds.
Proof.
  intros Ha E. unfold format_0d.
  assert ((a <? 0) = false) as -> by (apply Z.ltb_ge; lia).
  unfold zfill. rewrite E at 3. rewrite <- append_assoc, <- zeros_app.
  f_equal. f_equal.
  assert (Hl : Str.len ds = Z.of_nat k + Str.len (decimal a)).
  { unfold Str.len. rewrite E, length_append, length_zeros. lia. }
  assert (0 < Str.len (decimal a)).
  { destruct (decimal_digits a Ha) as [_ Hne]. unfold Str.len.
    destruct (decimal a); [done|]. cbn [String.length]. lia. }
  lia.
Qed.

(** X23. For a programme whose season and episode are strings of
    decimal digits with the values [a] and [b], [print_programmes]
    writes: the common number [S..E..] when one of the two is positive,
    with each string as it is and one zero before a single digit; the
    dd_progid when the program id has the form for it; and the xmltv_ns
    number [a-1.b-1.] when both are at least 1.  In that order. *)
Theorem episode_numbers (p : string) (prog : program) (ds de : string) :
  seasonNum prog = Some ds -> episodeNum prog = Some de ->
  digit_string ds -> digit_string de ->
  exists a b,
    int_of ds = Some a /\ int_of de = Some b
    /\ episode_nums p prog
       = Ok ((if (0 <? a) || (0 <? b)
              then [("common", ("S" +:+ zfill 2 ds) +:+ ("E" +:+ zfill 2 de))]
              else [])
             ++ (if dd_progid_match p
                 then [("dd_progid",
                        Str.slice 0 10 p +:+ "." +:+ Str.slice 10 14 p)]
                 else [])
             ++ (if (1 <=? a) && (1 <=? b)
                 then [("xmltv_ns",
                        decimal (a - 1) +:+ "." +:+ decimal (b - 1) +:+ ".")]
                 else [])).
Proof.
  intros Hs He Hds Hde.
  destruct (digits_decimal ds) as (a & ka & Ea & Ha & Eda);
    [apply Hds|apply Hds|].
  destruct (digits_decimal de) as (b & kb & Eb & Hb & Edb);
    [apply Hde|apply Hde|].
  exists a, b. split; [done|]. split; [done|].
  unfold episode_nums. rewrite Hs, He.
  rewrite (py_int_digits ds Hds), (py_int_digits de Hde), Ea, Eb.
  cbv zeta.
  rewrite (format_0d_digits ds a ka Ha Eda), (format_0d_digits de b kb Hb Edb).
  assert ((0 <=? a - 1) = (1 <=? a)) as ->
    by (destruct (Z.leb_spec 0 (a - 1)), (Z.leb_spec 1 a); lia).
  assert ((0 <=? b - 1) = (1 <=? b)) as ->
    by (destruct (Z.leb_spec 0 (b - 1)), (Z.leb_spec 1 b); lia).
  reflexivity.
Qed.

Lemma episode_numbers_witness :
  let prog := mkProgram None None None None None (Some "3") (Some "012")
                None None None None None [] None in
  exists a b,
    int_of "3" = Some a /\ int_of "012" = Some b
    /\ episode_nums "EP012345670088" prog
       = Ok ((if (0 <? a) || (0 <? b)
              then [("common", ("S" +:+ zfill 2 "3") +:+ ("E" +:+ zfill 2 "012"))]
              else [])
             ++ (if dd_progid_match "EP012345670088"
                 then [("dd_progid",
                        Str.slice 0 10 "EP012345670088" +:+ "."
                        +:+ Str.slice 10 14 "EP012345670088")]
                 else [])
             ++ (if (1 <=? a) && (1 <=? b)
                 then [("xmltv_ns",
                        decimal (a - 1) +:+ "." +:+ decimal (b - 1) +:+ ".")]
                 else [])).
Proof.
  intros prog.
  apply (episode_numbers "EP012345670088" prog "3" "012");
    try reflexivity;
    (split; [discriminate|split; [reflexivity|vm_compute; discriminate]]).
Defined.

(** ** The channels that the programmes name *)

Lemma programmes_loop_channels (z : zap) (keys : list Z) :
  forall d out d' out',
    programmes_loop z keys d out = Ok (d', out') ->
    Forall (channel_of_station z) out -> Forall (channel_of_station z) out'.
Proof.
  induction keys as [|s rest IH]; intros d out d' out' H Hout.
  - cbn [programmes_loop] in H. by injection H as _ <-.
  - cbn [programmes_loop] in H.
    destruct (dget s d) as [a|]; cbn [subscript rbind] in H; [|done].
    assert (Hstep : forall e,
      (c <~ station_to_channel z (a_station a) ;;
       p <~ subscript (programs z !! a_program a) ;;
       _ <~ episode_nums (a_program a) p ;;
       programmes_loop z rest d
         (out ++ [mkProgramme (time a) e c (a_program a) (title p)
                    (default [] (sorted_genres <$> genres p))]))
      = Ok (d', out') -> Forall (channel_of_station z) out').
    { intros e He.
      destruct (station_to_channel z (a_station a)) as [c|] eqn:Ec;
        cbn [rbind] in He; [|done].
      destruct (programs z !! a_program a) as [p|];
        cbn [subscript rbind] in He; [|done].
      destruct (episode_nums (a_program a) p) as [ens|];
        cbn [rbind] in He; [|done].
      apply (IH _ _ _ _ He). apply Forall_app. split; [done|].
      apply Forall_cons_2; [|apply Forall_nil_2]. by exists (a_station a). }
    destruct (endtime a) as [e|] eqn:Ee.
    + destruct rest as [|k rest']; cbn [rbind] in H; by apply (Hstep e).
    + destruct rest as [|k rest'].
      * by apply (IH _ _ _ _ H).
      * cbn [rbind] in H.
        destruct (dget k d) as [b|]; cbn [subscript rbind] in H; [|done].
        by apply (Hstep (time b)).
Qed.

Lemma print_programmes_stations_channels (z : zap) (order : list string) :
  forall sch out sch' out',
    print_programmes_stations z order sch out = Ok (sch', out') ->
    Forall (channel_of_station z) out -> Forall (channel_of_station z) out'.
Proof.
  induction order as [|station order IH]; intros sch out sch' out' H Hout.
  - cbn [print_programmes_stations] in H. by injection H as _ <-.
  - cbn [print_programmes_stations] in H.
    destruct (dget station sch) as [d|]; cbn [subscript rbind] in H; [|done].
    destruct (print_programmes_station z d) as [[d1 out1]|] eqn:E;
      cbn [rbind] in H; [|done].
    apply (IH _ _ _ _ H). apply Forall_app. split; [done|].
    apply (programmes_loop_channels z _ _ _ _ _ E). apply Forall_nil_2.
Qed.

Lemma insert_sorted_r_keeps {A} (le : A -> A -> result bool) x l :
  forall l', insert_sorted_r le x l = Ok l' ->
  x ∈ l' /\ forall b, b ∈ l -> b ∈ l'.
Proof.
  induction l as [|y l IH]; intros l'; cbn [insert_sorted_r].
  - intros [= <-]. split; [left|]. intros b Hb. by apply elem_of_nil in Hb.
  - destruct (le x y) as [[]|]; cbn [rbind]; [| |done].
    + intros [= <-]. split; [left|]. intros b Hb. by right.
    + destruct (insert_sorted_r le x l) as [l''|]; cbn [rbind]; [|done].
      intros [= <-]. destruct (IH l'' eq_refl) as [Hx Hl].
      split; [by right|]. intros b Hb.
      apply elem_of_cons in Hb as [->|Hb]; [left|right; by apply Hl].
Qed.

Lemma sorted_r_keeps {A} (le : A -> A -> result bool) l :
  forall l', sorted_r le l = Ok l' -> forall b, b ∈ l -> b ∈ l'.
Proof.
  unfold sorted_r. induction l as [|x l IH]; intros l'; cbn [foldr].
  - by intros [= <-].
  - destruct (foldr _ (Ok []) l) as [l1|] eqn:E1; cbn [rbind]; [|done].
    intros E b Hb. destruct (insert_sorted_r_keeps le x l1 l' E) as [Hx Hl].
    apply elem_of_cons in Hb as [->|Hb]; [done|].
    apply Hl. by apply (IH l1).
Qed.

Lemma print_channels_declares (z : zap) (cs : list string) (s c : string) :
  print_channels z = Ok cs -> station_to_channel z s = Ok c -> c ∈ cs.
Proof.
  intros Ec Es. unfold print_channels in Ec.
  destruct (sorted_stations z (dkeys (stations z))) as [l|] eqn:El;
    cbn [rbind] in Ec; [|done].
  assert (Hs : s ∈ l).
  { apply (sorted_r_keeps _ _ _ El). apply dget_is_Some_keys.
    unfold station_to_channel in Es.
    destruct (dget s (stations z)); [done|discriminate Es]. }
  clear El. revert cs Ec. induction l as [|k l IH]; intros cs Ec.
  - by apply elem_of_nil in Hs.
  - cbn [foldr] in Ec.
    destruct (foldr _ (Ok []) l) as [cs'|] eqn:E'; cbn [rbind] in Ec; [|done].
    destruct (station_to_channel z k) as [c'|] eqn:Ek; cbn [rbind] in Ec;
      [|done].
    injection Ec as <-.
    apply elem_of_cons in Hs as [->|Hs].
    + rewrite Es in Ek. injection Ek as ->. left.
    + right. by apply IH.
Qed.

(** X24. Whenever [print_channels] and [print_programmes] return, the
    channel attribute of every programme written is the id of a channel
    element written: no programme refers to a channel that the document
    does not declare. *)
Theorem programme_channels_declared (z : zap) (cs : list string)
    (r : pydict string (pydict Z airing) * list programme) :
  print_channels z = Ok cs -> print_programmes z = Ok r ->
  forall pr, pr ∈ r.2 -> pr_channel pr ∈ cs.
Proof.
  intros Ec Er.
  assert (Hch : Forall (channel_of_station z) r.2).
  { unfold print_programmes in Er.
    destruct (sorted_stations z (dkeys (schedule z))) as [order|];
      cbn [rbind] in Er; [|done].
    destruct r as [sch' out].
    apply (print_programmes_stations_channels z _ _ _ _ _ Er).
    apply Forall_nil_2. }
  intros pr Hpr. rewrite Forall_forall in Hch.
  destruct (Hch pr Hpr) as [s Es].
  by apply (print_channels_declares z cs s).
Qed.

Lemma programme_channels_declared_witness :
  let z := parse_channels no_overview_json grid_two_airings
             (initial_zap default_options) in
  exists cs r,
    print_channels z = Ok cs /\ print_programmes z = Ok r
    /\ r.2 <> [] /\ forall pr, pr ∈ r.2 -> pr_channel pr ∈ cs.
Proof.
  intros z. eexists _, _.
  split; [vm_compute; reflexivity|].
  split; [vm_compute; reflexivity|].
  split; [discriminate|].
  apply (programme_channels_declared z); vm_compute; reflexivity.
Defined.
